(** * e-racer: the entity-component simulation core

    A shallow embedding of the TypeScript simulation core (World, Entity,
    Component, the vehicle / checkpoint / lap-counter / network-identity
    components, RaceSystem and NetworkSystem) together with the properties
    stated about it.

    Conventions.
    - A JavaScript [number] that carries a time, a distance or an input is
      modelled as an exact rational [Q]; [NaN] and rounding are outside
      that model.  Where a statement about the scheduler depends on
      rounding, the scheduler is modelled a second time with every [number]
      an IEEE 754 binary64 value ([World.Double], on the primitive floats).
      Counters and checkpoint indices are [Z].
    - [performance.now()] is an input of the function that reads it; the
      readings taken while NetworkSystem builds a message come from the
      [clock] of its state.
    - A [Map<K,V>] whose iteration order is not observed is a [gmap K V];
      arrays, and maps that are iterated, are lists. *)

From Stdlib Require Import QArith Qround Qminmax Qabs Lqa Lia.
From Stdlib Require Import Floats.
From Stdlib Require Import Sorting.Sorted Sorting.Permutation.
From stdpp Require Import base option gmap strings list.

Open Scope Q_scope.

(** ** Rational helpers *)

Definition Qsum (l : list Q) : Q := fold_right Qplus 0 l.

Lemma Qle_bool_false_lt (a b : Q) : Qle_bool a b = false -> b < a.
Proof.
  intros H. apply Qnot_le_lt. intros Hle.
  apply Qle_bool_iff in Hle. congruence.
Qed.

(** ** IEEE 754 binary64 helpers

    Signs and order of the primitive floats, from the specification of
    their operations in [SpecFloat]: what the scheduler needs to keep a
    quantity non-negative through a rounded addition, subtraction and
    division. *)

Module Binary64.

Definition nonneg (f : spec_float) : bool :=
  match f with
  | S754_zero _ => true
  | S754_infinity s => negb s
  | S754_nan => false
  | S754_finite s _ _ => negb s
  end.

Definition finite (f : spec_float) : bool :=
  match f with
  | S754_zero _ | S754_finite _ _ _ => true
  | _ => false
  end.

Lemma nonneg_leb (f : spec_float) : SFleb (S754_zero false) f = nonneg f.
Proof. destruct f as [s|s| |s m e]; try destruct s; reflexivity. Qed.

Lemma shr_1_nonneg (mrs : shr_record) : (0 <= shr_m mrs -> 0 <= shr_m (shr_1 mrs))%Z.
Proof.
  destruct mrs as [m r s]. cbn. intros H.
  destruct m as [|p|p]; [cbn; lia| |lia].
  destruct p; cbn; lia.
Qed.

Lemma iter_pos_inv {A : Type} (P : A -> Prop) (f : A -> A) :
  (forall x, P x -> P (f x)) -> forall (p : positive) (x : A), P x -> P (SpecFloat.iter_pos f p x).
Proof.
  intros Hf. induction p as [p IH|p IH|]; intros x Hx; cbn.
  - apply IH, IH, Hf, Hx.
  - apply IH, IH, Hx.
  - apply Hf, Hx.
Qed.

Lemma shr_fexp_nonneg (m e : Z) (l : location) :
  (0 <= m -> 0 <= shr_m (fst (shr_fexp prec emax m e l)))%Z.
Proof.
  intros H. unfold shr_fexp, shr.
  assert (H0 : (0 <= shr_m (shr_record_of_loc m l))%Z).
  { destruct l as [|[| |]]; exact H. }
  destruct (_ - e)%Z; cbn [fst]; try exact H0.
  apply (iter_pos_inv (fun r => (0 <= shr_m r)%Z)); [apply shr_1_nonneg|exact H0].
Qed.

Lemma round_nearest_even_nonneg (m : Z) (l : location) :
  (0 <= m -> 0 <= round_nearest_even m l)%Z.
Proof.
  intros H. destruct l as [|[| |]]; cbn; try lia. destruct (Z.even m); lia.
Qed.

Lemma binary_round_aux_nonneg (m e : Z) (l : location) :
  (0 <= m)%Z -> nonneg (binary_round_aux prec emax false m e l) = true.
Proof.
  intros H. unfold binary_round_aux.
  pose proof (shr_fexp_nonneg m e l H) as H1.
  destruct (shr_fexp prec emax m e l) as [mrs' e']. cbn [fst] in H1.
  pose proof (shr_fexp_nonneg _ e' loc_Exact
                (round_nearest_even_nonneg _ (loc_of_shr_record mrs') H1)) as H2.
  destruct (shr_fexp prec emax _ e' loc_Exact) as [mrs'' e'']. cbn [fst] in H2.
  destruct (shr_m mrs'') as [|p|p]; [reflexivity| |lia].
  destruct (e'' <=? _)%Z; reflexivity.
Qed.

Lemma binary_normalize_nonneg (m e : Z) :
  (0 <= m)%Z -> nonneg (binary_normalize prec emax m e false) = true.
Proof.
  intros H. destruct m as [|p|p]; [reflexivity| |lia].
  cbn. unfold binary_round. destruct (shl_align _ _ _) as [mz ez].
  apply binary_round_aux_nonneg. lia.
Qed.

Lemma SFadd_nonneg (x y : spec_float) :
  nonneg x = true -> nonneg y = true -> nonneg (SF64add x y) = true.
Proof.
  destruct x as [sx|sx| |sx mx ex], y as [sy|sy| |sy my ey]; cbn; try discriminate;
    try (destruct sx; try discriminate); try (destruct sy; try discriminate);
    try reflexivity; intros _ _.
  apply binary_normalize_nonneg. cbn. lia.
Qed.


Lemma SFdiv_nonneg (x : spec_float) (my : positive) (ey : Z) :
  nonneg x = true -> nonneg (SF64div x (S754_finite false my ey)) = true.
Proof.
  destruct x as [sx|sx| |sx mx ex]; cbn; try discriminate;
    try (destruct sx; try discriminate; reflexivity).
  destruct sx; [discriminate|]. intros _.
  unfold SFdiv_core_binary.
  set (m' := match (_ - _ - _)%Z with Z0 => Zpos mx | Zpos _ => _ | Zneg _ => _ end).
  assert (Hm : (0 <= m')%Z).
  { subst m'. destruct (_ - _ - _)%Z; try lia. apply Z.shiftl_nonneg. lia. }
  pose proof (Z.div_pos m' (Zpos my) Hm ltac:(lia)) as Hq.
  unfold Z.div in Hq. destruct (Z.div_eucl m' (Zpos my)) as [q r].
  apply binary_round_aux_nonneg. exact Hq.
Qed.

Lemma iter_xO (m d : positive) : Zpos (Pos.iter xO m d) = (Zpos m * 2 ^ Zpos d)%Z.
Proof.
  induction d as [|d IH] using Pos.peano_ind.
  - cbn. lia.
  - rewrite Pos.iter_succ, Pos2Z.inj_succ, Z.pow_succ_r by lia.
    rewrite Pos2Z.inj_xO, IH. lia.
Qed.

Lemma shl_align_value (m : positive) (e ez : Z) :
  (ez <= e)%Z -> Zpos (fst (shl_align m e ez)) = (Zpos m * 2 ^ (e - ez))%Z.
Proof.
  intros H. unfold shl_align.
  destruct (ez - e)%Z as [|d|d] eqn:E; cbn [fst]; try lia.
  - replace (e - ez)%Z with 0%Z by lia. cbn. lia.
  - rewrite iter_xO. replace (e - ez)%Z with (Zpos d) by lia. reflexivity.
Qed.

Lemma digits2_pos_bounds (m : positive) :
  (2 ^ (Zpos (digits2_pos m) - 1) <= Zpos m < 2 ^ Zpos (digits2_pos m))%Z.
Proof.
  induction m as [p IH|p IH|]; cbn [digits2_pos].
  - rewrite Pos2Z.inj_succ. replace (Z.succ (Zpos (digits2_pos p)) - 1)%Z
      with (Z.succ (Zpos (digits2_pos p) - 1)) by lia.
    rewrite !Z.pow_succ_r by lia. rewrite (Pos2Z.inj_xI p).
    set (a := (2 ^ (Zpos (digits2_pos p) - 1))%Z) in *.
    set (b := (2 ^ Zpos (digits2_pos p))%Z) in *. clearbody a b. lia.
  - rewrite Pos2Z.inj_succ. replace (Z.succ (Zpos (digits2_pos p)) - 1)%Z
      with (Z.succ (Zpos (digits2_pos p) - 1)) by lia.
    rewrite !Z.pow_succ_r by lia. rewrite (Pos2Z.inj_xO p).
    set (a := (2 ^ (Zpos (digits2_pos p) - 1))%Z) in *.
    set (b := (2 ^ Zpos (digits2_pos p))%Z) in *. clearbody a b. lia.
  - cbn. lia.
Qed.

Lemma bounded_digits (m : positive) (e : Z) :
  bounded prec emax m e = true ->
  (Zpos (digits2_pos m) <= 53 /\ -1074 <= e
   /\ (-1074 < e -> Zpos (digits2_pos m) = 53))%Z.
Proof.
  unfold bounded, canonical_mantissa, fexp, SpecFloat.emin, prec, emax.
  intros H. apply andb_prop in H as [H _]. apply Z.eqb_eq in H. lia.
Qed.

(** Two canonical mantissas, the first of the smaller magnitude, once
    aligned on the smaller exponent. *)
Lemma aligned_le (m1 m2 : positive) (e1 e2 : Z) :
  bounded prec emax m1 e1 = true -> bounded prec emax m2 e2 = true ->
  (e1 < e2 \/ (e1 = e2 /\ Zpos m1 <= Zpos m2))%Z ->
  (Zpos (fst (shl_align m1 e1 (Z.min e1 e2))) <= Zpos (fst (shl_align m2 e2 (Z.min e1 e2))))%Z
  /\ (Zpos (fst (shl_align m1 e1 (Z.min e2 e1))) <= Zpos (fst (shl_align m2 e2 (Z.min e2 e1))))%Z.
Proof.
  intros B1 B2 H.
  assert (Hmin : Z.min e1 e2 = e1) by lia.
  rewrite (Z.min_comm e2 e1), Hmin. 
  rewrite !shl_align_value by lia.
  replace (e1 - e1)%Z with 0%Z by lia. rewrite Z.pow_0_r, Z.mul_1_r.
  assert (G : (Zpos m1 <= Zpos m2 * 2 ^ (e2 - e1))%Z).
  { destruct H as [Hlt|[-> Hle]].
    - apply bounded_digits in B1 as (D1 & E1 & _).
      apply bounded_digits in B2 as (_ & _ & D2). specialize (D2 ltac:(lia)).
      pose proof (digits2_pos_bounds m1) as [_ U1].
      pose proof (digits2_pos_bounds m2) as [L2 _]. rewrite D2 in L2.
      assert (P1 : (2 ^ Zpos (digits2_pos m1) <= 2 ^ 53)%Z)
        by (apply Z.pow_le_mono_r; lia).
      assert (P2 : (2 ^ 1 <= 2 ^ (e2 - e1))%Z) by (apply Z.pow_le_mono_r; lia).
      change (2 ^ (53 - 1))%Z with 4503599627370496%Z in L2.
      change (2 ^ 53)%Z with 9007199254740992%Z in P1.
      change (2 ^ 1)%Z with 2%Z in P2. nia.
    - replace (e2 - e2)%Z with 0%Z by lia. rewrite Z.pow_0_r. lia. }
  split; exact G.
Qed.

Lemma compare_cont_le (p q : positive) :
  match Pos.compare_cont Eq p q with Gt => False | _ => True end -> (Zpos p <= Zpos q)%Z.
Proof.
  change (Pos.compare_cont Eq p q) with (Pos.compare p q).
  destruct (Pos.compare_spec p q) as [E|E|E]; intros G; first [lia|contradiction].
Qed.

Lemma compare_cont_ge (p q : positive) :
  match Pos.compare_cont Eq p q with Lt => False | _ => True end -> (Zpos q <= Zpos p)%Z.
Proof.
  change (Pos.compare_cont Eq p q) with (Pos.compare p q).
  destruct (Pos.compare_spec p q) as [E|E|E]; intros G; first [lia|contradiction].
Qed.

(** [y <= x] gives [0 <= x - y], for valid [x] and a valid finite [y]. *)
Lemma SFsub_nonneg (x y : spec_float) :
  valid_binary x = true -> valid_binary y = true -> finite y = true ->
  SFleb y x = true -> nonneg (SF64sub x y) = true.
Proof.
  intros Vx Vy Fy. unfold SFleb.
  destruct y as [sy|sy| |sy my ey]; try discriminate;
    destruct x as [sx|sx| |sx mx ex]; cbn [SFcompare SF64sub SFsub nonneg];
    try discriminate.
  - destruct sx, sy; reflexivity.
  - destruct sx; [discriminate|reflexivity].
  - destruct sx; [discriminate|reflexivity].
  - destruct sy; [reflexivity|discriminate].
  - destruct sx; [discriminate|reflexivity].
  - cbn in Vx, Vy. intros H. apply binary_normalize_nonneg.
    destruct sy, sx; cbn [cond_Zopp]; [| |discriminate H|].
    + (* both negative: |x| <= |y| *)
      assert (Hc : (ex < ey \/ (ex = ey /\ Zpos mx <= Zpos my))%Z).
      { destruct (Z.compare_spec ey ex) as [E|E|E]; try discriminate; [|lia].
        right. split; [lia|]. apply compare_cont_ge.
        destruct (Pos.compare_cont Eq my mx); try exact I. discriminate. }
      destruct (aligned_le mx my ex ey Vx Vy Hc) as [G _]. lia.
    + lia.
    + (* both positive: y <= x *)
      assert (Hc : (ey < ex \/ (ey = ex /\ Zpos my <= Zpos mx))%Z).
      { destruct (Z.compare_spec ey ex) as [E|E|E]; try discriminate; [|lia].
        right. split; [lia|]. apply compare_cont_le.
        destruct (Pos.compare_cont Eq my mx); try exact I. discriminate. }
      destruct (aligned_le my mx ey ex Vy Vx Hc) as [_ G]. lia.
Qed.

Lemma SFcompare_antisym (x y : spec_float) (c : comparison) :
  SFcompare x y = Some c -> SFcompare y x = Some (CompOpp c).
Proof.
  destruct x as [sx|sx| |sx mx ex], y as [sy|sy| |sy my ey]; cbn; try discriminate;
    intros [= <-]; try (destruct sx); try (destruct sy); try reflexivity;
    change (Pos.compare_cont Eq) with Pos.compare;
    rewrite (Z.compare_antisym ex ey), (Pos.compare_antisym mx my);
    destruct (ex ?= ey)%Z; cbn; try reflexivity;
    destruct (mx ?= my)%positive; reflexivity.
Qed.

(** Among numbers, [not (y <= x)] is [x < y]. *)
Lemma SFleb_false_ltb (x y : spec_float) :
  nonneg x = true -> y <> S754_nan -> SFleb y x = false -> SFltb x y = true.
Proof.
  intros Hx Hy. unfold SFleb, SFltb.
  destruct (SFcompare y x) as [c|] eqn:E.
  - rewrite (SFcompare_antisym _ _ _ E). destruct c; cbn; congruence.
  - destruct x as [sx|sx| |sx mx ex], y as [sy|sy| |sy my ey]; cbn in *; congruence.
Qed.

(** *** The same on the primitive doubles *)

Open Scope float_scope.

Lemma leb_zero (x : float) : (0 <=? x) = nonneg (Prim2SF x).
Proof. rewrite FloatAxioms.leb_spec. apply nonneg_leb. Qed.

Lemma add_nonneg (x y : float) :
  (0 <=? x) = true -> (0 <=? y) = true -> (0 <=? x + y) = true.
Proof. rewrite !leb_zero, FloatAxioms.add_spec. apply SFadd_nonneg. Qed.

Lemma div_1000_nonneg (x : float) : (0 <=? x) = true -> (0 <=? x / 1000) = true.
Proof. rewrite !leb_zero, FloatAxioms.div_spec. apply SFdiv_nonneg. Qed.

Lemma is_finite_spec (y : float) : is_finite y = true -> finite (Prim2SF y) = true.
Proof.
  unfold is_finite, Prim2SF. intros H. apply negb_true_iff, orb_false_iff in H as [-> ->].
  destruct (is_zero y); [reflexivity|].
  destruct (Z.frexp y) as [r e]. destruct (shr_fexp _ _ _ _ _) as [shr e'].
  destruct (shr_m shr); reflexivity.
Qed.

Lemma sub_nonneg (x y : float) :
  is_finite y = true -> (y <=? x) = true -> (0 <=? x - y) = true.
Proof.
  intros Fy. rewrite leb_zero, FloatAxioms.leb_spec, FloatAxioms.sub_spec.
  apply SFsub_nonneg; [apply FloatAxioms.Prim2SF_valid|apply FloatAxioms.Prim2SF_valid|apply is_finite_spec, Fy].
Qed.

Lemma ltb_zero_number (y : float) : (0 <? y) = true -> Prim2SF y <> S754_nan.
Proof. rewrite FloatAxioms.ltb_spec. intros H E. rewrite E in H. discriminate. Qed.

Lemma not_leb_ltb (x y : float) :
  (0 <=? x) = true -> (0 <? y) = true -> (y <=? x) = false -> (x <? y) = true.
Proof.
  rewrite leb_zero, FloatAxioms.leb_spec, (FloatAxioms.ltb_spec x y). intros Hx Hy.
  apply SFleb_false_ltb; [exact Hx|apply ltb_zero_number, Hy].
Qed.

Lemma SFcompare_refl (f : spec_float) : f <> S754_nan -> SFcompare f f = Some Eq.
Proof.
  destruct f as [s|s| |s m e]; cbn; try congruence; intros _.
  - destruct s; reflexivity.
  - destruct s; rewrite Z.compare_refl;
      change (Pos.compare_cont Eq m m) with (Pos.compare m m);
      rewrite Pos.compare_refl; reflexivity.
Qed.

(** A double that is at least 0 is not NaN. *)
Lemma nonneg_is_number (x : float) : (0 <=? x) = true -> is_nan x = false.
Proof.
  rewrite leb_zero. intros H. unfold is_nan. rewrite FloatAxioms.eqb_spec. unfold SFeqb.
  rewrite SFcompare_refl; [reflexivity|]. intros E. rewrite E in H. discriminate.
Qed.

(** The rational a finite double stands for (0 for the others). *)
Definition toQ (x : float) : Q :=
  match Prim2SF x with
  | S754_finite s m e =>
      (if s then -1 else 1) * inject_Z (Zpos m)
      * (if (e <? 0)%Z then / inject_Z (2 ^ (- e)) else inject_Z (2 ^ e))
  | _ => 0
  end%Q.

End Binary64.

(** ** core/World.ts: the fixed-timestep scheduler

    First with exact rationals, for what does not depend on rounding (the
    baseline test, a step that is not positive), then in [Double] with the
    binary64 arithmetic of the source. *)

Module World.

Section Scheduler.

(** Everything of the world besides its clock: the entity registry, the
    add/remove queue, the systems and the state they own. *)
Context {Sim : Type}.

(** [processEntityQueue] (lines 62-81), one fixed tick (lines 127-136:
    every system's [fixedUpdate], then every component's) and the
    variable pass (lines 142-151). *)
Variable processEntityQueue : Sim -> Sim.
Variable fixedUpdates : Q -> Sim -> Sim.
Variable variableUpdates : Q -> Sim -> Sim.

Record World := mkWorld {
  lastFixedUpdateTime : Q;
  fixedTimeStep : Q;
  accumulator : Q;
  sim : Sim
}.

(** [new World(fixedTimeStep)] *)
Definition newWorld (fts : Q) (s : Sim) : World :=
  {| lastFixedUpdateTime := 0; fixedTimeStep := fts; accumulator := 0; sim := s |}.

(** [while (this.accumulator >= this.fixedTimeStep) { ...; this.accumulator -= this.fixedTimeStep }].
    The loop is unbounded in the source; [fuel] bounds the number of
    iterations and [None] means the bound was hit with the guard still true. *)
Fixpoint fixedLoop (fuel : nat) (fts acc : Q) (s : Sim) : option (Q * Sim) :=
  match fuel with
  | O => if Qle_bool fts acc then None else Some (acc, s)
  | S fuel' =>
      if Qle_bool fts acc
      then fixedLoop fuel' fts (acc - fts) (fixedUpdates fts s)
      else Some (acc, s)
  end.

(** [World.update(currentTime)] *)
Definition update (fuel : nat) (w : World) (currentTime : Q) : option World :=
  if Qeq_bool (lastFixedUpdateTime w) 0 then
    Some {| lastFixedUpdateTime := currentTime;
            fixedTimeStep := fixedTimeStep w;
            accumulator := accumulator w;
            sim := sim w |}
  else
    let deltaTime := (currentTime - lastFixedUpdateTime w) / 1000 in
    let cappedDeltaTime := Qmin deltaTime 0.25 in
    let s1 := processEntityQueue (sim w) in
    match fixedLoop fuel (fixedTimeStep w) (accumulator w + cappedDeltaTime) s1 with
    | None => None
    | Some (acc, s2) =>
        Some {| lastFixedUpdateTime := currentTime;
                fixedTimeStep := fixedTimeStep w;
                accumulator := acc;
                sim := variableUpdates cappedDeltaTime s2 |}
    end.

(** One [update] per animation frame, in order. *)
Fixpoint runUpdates (fuel : nat) (w : World) (times : list Q) : option World :=
  match times with
  | [] => Some w
  | t :: ts =>
      match update fuel w t with
      | None => None
      | Some w' => runUpdates fuel w' ts
      end
  end.

(** The loop from a non-negative accumulator: [n] ticks, and what is left. *)
Lemma fixedLoop_spec (fts : Q) :
  0 < fts ->
  forall (fuel : nat) (acc : Q) (s : Sim),
    0 <= acc -> acc < (inject_Z (Z.of_nat fuel) + 1) * fts ->
    exists (n : nat) (acc' : Q),
      fixedLoop fuel fts acc s = Some (acc', Nat.iter n (fixedUpdates fts) s)
      /\ acc == acc' + inject_Z (Z.of_nat n) * fts
      /\ 0 <= acc' /\ acc' < fts /\ (n <= fuel)%nat.
Proof.
  intros Hfts. induction fuel as [|fuel IH]; intros acc s Hacc Hlt.
  - change (inject_Z (Z.of_nat 0)) with 0 in Hlt.
    assert (Hc : Qle_bool fts acc = false).
    { destruct (Qle_bool fts acc) eqn:E; [|reflexivity].
      apply Qle_bool_iff in E. exfalso. lra. }
    exists O, acc. cbn [fixedLoop Nat.iter nat_rect]. rewrite Hc.
    change (inject_Z (Z.of_nat 0)) with 0.
    split; [reflexivity|]. split; [lra|]. split; [lra|]. split; [lra|lia].
  - rewrite Nat2Z.inj_succ, <- Z.add_1_r, inject_Z_plus in Hlt.
    change (inject_Z 1) with 1 in Hlt.
    cbn [fixedLoop]. destruct (Qle_bool fts acc) eqn:E.
    + apply Qle_bool_iff in E.
      destruct (IH (acc - fts) (fixedUpdates fts s))
        as (n & acc' & Hrun & Heq & H0 & H1 & Hn); [lra|lra|].
      exists (S n), acc'. rewrite Hrun.
      split.
      { f_equal. f_equal. symmetry. apply Nat.iter_succ_r. }
      rewrite Nat2Z.inj_succ, <- Z.add_1_r, inject_Z_plus.
      change (inject_Z 1) with 1.
      split; [lra|]. split; [lra|]. split; [lra|lia].
    + apply Qle_bool_false_lt in E.
      exists O, acc. cbn [Nat.iter nat_rect].
      change (inject_Z (Z.of_nat 0)) with 0.
      split; [reflexivity|]. split; [lra|]. split; [lra|]. split; [lra|lia].
Qed.

(** A call that finds the baseline at 0 only records the time, whatever the
    accumulator and the queue hold. *)
Lemma update_zero_baseline (fuel : nat) (w : World) (currentTime : Q) :
  lastFixedUpdateTime w == 0 ->
  update fuel w currentTime
  = Some {| lastFixedUpdateTime := currentTime; fixedTimeStep := fixedTimeStep w;
            accumulator := accumulator w; sim := sim w |}.
Proof.
  intros H. unfold update. apply Qeq_bool_iff in H. rewrite H. reflexivity.
Qed.

(** The first call on a fresh world only records the baseline. *)
Lemma update_first_call (fuel : nat) (fts : Q) (s : Sim) (currentTime : Q) :
  update fuel (newWorld fts s) currentTime
  = Some {| lastFixedUpdateTime := currentTime; fixedTimeStep := fts;
            accumulator := 0; sim := s |}.
Proof. reflexivity. Qed.

(** A call that finds a non-zero baseline drains the queue, runs [n] fixed
    ticks and one variable pass, all with the capped delta. *)
Lemma update_with_baseline (fuel : nat) (w : World) (currentTime : Q) :
  ~ lastFixedUpdateTime w == 0 ->
  0 < fixedTimeStep w ->
  0 <= accumulator w + Qmin ((currentTime - lastFixedUpdateTime w) / 1000) 0.25 ->
  accumulator w + Qmin ((currentTime - lastFixedUpdateTime w) / 1000) 0.25
    < (inject_Z (Z.of_nat fuel) + 1) * fixedTimeStep w ->
  exists (n : nat) (acc' : Q),
    update fuel w currentTime
    = Some {| lastFixedUpdateTime := currentTime;
              fixedTimeStep := fixedTimeStep w;
              accumulator := acc';
              sim := variableUpdates (Qmin ((currentTime - lastFixedUpdateTime w) / 1000) 0.25)
                       (Nat.iter n (fixedUpdates (fixedTimeStep w))
                          (processEntityQueue (sim w))) |}
    /\ accumulator w + Qmin ((currentTime - lastFixedUpdateTime w) / 1000) 0.25
       == acc' + inject_Z (Z.of_nat n) * fixedTimeStep w
    /\ 0 <= acc' /\ acc' < fixedTimeStep w.
Proof.
  intros Hbase Hfts H0 Hlt.
  destruct (fixedLoop_spec (fixedTimeStep w) Hfts fuel _ (processEntityQueue (sim w)) H0 Hlt)
    as (n & acc' & Hrun & Heq & Hlo & Hhi & _).
  exists n, acc'. unfold update.
  destruct (Qeq_bool (lastFixedUpdateTime w) 0) eqn:E.
  { apply Qeq_bool_iff in E. contradiction. }
  cbv zeta. rewrite Hrun. auto.
Qed.

End Scheduler.

Arguments World : clear implicits.

(** *** The scheduler with a log of what it ran *)

Inductive Event :=
| QueueDrained
| FixedTick (dt : Q)
| VariableTick (dt : Q).

(** Newest event first. *)
Definition logQueue (l : list Event) : list Event := QueueDrained :: l.
Definition logFixed (dt : Q) (l : list Event) : list Event := FixedTick dt :: l.
Definition logVariable (dt : Q) (l : list Event) : list Event := VariableTick dt :: l.

Definition updateLogged : nat -> World (list Event) -> Q -> option (World (list Event)) :=
  update logQueue logFixed logVariable.

Definition runLogged : nat -> World (list Event) -> list Q -> option (World (list Event)) :=
  runUpdates logQueue logFixed logVariable.

Fixpoint fixedTicks (l : list Event) : nat :=
  match l with
  | [] => O
  | FixedTick _ :: l' => S (fixedTicks l')
  | _ :: l' => fixedTicks l'
  end.

(** The per-frame deltas after [Math.min(_, 0.25)], for each call after the
    baseline call. *)
Fixpoint cappedDeltas (last : Q) (times : list Q) : list Q :=
  match times with
  | [] => []
  | t :: ts => Qmin ((t - last) / 1000) 0.25 :: cappedDeltas t ts
  end.

(** A clock that does not run backwards. *)
Fixpoint nondecreasing (last : Q) (times : list Q) : Prop :=
  match times with
  | [] => True
  | t :: ts => last <= t /\ nondecreasing t ts
  end.

(** Iterations that always suffice for one frame: the accumulator enters
    below one step and gains at most 0.25. *)
Definition fuelFor (fts : Q) : nat := Z.to_nat (Qceiling (0.25 / fts)).

Lemma fixedTicks_iter (n : nat) (dt : Q) (l : list Event) :
  fixedTicks (Nat.iter n (logFixed dt) l) = (n + fixedTicks l)%nat.
Proof.
  induction n as [|n IH]; [reflexivity|].
  rewrite Nat.iter_succ. unfold logFixed at 1. cbn [fixedTicks].
  rewrite IH. reflexivity.
Qed.

Lemma fuelFor_enough (fts : Q) (fuel : nat) :
  0 < fts -> (fuelFor fts <= fuel)%nat -> 0.25 <= inject_Z (Z.of_nat fuel) * fts.
Proof.
  intros Hfts Hfuel.
  assert (H1 : 0.25 / fts <= inject_Z (Z.of_nat fuel)).
  { eapply Qle_trans; [apply Qle_ceiling|].
    rewrite <- Zle_Qle. unfold fuelFor in Hfuel. lia. }
  apply Qmult_le_compat_r with (z := fts) in H1; [|lra].
  assert (H2 : 0.25 / fts * fts == 0.25) by (field; lra).
  lra.
Qed.

Lemma capped_nonneg (last t : Q) : last <= t -> 0 <= Qmin ((t - last) / 1000) 0.25.
Proof.
  intros H. apply Q.min_glb; [|lra].
  unfold Qdiv. apply Qmult_le_0_compat; [lra|]. vm_compute. discriminate.
Qed.

Lemma capped_le (last t : Q) : Qmin ((t - last) / 1000) 0.25 <= 0.25.
Proof. apply Q.le_min_r. Qed.

(** The invariant carried from frame to frame. *)
Lemma runLogged_invariant (fts : Q) (fuel : nat) :
  0 < fts -> (fuelFor fts <= fuel)%nat ->
  forall (times : list Q) (w : World (list Event)),
    fixedTimeStep w = fts ->
    0 < lastFixedUpdateTime w ->
    0 <= accumulator w -> accumulator w < fts ->
    nondecreasing (lastFixedUpdateTime w) times ->
    exists w' : World (list Event),
      runLogged fuel w times = Some w'
      /\ accumulator w + Qsum (cappedDeltas (lastFixedUpdateTime w) times)
           + inject_Z (Z.of_nat (fixedTicks (sim w))) * fts
         == accumulator w' + inject_Z (Z.of_nat (fixedTicks (sim w'))) * fts
      /\ 0 <= accumulator w' /\ accumulator w' < fts.
Proof.
  intros Hfts Hfuel. pose proof (fuelFor_enough fts fuel Hfts Hfuel) as Hen.
  induction times as [|t ts IH]; intros w Hstep Hlast Hlo Hhi Hmono.
  - exists w. cbn. split; [reflexivity|]. split; [lra|]. split; assumption.
  - destruct Hmono as [Hle Hmono].
    pose proof (capped_nonneg _ _ Hle) as Hc0.
    pose proof (capped_le (lastFixedUpdateTime w) t) as Hc1.
    destruct (update_with_baseline logQueue logFixed logVariable fuel w t)
      as (n & acc' & Hup & Heq & Hlo' & Hhi').
    { lra. } { rewrite Hstep. exact Hfts. } { lra. } { rewrite Hstep. lra. }
    rewrite Hstep in Hup, Heq, Hhi'.
    set (w1 := {| lastFixedUpdateTime := t; fixedTimeStep := fts; accumulator := acc';
                  sim := logVariable (Qmin ((t - lastFixedUpdateTime w) / 1000) 0.25)
                           (Nat.iter n (logFixed fts) (logQueue (sim w))) |}) in *.
    destruct (IH w1) as (w' & Hrun & Hsum & Hlo'' & Hhi''); cbn; try assumption; try lra.
    { reflexivity. }
    exists w'. unfold runLogged in *. cbn [runUpdates]. rewrite Hup.
    split; [exact Hrun|]. split; [|split; assumption].
    cbn [cappedDeltas Qsum fold_right].
    cbn [accumulator sim lastFixedUpdateTime w1 logVariable fixedTicks] in Hsum.
    rewrite fixedTicks_iter in Hsum. cbn [logQueue fixedTicks] in Hsum.
    rewrite Nat2Z.inj_add, inject_Z_plus in Hsum.
    unfold Qsum in Hsum |- *. lra.
Qed.

Lemma nondecreasing_take (k : nat) (times : list Q) :
  forall last : Q, nondecreasing last times -> nondecreasing last (take k times).
Proof.
  revert k. induction times as [|t ts IH]; intros k last H.
  - destruct k; exact I.
  - destruct k as [|k]; [exact I|]. destruct H as [Hle H].
    cbn. split; [exact Hle|]. apply IH. exact H.
Qed.

(** In exact arithmetic the tick count is bounded by the accumulated
    deltas: on a fresh world whose clock starts positive and never runs
    backwards, with D the sum of the per-frame deltas after the cap at
    0.25 s and n the number of fixed ticks run, every update returns,
    n * fixedTimeStep <= D < (n + 1) * fixedTimeStep, and the accumulator
    lies in [0, fixedTimeStep).  What breaks the bound in the source is
    rounding alone (see [Double] below). *)
Lemma conservation_in_exact_arithmetic (fts t0 : Q) (times : list Q) (fuel k : nat) :
  0 < fts -> 0 < t0 -> nondecreasing t0 times -> (fuelFor fts <= fuel)%nat ->
  exists w : World (list Event),
    runLogged fuel (newWorld fts []) (t0 :: take k times) = Some w
    /\ let n := inject_Z (Z.of_nat (fixedTicks (sim w))) in
       let D := Qsum (cappedDeltas t0 (take k times)) in
       n * fts <= D /\ D < (n + 1) * fts
       /\ 0 <= accumulator w /\ accumulator w < fts.
Proof.
  intros Hfts Ht0 Hmono Hfuel.
  apply (nondecreasing_take k) in Hmono.
  set (w0 := {| lastFixedUpdateTime := t0; fixedTimeStep := fts;
                accumulator := 0; sim := @nil Event |}).
  destruct (runLogged_invariant fts fuel Hfts Hfuel (take k times) w0)
    as (w & Hrun & Hsum & Hlo & Hhi); cbn; try assumption; try lra.
  { reflexivity. }
  exists w. split.
  - unfold runLogged in *. cbn [runUpdates]. rewrite update_first_call. exact Hrun.
  - cbn [w0 accumulator sim lastFixedUpdateTime fixedTicks] in Hsum.
    change (inject_Z (Z.of_nat 0)) with 0 in Hsum.
    cbv zeta. repeat split; lra.
Qed.

(** Frames of 16 ms, 34 ms and a stall of 950 ms: no tick, three ticks, and
    the fifteen ticks of the capped quarter of a second. *)
Example ticks_of_three_frames :
  exists w : World (list Event),
    runLogged 15 (newWorld (1 # 60) []) [1000; 1016; 1050; 2000] = Some w
    /\ fixedTicks (sim w) = 18%nat
    /\ accumulator w == 0.
Proof. eexists. split; [vm_compute; reflexivity|]. split; reflexivity. Qed.

(** C6 at the failing input: the first call passes currentTime = 0, so the
    stored baseline is still the "no baseline yet" value and the second call
    is again taken for the first one: it drains no queue and runs no tick. *)
Theorem update_after_zero_baseline_runs_nothing :
  runLogged 15 (newWorld (1 # 60) []) [0; 100]
  = Some {| lastFixedUpdateTime := 100; fixedTimeStep := 1 # 60;
            accumulator := 0; sim := [] |}.
Proof. reflexivity. Qed.

(** The same two calls one millisecond later do simulate the frame. *)
Example update_after_nonzero_baseline_runs_frame :
  exists w : World (list Event),
    runLogged 15 (newWorld (1 # 60) []) [1; 101] = Some w
    /\ sim w = VariableTick (Qmin ((101 - 1) / 1000) 0.25)
               :: Nat.iter 6 (logFixed (1 # 60)) [QueueDrained].
Proof. eexists. split; [vm_compute; reflexivity|]. reflexivity. Qed.

(** *** Further properties of the scheduler *)

(** With a fixedTimeStep that is not positive the loop never ends once its
    guard holds: no bound on the iterations is enough. *)
Lemma fixedLoop_diverges {Sim : Type} (fixedUpdates : Q -> Sim -> Sim) (fts : Q) :
  fts <= 0 ->
  forall (fuel : nat) (acc : Q) (s : Sim),
    fts <= acc -> fixedLoop fixedUpdates fuel fts acc s = None.
Proof.
  intros Hfts. induction fuel as [|fuel IH]; intros acc s Hacc; cbn [fixedLoop].
  - apply Qle_bool_iff in Hacc. rewrite Hacc. reflexivity.
  - pose proof Hacc as Hb. apply Qle_bool_iff in Hb. rewrite Hb.
    apply IH. lra.
Qed.

(** [new World(0)] (or a negative step): an update that finds a baseline and
    an accumulated time not below the step does not return. *)
Theorem update_hangs_on_nonpositive_step {Sim : Type}
    (processEntityQueue : Sim -> Sim) (fixedUpdates variableUpdates : Q -> Sim -> Sim)
    (w : World Sim) (currentTime : Q) (fuel : nat) :
  ~ lastFixedUpdateTime w == 0 ->
  fixedTimeStep w <= 0 ->
  fixedTimeStep w
    <= accumulator w + Qmin ((currentTime - lastFixedUpdateTime w) / 1000) 0.25 ->
  update processEntityQueue fixedUpdates variableUpdates fuel w currentTime = None.
Proof.
  intros Hbase Hfts Hacc. unfold update.
  destruct (Qeq_bool (lastFixedUpdateTime w) 0) eqn:E.
  { apply Qeq_bool_iff in E. contradiction. }
  cbv zeta. rewrite (fixedLoop_diverges fixedUpdates _ Hfts fuel _ _ Hacc). reflexivity.
Qed.

Lemma update_hangs_on_nonpositive_step_witness :
  updateLogged 1000 {| lastFixedUpdateTime := 1000; fixedTimeStep := 0;
                       accumulator := 0; sim := [] |} 1016 = None.
Proof.
  apply (update_hangs_on_nonpositive_step logQueue logFixed logVariable
           {| lastFixedUpdateTime := 1000; fixedTimeStep := 0;
              accumulator := 0; sim := [] |} 1016 1000).
  - vm_compute. discriminate.
  - vm_compute. discriminate.
  - vm_compute. discriminate.
Defined.

(** *** The scheduler in the source's own arithmetic

    The same class with every [number] an IEEE 754 binary64 value and
    every operation rounded as JavaScript rounds it. *)

Module Double.

Import Binary64.
Local Open Scope float_scope.

(** [Math.min(x, y)]: NaN if either is NaN, and -0 below +0. *)
Definition Math_min (x y : float) : float :=
  if is_nan x || is_nan y then nan
  else if x <? y then x
  else if y <? x then y
  else if get_sign x then x else y.

Section Scheduler.

Context {Sim : Type}.

Variable processEntityQueue : Sim -> Sim.
Variable fixedUpdates : float -> Sim -> Sim.
Variable variableUpdates : float -> Sim -> Sim.

Record World := mkWorld {
  lastFixedUpdateTime : float;
  fixedTimeStep : float;
  accumulator : float;
  sim : Sim
}.

(** [new World(fixedTimeStep)] *)
Definition newWorld (fts : float) (s : Sim) : World :=
  {| lastFixedUpdateTime := 0; fixedTimeStep := fts; accumulator := 0; sim := s |}.

(** The loop of lines 125-139; [None] when [fuel] iterations did not make
    the guard false. *)
Fixpoint fixedLoop (fuel : nat) (fts acc : float) (s : Sim) : option (float * Sim) :=
  match fuel with
  | O => if fts <=? acc then None else Some (acc, s)
  | S fuel' =>
      if fts <=? acc
      then fixedLoop fuel' fts (acc - fts) (fixedUpdates fts s)
      else Some (acc, s)
  end.

(** [World.update(currentTime)] *)
Definition update (fuel : nat) (w : World) (currentTime : float) : option World :=
  if lastFixedUpdateTime w =? 0 then
    Some {| lastFixedUpdateTime := currentTime;
            fixedTimeStep := fixedTimeStep w;
            accumulator := accumulator w;
            sim := sim w |}
  else
    let deltaTime := (currentTime - lastFixedUpdateTime w) / 1000 in
    let cappedDeltaTime := Math_min deltaTime 0.25 in
    let s1 := processEntityQueue (sim w) in
    match fixedLoop fuel (fixedTimeStep w) (accumulator w + cappedDeltaTime) s1 with
    | None => None
    | Some (acc, s2) =>
        Some {| lastFixedUpdateTime := currentTime;
                fixedTimeStep := fixedTimeStep w;
                accumulator := acc;
                sim := variableUpdates cappedDeltaTime s2 |}
    end.

Fixpoint runUpdates (fuel : nat) (w : World) (times : list float) : option World :=
  match times with
  | [] => Some w
  | t :: ts =>
      match update fuel w t with
      | None => None
      | Some w' => runUpdates fuel w' ts
      end
  end.

(** Readings of a clock that are finite numbers and never run backwards
    from [last]. *)
Fixpoint forward (last : float) (times : list float) : Prop :=
  match times with
  | [] => True
  | t :: ts => is_finite t = true /\ (last <=? t) = true /\ forward t ts
  end.

(** The same for the calls on a fresh world, whose first reading becomes
    the baseline. *)
Definition steady (times : list float) : Prop :=
  match times with
  | [] => True
  | t0 :: ts => is_finite t0 = true /\ forward t0 ts
  end.

(** What the loop has done when it returns: [n] ticks, one subtraction
    each, every one of them with the guard true, and the guard false at
    the end. *)
Lemma fixedLoop_returns (fts : float) :
  forall (fuel : nat) (acc : float) (s : Sim) (acc' : float) (s' : Sim),
    fixedLoop fuel fts acc s = Some (acc', s') ->
    exists n : nat,
      (n <= fuel)%nat
      /\ acc' = Nat.iter n (fun a => a - fts) acc
      /\ s' = Nat.iter n (fixedUpdates fts) s
      /\ (fts <=? acc') = false
      /\ forall k : nat, (k < n)%nat -> (fts <=? Nat.iter k (fun a => a - fts) acc) = true.
Proof.
  induction fuel as [|fuel IH]; intros acc s acc' s' H; cbn [fixedLoop] in H.
  - destruct (fts <=? acc) eqn:E; [discriminate|]. injection H as <- <-.
    exists O. split; [lia|]. split; [reflexivity|]. split; [reflexivity|].
    split; [exact E|]. intros k Hk. lia.
  - destruct (fts <=? acc) eqn:E.
    + destruct (IH _ _ _ _ H) as (n & Hn & Ha & Hs & Hx & Hg).
      exists (S n). split; [lia|].
      split; [rewrite Nat.iter_succ_r; exact Ha|].
      split; [rewrite Nat.iter_succ_r; exact Hs|].
      split; [exact Hx|].
      intros [|k] Hk; [exact E|]. rewrite Nat.iter_succ_r. apply Hg. lia.
    + injection H as <- <-.
      exists O. split; [lia|]. split; [reflexivity|]. split; [reflexivity|].
      split; [exact E|]. intros k Hk. lia.
Qed.

Lemma iter_sub_nonneg (fts : float) (n : nat) :
  is_finite fts = true ->
  forall acc : float,
    (0 <=? acc) = true ->
    (forall k : nat, (k < n)%nat -> (fts <=? Nat.iter k (fun a => a - fts) acc) = true) ->
    (0 <=? Nat.iter n (fun a => a - fts) acc) = true.
Proof.
  intros Hf. induction n as [|n IH]; intros acc H0 Hg; [exact H0|].
  rewrite Nat.iter_succ. apply sub_nonneg; [exact Hf|]. apply Hg. lia.
Qed.

Lemma Math_min_nonneg (x : float) : (0 <=? x) = true -> (0 <=? Math_min x 0.25) = true.
Proof.
  intros H. unfold Math_min.
  rewrite (nonneg_is_number x H). cbn [orb].
  change (is_nan 0.25) with false. cbv iota.
  destruct (x <? 0.25); [exact H|].
  destruct (0.25 <? x); [reflexivity|].
  destruct (get_sign x); [exact H|reflexivity].
Qed.

(** One update keeps the accumulator in range. *)
Lemma update_in_range (fuel : nat) (w w' : World) (t : float) :
  (0 <? fixedTimeStep w) = true -> is_finite (fixedTimeStep w) = true ->
  is_finite (lastFixedUpdateTime w) = true ->
  (0 <=? accumulator w) = true -> (accumulator w <? fixedTimeStep w) = true ->
  is_finite t = true -> (lastFixedUpdateTime w <=? t) = true ->
  update fuel w t = Some w' ->
  fixedTimeStep w' = fixedTimeStep w /\ lastFixedUpdateTime w' = t
  /\ (0 <=? accumulator w') = true /\ (accumulator w' <? fixedTimeStep w) = true.
Proof.
  intros Hp Hf Hl H0 H1 Ht Hle. unfold update.
  destruct (lastFixedUpdateTime w =? 0).
  { intros [= <-]. cbn. auto. }
  cbv zeta.
  set (capped := Math_min ((t - lastFixedUpdateTime w) / 1000) 0.25).
  assert (Hc : (0 <=? capped) = true).
  { apply Math_min_nonneg, div_1000_nonneg, sub_nonneg; assumption. }
  destruct (fixedLoop fuel _ _ _) as [[acc' s']|] eqn:E; [|discriminate].
  intros [= <-]. cbn.
  destruct (fixedLoop_returns _ _ _ _ _ _ E) as (n & _ & Ha & _ & Hx & Hg).
  assert (Hn : (0 <=? acc') = true).
  { rewrite Ha. apply iter_sub_nonneg; [exact Hf|apply add_nonneg; assumption|exact Hg]. }
  split; [reflexivity|]. split; [reflexivity|]. split; [exact Hn|].
  apply not_leb_ltb; assumption.
Qed.

Lemma runUpdates_in_range (fuel : nat) (fts : float) :
  (0 <? fts) = true -> is_finite fts = true ->
  forall (times : list float) (w w' : World),
    fixedTimeStep w = fts ->
    is_finite (lastFixedUpdateTime w) = true ->
    (0 <=? accumulator w) = true -> (accumulator w <? fts) = true ->
    forward (lastFixedUpdateTime w) times ->
    runUpdates fuel w times = Some w' ->
    (0 <=? accumulator w') = true /\ (accumulator w' <? fts) = true.
Proof.
  intros Hp Hf. induction times as [|t ts IH]; intros w w' Hs Hl H0 H1 Hfw Hrun.
  - injection Hrun as <-. auto.
  - destruct Hfw as (Ht & Hle & Hfw). cbn [runUpdates] in Hrun.
    destruct (update fuel w t) as [w1|] eqn:E; [|discriminate].
    subst fts.
    destruct (update_in_range fuel w w1 t Hp Hf Hl H0 H1 Ht Hle E) as (Hs1 & Hl1 & H01 & H11).
    apply (IH w1 w'); try assumption.
    + rewrite Hl1. exact Ht.
    + rewrite Hl1. exact Hfw.
Qed.

(** C1, as amended.  On a fresh world with a positive, finite
    fixedTimeStep and a clock whose readings are finite and never run
    backwards, the accumulator lies in [0, fixedTimeStep) after every
    update call that returns, in the double arithmetic of the source.  The
    other half of the sentence, the bound of the tick count by the sum of
    the deltas, is not kept: it fails by rounding. *)
Theorem accumulator_in_range (fuel : nat) (fts : float) (s : Sim) (times : list float)
    (w : World) :
  (0 <? fts) = true -> is_finite fts = true -> steady times ->
  runUpdates fuel (newWorld fts s) times = Some w ->
  (0 <=? accumulator w) = true /\ (accumulator w <? fts) = true.
Proof.
  intros Hp Hf Hst Hrun. destruct times as [|t0 ts].
  - injection Hrun as <-. split; [reflexivity|exact Hp].
  - destruct Hst as [Ht0 Hfw]. cbn [runUpdates] in Hrun.
    unfold update at 1 in Hrun. cbn [lastFixedUpdateTime newWorld] in Hrun.
    change (0 =? 0) with true in Hrun. cbv iota in Hrun.
    cbn [fixedTimeStep accumulator sim newWorld] in Hrun.
    eapply (runUpdates_in_range fuel fts Hp Hf ts); [| | | | |exact Hrun];
      first [reflexivity|assumption].
Qed.

(** A positive step can still hang the loop: when the step is so small
    against the accumulated time that subtracting it rounds back to the
    same double, the guard stays true for ever. *)
Lemma fixedLoop_absorbed (fts acc : float) :
  (fts <=? acc) = true -> acc - fts = acc ->
  forall (fuel : nat) (s : Sim), fixedLoop fuel fts acc s = None.
Proof.
  intros Hg Ha. induction fuel as [|fuel IH]; intros s; cbn [fixedLoop]; rewrite Hg.
  - reflexivity.
  - rewrite Ha. apply IH.
Qed.

(** An update that finds a baseline, an accumulated time not below the step
    and a step that the subtraction absorbs does not return, whatever bound
    is put on the iterations. *)
Theorem update_hangs_on_absorbed_step (fuel : nat) (w : World) (currentTime : float) :
  (lastFixedUpdateTime w =? 0) = false ->
  (fixedTimeStep w
   <=? accumulator w + Math_min ((currentTime - lastFixedUpdateTime w) / 1000) 0.25) = true ->
  accumulator w + Math_min ((currentTime - lastFixedUpdateTime w) / 1000) 0.25
    - fixedTimeStep w
  = accumulator w + Math_min ((currentTime - lastFixedUpdateTime w) / 1000) 0.25 ->
  update fuel w currentTime = None.
Proof.
  intros Hb Hg Ha. unfold update. rewrite Hb. cbv zeta.
  rewrite (fixedLoop_absorbed _ _ Hg Ha). reflexivity.
Qed.

End Scheduler.

Arguments World : clear implicits.

(** *** The scheduler with a log of what it ran *)

Inductive Event :=
| QueueDrained
| FixedTick (dt : float)
| VariableTick (dt : float).

(** Newest event first. *)
Definition logQueue (l : list Event) : list Event := QueueDrained :: l.
Definition logFixed (dt : float) (l : list Event) : list Event := FixedTick dt :: l.
Definition logVariable (dt : float) (l : list Event) : list Event := VariableTick dt :: l.

Definition updateLogged
  : nat -> World (list Event) -> float -> option (World (list Event)) :=
  update logQueue logFixed logVariable.

Definition runLogged
  : nat -> World (list Event) -> list float -> option (World (list Event)) :=
  runUpdates logQueue logFixed logVariable.

Fixpoint fixedTicks (l : list Event) : nat :=
  match l with
  | [] => O
  | FixedTick _ :: l' => S (fixedTicks l')
  | _ :: l' => fixedTicks l'
  end.

(** The per-frame deltas that were accumulated, newest first. *)
Fixpoint deltas (l : list Event) : list float :=
  match l with
  | [] => []
  | VariableTick dt :: l' => dt :: deltas l'
  | _ :: l' => deltas l'
  end.

(** [n] readings of a clock, [step] ms apart. *)
Fixpoint readings (n : nat) (t step : float) : list float :=
  match n with
  | O => []
  | S n' => t :: readings n' (t + step) step
  end.

(** The two halves of C1 as they are stated, for the calls [times] on a
    fresh world: D is the sum, in exact arithmetic, of the deltas the calls
    accumulated, and the tick count is bounded by it; the accumulator is in
    [0, fixedTimeStep). *)
Definition conserved (fts : float) (times : list float) : Prop :=
  forall (fuel : nat) (w : World (list Event)),
    runLogged fuel (newWorld fts []) times = Some w ->
    let n := inject_Z (Z.of_nat (fixedTicks (sim w))) in
    let D := Qsum (map toQ (deltas (sim w))) in
    (n * toQ fts <= D /\ D < (n + 1) * toQ fts)%Q.

(** The first half with D, the count and the products in doubles, as a
    program would compute them. *)
Definition conservedRounded (fts : float) (times : list float) : Prop :=
  forall (fuel : nat) (w : World (list Event)),
    runLogged fuel (newWorld fts []) times = Some w ->
    let n := Nat.iter (fixedTicks (sim w)) (fun k => k + 1) 0 in
    let D := fold_right PrimFloat.add 0 (deltas (sim w)) in
    (n * fts <=? D) = true /\ (D <? (n + 1) * fts) = true.

Definition inRange (w : World (list Event)) : bool :=
  (0 <=? accumulator w) && (accumulator w <? fixedTimeStep w).

Definition rangeKept (fts : float) (times : list float) : Prop :=
  forall (fuel : nat) (w : World (list Event)),
    runLogged fuel (newWorld fts []) times = Some w -> inRange w = true.

(** Twenty-five frames of 48 ms at 60 Hz: 1.2 s, seventy-two steps in exact
    arithmetic, seventy-one ticks in doubles. *)
Example seventy_one_ticks :
  exists w : World (list Event),
    runLogged 100 (newWorld (1 / 60) []) (readings 26 1000 48) = Some w
    /\ fixedTicks (sim w) = 71%nat
    /\ length (deltas (sim w)) = 25%nat
    /\ inRange w = true.
Proof. eexists. split; [vm_compute; reflexivity|]. repeat split. Qed.

(** C1, as stated, fails.  In the run above the accumulated deltas sum to
    no less than seventy-two steps although seventy-one ticks ran, whether
    the sum and the products are taken in exact arithmetic or in doubles.
    And the accumulator leaves [0, fixedTimeStep) when the clock runs
    backwards (it is negative), when the step is 0 (the range is empty),
    and when a reading is not finite (it is NaN). *)
Lemma conservation_fails :
  ~ conserved (1 / 60) (readings 26 1000 48)
  /\ ~ conservedRounded (1 / 60) (readings 26 1000 48)
  /\ ~ rangeKept (1 / 60) [1000; 900]
  /\ ~ rangeKept 0 [1000]
  /\ ~ rangeKept (1 / 60) [1000; infinity; infinity].
Proof.
  split.
  { intros H.
    assert (Hrun : exists w : World (list Event),
               runLogged 100 (newWorld (1 / 60) []) (readings 26 1000 48) = Some w
               /\ fixedTicks (sim w) = 71%nat
               /\ Qle_bool ((inject_Z (Z.of_nat 71) + 1) * toQ (1 / 60))
                    (Qsum (map toQ (deltas (sim w)))) = true).
    { eexists. split; [vm_compute; reflexivity|]. split; vm_compute; reflexivity. }
    destruct Hrun as (w & Hrun & Hn & Hd).
    specialize (H 100%nat w Hrun). cbv zeta in H. rewrite Hn in H.
    destruct H as [_ H]. apply Qle_bool_iff in Hd. apply Qlt_not_le in H. exact (H Hd). }
  split.
  { intros H. specialize (H 100%nat _ ltac:(vm_compute; reflexivity)).
    destruct H as [_ H]. vm_compute in H. discriminate. }
  repeat split; intros H.
  - specialize (H 100%nat _ ltac:(vm_compute; reflexivity)). vm_compute in H. discriminate.
  - specialize (H 100%nat _ ltac:(vm_compute; reflexivity)). vm_compute in H. discriminate.
  - specialize (H 100%nat _ ltac:(vm_compute; reflexivity)). vm_compute in H. discriminate.
Qed.

Lemma accumulator_in_range_witness :
  (0 <? 1 / 60) = true /\ is_finite (1 / 60) = true /\ steady (readings 26 1000 48)
  /\ exists w : World (list Event),
       runLogged 100 (newWorld (1 / 60) []) (readings 26 1000 48) = Some w
       /\ (0 <=? accumulator w) = true /\ (accumulator w <? 1 / 60) = true.
Proof.
  assert (Hp : (0 <? 1 / 60) = true) by reflexivity.
  assert (Hf : is_finite (1 / 60) = true) by reflexivity.
  assert (Hfw : steady (readings 26 1000 48)) by (vm_compute; repeat split).
  split; [exact Hp|]. split; [exact Hf|]. split; [exact Hfw|].
  eexists. split; [vm_compute; reflexivity|].
  apply (accumulator_in_range logQueue logFixed logVariable 100 (1 / 60) []
           (readings 26 1000 48) _ Hp Hf Hfw).
  vm_compute. reflexivity.
Defined.

(** The zero baseline in doubles: the same two calls, the same outcome. *)
Example zero_baseline_in_doubles :
  runLogged 15 (newWorld (1 / 60) []) [0; 100]
  = Some {| lastFixedUpdateTime := 100; fixedTimeStep := 1 / 60;
            accumulator := 0; sim := [] |}.
Proof. vm_compute. reflexivity. Qed.

Lemma iter_logFixed (n : nat) (dt : float) (l : list Event) :
  Nat.iter n (logFixed dt) l = repeat (FixedTick dt) n ++ l.
Proof.
  induction n as [|n IH]; [reflexivity|].
  rewrite Nat.iter_succ, IH. reflexivity.
Qed.

(** One frame past the baseline, in the order it runs: the queue is
    drained, then the fixed ticks, one for every time the guard
    [accumulator >= fixedTimeStep] held, each followed by one rounded
    subtraction, then exactly one variable tick with the capped delta, also
    when no fixed tick ran; the baseline becomes currentTime. *)
Theorem frame_order (fuel : nat) (w w' : World (list Event)) (currentTime : float) :
  (lastFixedUpdateTime w =? 0) = false ->
  updateLogged fuel w currentTime = Some w' ->
  let capped := Math_min ((currentTime - lastFixedUpdateTime w) / 1000) 0.25 in
  let drain (a : float) := a - fixedTimeStep w in
  exists n : nat,
    sim w' = VariableTick capped :: repeat (FixedTick (fixedTimeStep w)) n
               ++ QueueDrained :: sim w
    /\ lastFixedUpdateTime w' = currentTime
    /\ fixedTimeStep w' = fixedTimeStep w
    /\ accumulator w' = Nat.iter n drain (accumulator w + capped)
    /\ (fixedTimeStep w <=? accumulator w') = false
    /\ forall k : nat,
         (k < n)%nat ->
         (fixedTimeStep w <=? Nat.iter k drain (accumulator w + capped)) = true.
Proof.
  intros Hb Hrun capped drain. unfold updateLogged, update in Hrun.
  rewrite Hb in Hrun. cbv zeta in Hrun. fold capped in Hrun.
  destruct (fixedLoop logFixed fuel _ _ _) as [[acc' s']|] eqn:E; [|discriminate].
  injection Hrun as <-. cbn [sim lastFixedUpdateTime fixedTimeStep accumulator].
  destruct (fixedLoop_returns logFixed _ _ _ _ _ _ E) as (n & _ & Ha & Hs & Hx & Hg).
  exists n. unfold logVariable. rewrite Hs, iter_logFixed.
  split; [reflexivity|]. split; [reflexivity|]. split; [reflexivity|].
  split; [exact Ha|]. split; [exact Hx|exact Hg].
Qed.

(** A frame that arrives a full second late: the delta is capped at 0.25 s
    and fifteen fixed ticks run before the variable one. *)
Definition lateFrame : World (list Event) :=
  {| lastFixedUpdateTime := 1000; fixedTimeStep := 1 / 60; accumulator := 0; sim := [] |}.

Lemma frame_order_witness :
  (lastFixedUpdateTime lateFrame =? 0) = false
  /\ exists w' : World (list Event),
       updateLogged 100 lateFrame 2000 = Some w'
       /\ Math_min ((2000 - lastFixedUpdateTime lateFrame) / 1000) 0.25 = 0.25
       /\ fixedTicks (sim w') = 15%nat
       /\ exists n : nat,
            sim w' = VariableTick (Math_min ((2000 - lastFixedUpdateTime lateFrame) / 1000) 0.25)
                       :: repeat (FixedTick (fixedTimeStep lateFrame)) n
                       ++ QueueDrained :: sim lateFrame
            /\ lastFixedUpdateTime w' = 2000.
Proof.
  assert (Hb : (lastFixedUpdateTime lateFrame =? 0) = false) by reflexivity.
  split; [exact Hb|].
  eexists. split; [vm_compute; reflexivity|].
  split; [vm_compute; reflexivity|]. split; [vm_compute; reflexivity|].
  match goal with |- context [VariableTick _ :: _] => idtac end.
  destruct (frame_order 100 lateFrame _ 2000 Hb ltac:(vm_compute; reflexivity))
    as (n & Hs & Hl & _).
  exists n. split; [exact Hs|exact Hl].
Defined.

(** [new World(1e-20)]: a quarter of a second never gets smaller by
    subtracting 1e-20 from it. *)
Definition tinyStep : World (list Event) :=
  {| lastFixedUpdateTime := 1000; fixedTimeStep := 1 / 1e20; accumulator := 0; sim := [] |}.

Lemma update_hangs_on_absorbed_step_witness :
  (0 <? fixedTimeStep tinyStep) = true
  /\ updateLogged 1000 tinyStep 1250 = None.
Proof.
  split; [reflexivity|].
  apply (update_hangs_on_absorbed_step logQueue logFixed logVariable 1000 tinyStep 1250);
    reflexivity.
Defined.

End Double.

End World.

(** ** core/Entity.ts and core/Component.ts: objects with identity

    An entity holds references to its components and a component holds a
    reference back to its entity, so both are addresses into a heap.
    [addComponent] and [removeComponent] only touch these references; what a
    component stores besides them plays no part, so a component is here its
    back-reference and its type tag. *)

Module Objects.

Definition EntityRef := nat.
Definition ComponentRef := nat.

(** [abstract class Component]: the back-reference and the type tag. *)
Record Component := mkComponent {
  entity : option EntityRef;
  type : string
}.

Record Entity := mkEntity {
  id : string;
  components : gmap string ComponentRef;
  tags : gset string
}.

Record Heap := mkHeap {
  entityObjs : gmap EntityRef Entity;
  componentObjs : gmap ComponentRef Component
}.

(** A program only holds references to allocated objects; on a reference
    that is not allocated the operations below leave the heap as it is. *)

(** [addComponent(component)]:
    [this.components.set(component.type, component); component.entity = this] *)
Definition addComponent (h : Heap) (e : EntityRef) (c : ComponentRef) : Heap :=
  match entityObjs h !! e, componentObjs h !! c with
  | Some E, Some C =>
      {| entityObjs :=
           <[e := {| id := id E;
                     components := <[type C := c]> (components E);
                     tags := tags E |}]> (entityObjs h);
         componentObjs :=
           <[c := {| entity := Some e; type := type C |}]> (componentObjs h) |}
  | _, _ => h
  end.

(** [removeComponent(componentType)]: the component found under the tag gets
    [entity = null] before the tag is deleted. *)
Definition removeComponent (h : Heap) (e : EntityRef) (componentType : string) : Heap :=
  match entityObjs h !! e with
  | Some E =>
      match components E !! componentType with
      | Some c =>
          {| entityObjs :=
               <[e := {| id := id E;
                         components := delete componentType (components E);
                         tags := tags E |}]> (entityObjs h);
             componentObjs :=
               alter (fun C => {| entity := None; type := type C |}) c (componentObjs h) |}
      | None => h
      end
  | None => h
  end.

(** [getComponent(componentType)] and [hasComponent(componentType)] *)
Definition getComponent (h : Heap) (e : EntityRef) (componentType : string)
  : option ComponentRef :=
  E ← entityObjs h !! e; components E !! componentType.

Definition hasComponent (h : Heap) (e : EntityRef) (componentType : string) : bool :=
  bool_decide (is_Some (getComponent h e componentType)).

(** The back-reference of a component object. *)
Definition entityOf (h : Heap) (c : ComponentRef) : option EntityRef :=
  C ← componentObjs h !! c; entity C.

Lemma addComponent_allocated (h : Heap) (e : EntityRef) (c : ComponentRef)
    (E : Entity) (C : Component) :
  entityObjs h !! e = Some E ->
  componentObjs h !! c = Some C ->
  addComponent h e c
  = {| entityObjs :=
         <[e := {| id := id E;
                   components := <[type C := c]> (components E);
                   tags := tags E |}]> (entityObjs h);
       componentObjs :=
         <[c := {| entity := Some e; type := type C |}]> (componentObjs h) |}.
Proof. intros HE HC. unfold addComponent. rewrite HE, HC. reflexivity. Qed.

(** Adding two distinct components with one type tag: the second takes the
    tag, and the first still points at the entity. *)
Lemma addComponent_twice (h : Heap) (e : EntityRef) (c1 c2 : ComponentRef)
    (E : Entity) (C1 C2 : Component) :
  entityObjs h !! e = Some E ->
  componentObjs h !! c1 = Some C1 ->
  componentObjs h !! c2 = Some C2 ->
  c1 <> c2 ->
  type C1 = type C2 ->
  let h' := addComponent (addComponent h e c1) e c2 in
  getComponent h' e (type C1) = Some c2 /\ entityOf h' c1 = Some e.
Proof.
  intros HE H1 H2 Hne Hty h'. subst h'.
  rewrite (addComponent_allocated h e c1 E C1 HE H1).
  erewrite addComponent_allocated; cycle 1.
  { cbn. apply lookup_insert_eq. }
  { cbn. rewrite lookup_insert_ne by exact Hne. exact H2. }
  unfold getComponent, entityOf. cbn.
  rewrite lookup_insert_eq. cbn. rewrite Hty, lookup_insert_eq.
  split; [reflexivity|].
  rewrite lookup_insert_ne by (intros ->; apply Hne; reflexivity).
  rewrite lookup_insert_eq. reflexivity.
Qed.

(** [removeComponent] is the path that does detach. *)
Lemma removeComponent_detaches (h : Heap) (e : EntityRef) (c : ComponentRef)
    (E : Entity) (C : Component) (ty : string) :
  entityObjs h !! e = Some E ->
  components E !! ty = Some c ->
  componentObjs h !! c = Some C ->
  let h' := removeComponent h e ty in
  getComponent h' e ty = None /\ entityOf h' c = None.
Proof.
  intros HE Hc HC h'. subst h'.
  unfold removeComponent, getComponent, entityOf. rewrite HE, Hc. cbn.
  rewrite lookup_insert_eq. cbn. rewrite lookup_delete_eq.
  rewrite lookup_alter_eq, HC. done.
Qed.

(** One entity and two vehicle components, none attached yet. *)
Definition car : EntityRef := 0%nat.
Definition vehicle1 : ComponentRef := 1%nat.
Definition vehicle2 : ComponentRef := 2%nat.

Definition heap0 : Heap :=
  {| entityObjs := {[ car := {| id := "car"; components := ∅; tags := ∅ |} ]};
     componentObjs :=
       {[ vehicle1 := {| entity := None; type := "vehicle" |};
          vehicle2 := {| entity := None; type := "vehicle" |} ]} |}.

(** C7 at the failing input: after [car.addComponent(vehicle1)] and
    [car.addComponent(vehicle2)] the tag maps to [vehicle2] alone, but the
    replaced [vehicle1] still has [entity === car]. *)
Theorem addComponent_replace_keeps_backref :
  let h := addComponent (addComponent heap0 car vehicle1) car vehicle2 in
  getComponent h car "vehicle" = Some vehicle2
  /\ entityOf h vehicle2 = Some car
  /\ entityOf h vehicle1 = Some car.
Proof. vm_compute. done. Qed.

(** Removing the tag first does detach the old component. *)
Example removeComponent_then_add_detaches :
  let h := addComponent
             (removeComponent (addComponent heap0 car vehicle1) car "vehicle")
             car vehicle2 in
  getComponent h car "vehicle" = Some vehicle2
  /\ entityOf h vehicle1 = None.
Proof. vm_compute. done. Qed.

(** *** Further properties of [addComponent] and [removeComponent] *)

(** [addComponent] never takes a component away from an entity that holds
    it: added to a second entity, the component is found under its tag in
    both, while its back-reference names the second only. *)
Theorem addComponent_shared (h : Heap) (e1 e2 : EntityRef) (c : ComponentRef)
    (E1 E2 : Entity) (C : Component) :
  entityObjs h !! e1 = Some E1 ->
  entityObjs h !! e2 = Some E2 ->
  componentObjs h !! c = Some C ->
  e1 <> e2 ->
  let h' := addComponent (addComponent h e1 c) e2 c in
  getComponent h' e1 (type C) = Some c
  /\ getComponent h' e2 (type C) = Some c
  /\ entityOf h' c = Some e2.
Proof.
  intros H1 H2 HC Hne h'. subst h'.
  rewrite (addComponent_allocated h e1 c E1 C H1 HC).
  erewrite addComponent_allocated; cycle 1.
  { cbn. rewrite lookup_insert_ne by exact Hne. exact H2. }
  { cbn. apply lookup_insert_eq. }
  unfold getComponent, entityOf. cbn.
  rewrite lookup_insert_ne by (intros Heq; apply Hne; symmetry; exact Heq).
  rewrite !lookup_insert_eq. cbn. rewrite !lookup_insert_eq. auto.
Qed.

Definition bike : EntityRef := 3%nat.

Definition heap1 : Heap :=
  {| entityObjs := {[ car := {| id := "car"; components := ∅; tags := ∅ |};
                      bike := {| id := "bike"; components := ∅; tags := ∅ |} ]};
     componentObjs := {[ vehicle1 := {| entity := None; type := "vehicle" |} ]} |}.

Lemma addComponent_shared_witness :
  car <> bike
  /\ getComponent (addComponent (addComponent heap1 car vehicle1) bike vehicle1) car "vehicle"
     = Some vehicle1.
Proof.
  assert (Hne : car <> bike) by discriminate.
  split; [exact Hne|].
  apply (addComponent_shared heap1 car bike vehicle1
           {| id := "car"; components := ∅; tags := ∅ |}
           {| id := "bike"; components := ∅; tags := ∅ |}
           {| entity := None; type := "vehicle" |}); [reflexivity..|exact Hne].
Defined.

(** [addComponent] changes one tag of one entity and one component: every
    other tag, entity and component object is as before. *)
Theorem addComponent_frame (h : Heap) (e : EntityRef) (c : ComponentRef)
    (E : Entity) (C : Component) :
  entityObjs h !! e = Some E ->
  componentObjs h !! c = Some C ->
  let h' := addComponent h e c in
  (forall ty, ty <> type C -> getComponent h' e ty = getComponent h e ty)
  /\ (forall e', e' <> e -> entityObjs h' !! e' = entityObjs h !! e')
  /\ (forall c', c' <> c -> componentObjs h' !! c' = componentObjs h !! c')
  /\ (C' ← componentObjs h' !! c; Some (type C')) = Some (type C).
Proof.
  intros HE HC h'. subst h'. rewrite (addComponent_allocated h e c E C HE HC).
  unfold getComponent. cbn. repeat split.
  - intros ty Hty. rewrite lookup_insert_eq, HE. cbn.
    apply lookup_insert_ne. congruence.
  - intros e' He'. apply lookup_insert_ne. congruence.
  - intros c' Hc'. apply lookup_insert_ne. congruence.
  - rewrite lookup_insert_eq. reflexivity.
Qed.

Lemma addComponent_frame_witness :
  entityObjs (addComponent heap1 car vehicle1) !! bike = entityObjs heap1 !! bike.
Proof.
  apply (addComponent_frame heap1 car vehicle1
           {| id := "car"; components := ∅; tags := ∅ |}
           {| entity := None; type := "vehicle" |}); [reflexivity|reflexivity|discriminate].
Defined.

(** Round trip: adding a detached component under a free tag and removing
    the tag again gives back the heap one started from. *)
Theorem addComponent_removeComponent (h : Heap) (e : EntityRef) (c : ComponentRef)
    (E : Entity) (C : Component) :
  entityObjs h !! e = Some E ->
  componentObjs h !! c = Some C ->
  components E !! type C = None ->
  entity C = None ->
  removeComponent (addComponent h e c) e (type C) = h.
Proof.
  intros HE HC Hfree Hdet.
  rewrite (addComponent_allocated h e c E C HE HC).
  unfold removeComponent. cbn. rewrite lookup_insert_eq. cbn.
  rewrite lookup_insert_eq.
  destruct h as [ents comps]. cbn in *. f_equal.
  - rewrite insert_insert_eq. rewrite delete_insert_id by exact Hfree.
    apply insert_id. rewrite HE. destruct E; reflexivity.
  - rewrite alter_insert_eq. cbn. apply insert_id. rewrite HC.
    destruct C. cbn in Hdet. subst. reflexivity.
Qed.

Lemma addComponent_removeComponent_witness :
  removeComponent (addComponent heap1 car vehicle1) car "vehicle" = heap1.
Proof.
  apply (addComponent_removeComponent heap1 car vehicle1
           {| id := "car"; components := ∅; tags := ∅ |}
           {| entity := None; type := "vehicle" |}); reflexivity.
Defined.

End Objects.

(** ** Components by value

    From here on a component is reached only through the entity that holds
    it, so an entity is the tree of its components.  [Vector3] and
    [Quaternion] are the three.js classes, reduced to their coordinates. *)

Record Vector3 := mkVector3 { x : Q; y : Q; z : Q }.
Record Quaternion := mkQuaternion { qx : Q; qy : Q; qz : Q; qw : Q }.

(** [vector.set(x, y, z)] and [quaternion.set(x, y, z, w)] *)
Definition Vector3_set (_ : Vector3) (x' y' z' : Q) : Vector3 := mkVector3 x' y' z'.
Definition Quaternion_set (_ : Quaternion) (x' y' z' w' : Q) : Quaternion :=
  mkQuaternion x' y' z' w'.

(** *** components/TransformComponent.ts

    The Euler angles and the two matrices are caches recomputed from
    position, quaternion and scale ([updateMatrix], [updateWorldMatrix]);
    they are not part of the state modelled. *)
Module TransformComponent.

Record t := mk {
  position : Vector3;
  quaternion : Quaternion;
  scale : Vector3
}.

(** [new TransformComponent()] *)
Definition new : t :=
  {| position := mkVector3 0 0 0;
     quaternion := mkQuaternion 0 0 0 1;
     scale := mkVector3 1 1 1 |}.

Definition setPosition (self : t) (x' y' z' : Q) : t :=
  {| position := Vector3_set (position self) x' y' z';
     quaternion := quaternion self; scale := scale self |}.

End TransformComponent.

(** *** components/VehicleComponent.ts *)
Module VehicleComponent.

Record t := mk {
  mass : Q;
  maxEngineForce : Q;
  maxBrakingForce : Q;
  maxSteeringAngle : Q;
  velocity : Vector3;
  acceleration : Vector3;
  steeringAngle : Q;
  engineForce : Q;
  brakingForce : Q;
  wheelBase : Q;
  trackWidth : Q;
  drag : Q;
  rollingResistance : Q;
  throttleInput : Q;
  brakeInput : Q;
  steeringInput : Q
}.

(** [new VehicleComponent()] *)
Definition new : t :=
  {| mass := 1500; maxEngineForce := 2000; maxBrakingForce := 100;
     maxSteeringAngle := 30;
     velocity := mkVector3 0 0 0; acceleration := mkVector3 0 0 0;
     steeringAngle := 0; engineForce := 0; brakingForce := 0;
     wheelBase := 2.5; trackWidth := 1.8; drag := 1.5; rollingResistance := 0.8;
     throttleInput := 0; brakeInput := 0; steeringInput := 0 |}.

(** [setInputs(throttle, brake, steering)]:
    [Math.max(-1, Math.min(1, throttle))] and so on. *)
Definition setInputs (self : t) (throttle brake steering : Q) : t :=
  {| mass := mass self; maxEngineForce := maxEngineForce self;
     maxBrakingForce := maxBrakingForce self;
     maxSteeringAngle := maxSteeringAngle self;
     velocity := velocity self; acceleration := acceleration self;
     steeringAngle := steeringAngle self; engineForce := engineForce self;
     brakingForce := brakingForce self;
     wheelBase := wheelBase self; trackWidth := trackWidth self;
     drag := drag self; rollingResistance := rollingResistance self;
     throttleInput := Qmax (-1) (Qmin 1 throttle);
     brakeInput := Qmax 0 (Qmin 1 brake);
     steeringInput := Qmax (-1) (Qmin 1 steering) |}.

(** "Clamped to [lo, hi]", in the words of the spec:
    a value below the range becomes [lo], one above becomes [hi], one inside
    is kept. *)
Definition clamped (lo hi v : Q) : Q :=
  if Qle_bool lo v then (if Qle_bool v hi then v else hi) else lo.

Lemma max_min_clamped (lo hi v : Q) : lo <= hi -> Qmax lo (Qmin hi v) == clamped lo hi v.
Proof.
  intros Hlh. unfold clamped.
  destruct (Qle_bool lo v) eqn:E1.
  - apply Qle_bool_iff in E1. destruct (Qle_bool v hi) eqn:E2.
    + apply Qle_bool_iff in E2. rewrite (Q.min_r hi v E2). apply Q.max_r. exact E1.
    + apply Qle_bool_false_lt in E2. rewrite (Q.min_l hi v) by lra. apply Q.max_r. exact Hlh.
  - apply Qle_bool_false_lt in E1. rewrite (Q.min_r hi v) by lra. apply Q.max_l. lra.
Qed.

Lemma clamped_range (lo hi v : Q) : lo <= hi -> lo <= clamped lo hi v /\ clamped lo hi v <= hi.
Proof.
  intros Hlh. unfold clamped.
  destruct (Qle_bool lo v) eqn:E1; [|lra].
  apply Qle_bool_iff in E1. destruct (Qle_bool v hi) eqn:E2; [|lra].
  apply Qle_bool_iff in E2. lra.
Qed.

(** C5.  Whatever the three arguments are, [setInputs] stores the throttle
    clamped to [-1, 1], the brake clamped to [0, 1] and the steering clamped
    to [-1, 1]; the stored values lie in these ranges. *)
Theorem setInputs_clamps (self : t) (throttle brake steering : Q) :
  let self' := setInputs self throttle brake steering in
  throttleInput self' == clamped (-1) 1 throttle
  /\ brakeInput self' == clamped 0 1 brake
  /\ steeringInput self' == clamped (-1) 1 steering
  /\ (-1 <= throttleInput self' /\ throttleInput self' <= 1)
  /\ (0 <= brakeInput self' /\ brakeInput self' <= 1)
  /\ (-1 <= steeringInput self' /\ steeringInput self' <= 1).
Proof.
  cbn.
  assert (H1 : -1 <= 1) by lra. assert (H2 : 0 <= 1) by lra.
  pose proof (max_min_clamped (-1) 1 throttle H1) as Ht.
  pose proof (max_min_clamped 0 1 brake H2) as Hb.
  pose proof (max_min_clamped (-1) 1 steering H1) as Hs.
  pose proof (clamped_range (-1) 1 throttle H1).
  pose proof (clamped_range 0 1 brake H2).
  pose proof (clamped_range (-1) 1 steering H1).
  repeat split; try assumption; lra.
Qed.

Example setInputs_out_of_range :
  let v := setInputs new 3 (-2) (-7 # 2) in
  throttleInput v = 1 /\ brakeInput v = 0 /\ steeringInput v = -1.
Proof. vm_compute. auto. Qed.

(** *** The control updates of a fixed tick *)

Definition set_engineForce (v : Q) (self : t) : t :=
  mk (mass self) (maxEngineForce self) (maxBrakingForce self) (maxSteeringAngle self)
    (velocity self) (acceleration self) (steeringAngle self) v (brakingForce self)
    (wheelBase self) (trackWidth self) (drag self) (rollingResistance self)
    (throttleInput self) (brakeInput self) (steeringInput self).

Definition set_brakingForce (v : Q) (self : t) : t :=
  mk (mass self) (maxEngineForce self) (maxBrakingForce self) (maxSteeringAngle self)
    (velocity self) (acceleration self) (steeringAngle self) (engineForce self) v
    (wheelBase self) (trackWidth self) (drag self) (rollingResistance self)
    (throttleInput self) (brakeInput self) (steeringInput self).

Definition set_acceleration (v : Vector3) (self : t) : t :=
  mk (mass self) (maxEngineForce self) (maxBrakingForce self) (maxSteeringAngle self)
    (velocity self) v (steeringAngle self) (engineForce self) (brakingForce self)
    (wheelBase self) (trackWidth self) (drag self) (rollingResistance self)
    (throttleInput self) (brakeInput self) (steeringInput self).

Definition set_steeringAngle (v : Q) (self : t) : t :=
  mk (mass self) (maxEngineForce self) (maxBrakingForce self) (maxSteeringAngle self)
    (velocity self) (acceleration self) v (engineForce self) (brakingForce self)
    (wheelBase self) (trackWidth self) (drag self) (rollingResistance self)
    (throttleInput self) (brakeInput self) (steeringInput self).

(** [applyEngineForce()] and [applyBrakingForce()] *)
Definition applyEngineForce (self : t) : t :=
  set_engineForce (maxEngineForce self * throttleInput self) self.

Definition applyBrakingForce (self : t) : t :=
  set_brakingForce (maxBrakingForce self * brakeInput self) self.

Section Steering.

(** three.js [Vector3.length], the Euclidean norm. *)
Variable length : Vector3 -> Q.

(** [updateSteering()]; [transform] is what
    [this.entity?.getComponent(ComponentTypes.TRANSFORM)] yields. *)
Definition updateSteering (self : t) (transform : option TransformComponent.t) : t :=
  match transform with
  | None => self
  | Some _ =>
      let speed := length (velocity self) in
      let speedFactor := Qmax 0 (Qmin 1 (1 - speed / 50)) in
      let maxAngle := maxSteeringAngle self * (0.5 + 0.5 * speedFactor) in
      set_steeringAngle (steeringInput self * maxAngle) self
  end.

(** The head of [fixedUpdate] (lines 124-133): the return when the entity
    has no transform, the reset of the acceleration, and the three control
    updates in their order. *)
Definition updateControls (self : t) (transform : option TransformComponent.t) : t :=
  match transform with
  | None => self
  | Some _ =>
      let self := set_acceleration (Vector3_set (acceleration self) 0 0 0) self in
      updateSteering (applyBrakingForce (applyEngineForce self)) transform
  end.

(** Whatever inputs were handed to [setInputs], the control updates of the
    next fixed tick keep the engine force within +-maxEngineForce, the
    braking force within [0, maxBrakingForce] and the steering angle within
    +-maxSteeringAngle, at any speed. *)
Theorem controls_within_limits (self : t) (throttle brake steering : Q)
    (transform : TransformComponent.t) :
  0 <= maxEngineForce self -> 0 <= maxBrakingForce self -> 0 <= maxSteeringAngle self ->
  let v := updateControls (setInputs self throttle brake steering) (Some transform) in
  (- maxEngineForce self <= engineForce v /\ engineForce v <= maxEngineForce self)
  /\ (0 <= brakingForce v /\ brakingForce v <= maxBrakingForce self)
  /\ (- maxSteeringAngle self <= steeringAngle v /\ steeringAngle v <= maxSteeringAngle self).
Proof.
  intros He Hb Hs v. subst v.
  assert (H1 : -1 <= 1) by lra. assert (H2 : 0 <= 1) by lra.
  pose proof (max_min_clamped (-1) 1 throttle H1) as Et.
  pose proof (max_min_clamped 0 1 brake H2) as Eb.
  pose proof (max_min_clamped (-1) 1 steering H1) as Es.
  pose proof (clamped_range (-1) 1 throttle H1) as [Rt1 Rt2].
  pose proof (clamped_range 0 1 brake H2) as [Rb1 Rb2].
  pose proof (clamped_range (-1) 1 steering H1) as [Rs1 Rs2].
  cbn.
  set (sf := Qmax 0 (Qmin 1 (1 - length (velocity self) / 50))).
  assert (Hsf : 0 <= sf /\ sf <= 1).
  { subst sf. split; [apply Q.le_max_l|].
    apply Q.max_lub; [lra|apply Q.le_min_l]. }
  destruct Hsf as [Hsf0 Hsf1].
  set (t1 := Qmax (-1) (Qmin 1 throttle)) in *.
  set (b1 := Qmax 0 (Qmin 1 brake)) in *.
  set (s1 := Qmax (-1) (Qmin 1 steering)) in *.
  rewrite <- Et in Rt1, Rt2. rewrite <- Eb in Rb1, Rb2. rewrite <- Es in Rs1, Rs2.
  clearbody sf t1 b1 s1.
  split; [split; nra|]. split; [split; nra|].
  set (maxAngle := maxSteeringAngle self * (0.5 + 0.5 * sf)).
  assert (Ha : 0 <= maxAngle /\ maxAngle <= maxSteeringAngle self)
    by (subst maxAngle; split; nra).
  destruct Ha as [Ha0 Ha1]. clearbody maxAngle. split; nra.
Qed.

End Steering.

Lemma controls_within_limits_witness :
  0 <= maxEngineForce new /\ 0 <= maxBrakingForce new /\ 0 <= maxSteeringAngle new
  /\ engineForce (updateControls (fun v => x v) (setInputs new 9 9 (-9))
                    (Some TransformComponent.new))
     <= maxEngineForce new.
Proof.
  assert (He : 0 <= maxEngineForce new) by (vm_compute; discriminate).
  assert (Hb : 0 <= maxBrakingForce new) by (vm_compute; discriminate).
  assert (Hs : 0 <= maxSteeringAngle new) by (vm_compute; discriminate).
  split; [exact He|]. split; [exact Hb|]. split; [exact Hs|].
  apply (controls_within_limits (fun v => x v) new 9 9 (-9) TransformComponent.new He Hb Hs).
Defined.

End VehicleComponent.

(** *** components/CheckpointComponent.ts *)
Module CheckpointComponent.

Record t := mk {
  index : Z;
  isStartFinish : bool;
  radius : Q;
  passedTimestamps : gmap string Q
}.

(** [new CheckpointComponent(index, isStartFinish)] *)
Definition new (index : Z) (isStartFinish : bool) : t :=
  {| index := index; isStartFinish := isStartFinish; radius := 20;
     passedTimestamps := ∅ |}.

Definition withPassed (self : t) (m : gmap string Q) : t :=
  {| index := index self; isStartFinish := isStartFinish self;
     radius := radius self; passedTimestamps := m |}.

Section Detection.

(** three.js [Vector3.distanceTo], the Euclidean distance. *)
Variable distanceTo : Vector3 -> Vector3 -> Q.

(** [checkVehiclePassing(vehicleEntityId, vehiclePosition)].
    [transform] is what [this.entity?.getComponent(ComponentTypes.TRANSFORM)]
    yields and [now] the value of [performance.now()]; the result is the
    returned boolean and the component afterwards. *)
Definition checkVehiclePassing (now : Q) (self : t)
    (transform : option TransformComponent.t)
    (vehicleEntityId : string) (vehiclePosition : Vector3) : bool * t :=
  match transform with
  | None => (false, self)
  | Some transform =>
      let distance := distanceTo (TransformComponent.position transform) vehiclePosition in
      if Qle_bool distance (radius self) then
        match passedTimestamps self !! vehicleEntityId with
        | None => (true, withPassed self (<[vehicleEntityId := now]> (passedTimestamps self)))
        | Some _ => (false, self)
        end
      else if negb (Qle_bool distance (radius self * 1.5)) then
        (false, withPassed self (delete vehicleEntityId (passedTimestamps self)))
      else (false, self)
  end.

(** [getPassingTimestamp], [resetForVehicle], [resetAll] *)
Definition getPassingTimestamp (self : t) (vehicleEntityId : string) : option Q :=
  match passedTimestamps self !! vehicleEntityId with
  | Some ts => if Qeq_bool ts 0 then None else Some ts
  | None => None
  end.

Definition resetForVehicle (self : t) (vehicleEntityId : string) : t :=
  withPassed self (delete vehicleEntityId (passedTimestamps self)).

Definition resetAll (self : t) : t := withPassed self ∅.

(** One call made on the checkpoint during a race. *)
Record Call := mkCall {
  callTime : Q;
  callTransform : option TransformComponent.t;
  callVehicle : string;
  callPosition : Vector3
}.

Definition check (self : t) (c : Call) : bool * t :=
  checkVehiclePassing (callTime c) self (callTransform c) (callVehicle c) (callPosition c).

(** The distance seen by a call, when the checkpoint has a transform. *)
Definition callDistance (c : Call) : option Q :=
  match callTransform c with
  | Some tr => Some (distanceTo (TransformComponent.position tr) (callPosition c))
  | None => None
  end.

(** The call finds the vehicle farther than 1.5 x radius. *)
Definition exceeds (self : t) (c : Call) : Prop :=
  match callDistance c with
  | Some d => radius self * 1.5 < d
  | None => False
  end.

(** A sequence of calls: the results, oldest first, and the final component. *)
Fixpoint checks (self : t) (cs : list Call) : list bool * t :=
  match cs with
  | [] => ([], self)
  | c :: cs' =>
      let '(b, self1) := check self c in
      let '(bs, self2) := checks self1 cs' in
      (b :: bs, self2)
  end.

(** The calls of [cs] made for vehicle [v] that reported a pass. *)
Fixpoint passesOf (v : string) (cs : list Call) (bs : list bool) : list Call :=
  match cs, bs with
  | c :: cs', b :: bs' =>
      if b && bool_decide (callVehicle c = v)
      then c :: passesOf v cs' bs' else passesOf v cs' bs'
  | _, _ => []
  end.

Lemma check_radius (self : t) (c : Call) : radius (check self c).2 = radius self.
Proof.
  unfold check, checkVehiclePassing. destruct (callTransform c); [|reflexivity].
  repeat case_match; reflexivity.
Qed.

(** A latched vehicle stays latched, and reports nothing, until a call finds
    it beyond 1.5 x radius. *)
Lemma latched_until_exceeds (v : string) (cs : list Call) :
  forall self : t,
    is_Some (passedTimestamps self !! v) ->
    Forall (fun c => callVehicle c = v -> ~ exceeds self c) cs ->
    passesOf v cs (checks self cs).1 = []
    /\ is_Some (passedTimestamps (checks self cs).2 !! v).
Proof.
  induction cs as [|c cs IH]; intros self Hl Hall; [split; [reflexivity|exact Hl]|].
  apply Forall_cons in Hall as [Hc Hall].
  cbn [checks].
  destruct (check self c) as [b self1] eqn:Hchk.
  assert (Hstep : (b && bool_decide (callVehicle c = v) = false)
                  /\ is_Some (passedTimestamps self1 !! v) /\ radius self1 = radius self).
  { pose proof (check_radius self c) as Hr. rewrite Hchk in Hr. cbn in Hr.
    revert Hchk. unfold check, checkVehiclePassing, exceeds, callDistance in *.
    destruct (callTransform c) as [tr|].
    2:{ intros [= <- <-]. auto. }
    destruct (Qle_bool _ (radius self)) eqn:E1.
    - destruct (passedTimestamps self !! callVehicle c) eqn:El.
      + intros [= <- <-]. auto.
      + intros [= <- <-]. cbn. split; [|split; [|reflexivity]].
        * case_bool_decide as Hv; [|reflexivity]. subst v.
          rewrite El in Hl. destruct Hl as [? [=]].
        * destruct (decide (callVehicle c = v)) as [->|Hne];
            [rewrite lookup_insert_eq; eauto | rewrite lookup_insert_ne by exact Hne; exact Hl].
    - destruct (Qle_bool _ (radius self * 1.5)) eqn:E2; cbn.
      + intros [= <- <-]. auto.
      + intros [= <- <-]. cbn. split; [reflexivity|]. split; [|reflexivity].
        apply Qle_bool_false_lt in E2.
        destruct (decide (callVehicle c = v)) as [Heq|Hne];
          [exfalso; exact (Hc Heq E2) | rewrite lookup_delete_ne by exact Hne; exact Hl]. }
  destruct Hstep as (Hb & Hl1 & Hr1).
  destruct (checks self1 cs) as [bs self2] eqn:Hrest.
  cbn [fst snd passesOf]. rewrite Hb.
  specialize (IH self1 Hl1). rewrite Hrest in IH. cbn [fst snd] in IH. apply IH.
  eapply Forall_impl; [exact Hall|]. intros c' Hc' Hv. unfold exceeds in *.
  rewrite Hr1. exact (Hc' Hv).
Qed.

(** C3.  For a checkpoint whose entity has a transform, with d the distance
    to the vehicle: the call returns true exactly when d <= radius and the
    vehicle has no latch entry, and then latches it with the current time;
    when d > 1.5 x radius it returns false and clears the entry; in every
    other case it returns false and changes nothing.  Once latched, the
    vehicle reports no further pass over any run of calls in which it never
    exceeds 1.5 x radius, and after exceeding it a re-entry reports a pass. *)
Theorem checkpoint_hysteresis (now : Q) (self : t) (tr : TransformComponent.t)
    (v : string) (pos : Vector3) :
  0 <= distanceTo (TransformComponent.position tr) pos ->
  let d := distanceTo (TransformComponent.position tr) pos in
  let r := checkVehiclePassing now self (Some tr) v pos in
  (r.1 = true <-> d <= radius self /\ passedTimestamps self !! v = None)
  /\ (r.1 = true -> r.2 = withPassed self (<[v := now]> (passedTimestamps self)))
  /\ (radius self * 1.5 < d ->
      r.1 = false /\ r.2 = withPassed self (delete v (passedTimestamps self)))
  /\ (~ (d <= radius self /\ passedTimestamps self !! v = None) ->
      ~ radius self * 1.5 < d -> r = (false, self))
  /\ (r.1 = true ->
      forall cs : list Call,
        Forall (fun c => callVehicle c = v -> ~ exceeds r.2 c) cs ->
        passesOf v cs (checks r.2 cs).1 = [])
  /\ (radius self * 1.5 < d ->
      forall (now' : Q) (tr' : TransformComponent.t) (pos' : Vector3),
        distanceTo (TransformComponent.position tr') pos' <= radius self ->
        (checkVehiclePassing now' r.2 (Some tr') v pos').1 = true).
Proof.
  intros Hd d r. subst r. unfold checkVehiclePassing. fold d.
  change (0 <= d) in Hd. clearbody d.
  destruct (Qle_bool d (radius self)) eqn:E1.
  - apply Qle_bool_iff in E1.
    destruct (passedTimestamps self !! v) as [ts|] eqn:El; cbn [fst snd].
    + split; [split; [discriminate|intros [_ [=]]]|].
      split; [discriminate|]. split; [intros Hx; exfalso; lra|].
      split; [reflexivity|]. split; [discriminate|]. intros Hx. exfalso. lra.
    + split; [split; [auto|reflexivity]|].
      split; [reflexivity|]. split; [intros Hx; exfalso; lra|].
      split; [intros Hn; exfalso; apply Hn; auto|].
      split; [|intros Hx; exfalso; lra].
      intros _ cs Hall.
      apply (latched_until_exceeds v cs
               (withPassed self (<[v := now]> (passedTimestamps self)))); [|exact Hall].
      cbn. rewrite lookup_insert_eq. eauto.
  - apply Qle_bool_false_lt in E1.
    destruct (Qle_bool d (radius self * 1.5)) eqn:E2; cbn [negb fst snd].
    + apply Qle_bool_iff in E2.
      split; [split; [discriminate|intros [Hx _]; exfalso; lra]|].
      split; [discriminate|]. split; [intros Hx; exfalso; lra|].
      split; [reflexivity|]. split; [discriminate|]. intros Hx. exfalso. lra.
    + apply Qle_bool_false_lt in E2.
      split; [split; [discriminate|intros [Hx _]; exfalso; lra]|].
      split; [discriminate|]. split; [auto|].
      split; [intros _ Hn; exfalso; exact (Hn E2)|].
      split; [discriminate|].
      intros _ now' tr' pos' Hin. cbn [radius withPassed passedTimestamps].
      apply Qle_bool_iff in Hin. rewrite Hin, lookup_delete_eq. reflexivity.
Qed.

End Detection.

(** A distance to try the detection on: along one axis it is the Euclidean one. *)
Definition axisDistance (p q : Vector3) : Q :=
  Qabs (x p - x q) + Qabs (y p - y q) + Qabs (z p - z q).

Lemma checkpoint_hysteresis_witness :
  0 <= axisDistance (TransformComponent.position TransformComponent.new) (mkVector3 12 0 0)
  /\ (checkVehiclePassing axisDistance 5 (new 0 true) (Some TransformComponent.new)
        "car" (mkVector3 12 0 0)).1 = true.
Proof.
  split; [vm_compute; discriminate|].
  apply (checkpoint_hysteresis axisDistance 5 (new 0 true) TransformComponent.new
           "car" (mkVector3 12 0 0)).
  - vm_compute; discriminate.
  - split; [vm_compute; discriminate|reflexivity].
Defined.

(** Enter, linger, drift into the dead zone, leave, come back. *)
Example checks_enter_linger_leave_return :
  let at_ (now d : Q) := mkCall now (Some TransformComponent.new) "car" (mkVector3 d 0 0) in
  (checks axisDistance (new 0 true)
     [at_ 1 40; at_ 2 15; at_ 3 10; at_ 4 25; at_ 5 15; at_ 6 31; at_ 7 20]).1
  = [false; true; false; false; false; false; true].
Proof. vm_compute. reflexivity. Qed.

(** *** Further properties of the checkpoint *)

(** A check for one vehicle leaves the latch of every other vehicle and the
    checkpoint's index, flag and radius as they were, with or without a
    transform. *)
Theorem checkVehiclePassing_frame (distanceTo : Vector3 -> Vector3 -> Q) (now : Q)
    (self : t) (transform : option TransformComponent.t) (v u : string) (pos : Vector3) :
  u <> v ->
  let r := checkVehiclePassing distanceTo now self transform v pos in
  passedTimestamps r.2 !! u = passedTimestamps self !! u
  /\ index r.2 = index self
  /\ isStartFinish r.2 = isStartFinish self
  /\ radius r.2 = radius self.
Proof.
  intros Hne r. subst r. unfold checkVehiclePassing.
  destruct transform as [tr|]; [|auto].
  destruct (Qle_bool _ (radius self)).
  - destruct (passedTimestamps self !! v); cbn; [auto|].
    rewrite lookup_insert_ne by congruence. auto.
  - destruct (negb _); cbn; [|auto].
    rewrite lookup_delete_ne by congruence. auto.
Qed.

Lemma checkVehiclePassing_frame_witness :
  "car-b" <> "car-a"
  /\ passedTimestamps
       (checkVehiclePassing axisDistance 7 (new 0 true) (Some TransformComponent.new)
          "car-a" (mkVector3 3 0 0)).2 !! "car-b"
     = passedTimestamps (new 0 true) !! "car-b".
Proof.
  assert (Hne : "car-b" <> "car-a") by discriminate.
  split; [exact Hne|].
  apply (checkVehiclePassing_frame axisDistance 7 (new 0 true)
           (Some TransformComponent.new) "car-a" "car-b" (mkVector3 3 0 0) Hne).
Defined.

(** [resetAll] and [resetForVehicle] re-arm the checkpoint without the
    vehicle leaving: a vehicle within the radius reports a pass on the next
    check, and [resetForVehicle] keeps the latches of the other vehicles. *)
Theorem reset_rearms (distanceTo : Vector3 -> Vector3 -> Q) (now : Q) (self : t)
    (tr : TransformComponent.t) (v : string) (pos : Vector3) :
  distanceTo (TransformComponent.position tr) pos <= radius self ->
  (checkVehiclePassing distanceTo now (resetAll self) (Some tr) v pos).1 = true
  /\ (checkVehiclePassing distanceTo now (resetForVehicle self v) (Some tr) v pos).1 = true
  /\ (forall u, u <> v ->
        passedTimestamps (resetForVehicle self v) !! u = passedTimestamps self !! u).
Proof.
  intros Hd. apply Qle_bool_iff in Hd.
  unfold checkVehiclePassing, resetAll, resetForVehicle. cbn. rewrite Hd.
  rewrite lookup_empty, lookup_delete_eq. cbn. repeat split.
  intros u Hu. apply lookup_delete_ne. congruence.
Qed.

Lemma reset_rearms_witness :
  axisDistance (TransformComponent.position TransformComponent.new) (mkVector3 3 0 0)
    <= radius (new 0 true)
  /\ (checkVehiclePassing axisDistance 9
        (resetAll (checkVehiclePassing axisDistance 7 (new 0 true)
                     (Some TransformComponent.new) "car-a" (mkVector3 3 0 0)).2)
        (Some TransformComponent.new) "car-a" (mkVector3 3 0 0)).1 = true.
Proof.
  split; [vm_compute; discriminate|].
  apply (reset_rearms axisDistance 9
           (checkVehiclePassing axisDistance 7 (new 0 true)
              (Some TransformComponent.new) "car-a" (mkVector3 3 0 0)).2
           TransformComponent.new "car-a" (mkVector3 3 0 0)).
  vm_compute. discriminate.
Defined.

(** [getPassingTimestamp] after a pass reported at time [now] gives [now],
    except that a pass at time 0 reads as null ([get(...) || null]); for a
    vehicle without a latch it is null. *)
Theorem getPassingTimestamp_after_pass (distanceTo : Vector3 -> Vector3 -> Q) (now : Q)
    (self : t) (transform : option TransformComponent.t) (v : string) (pos : Vector3) :
  (checkVehiclePassing distanceTo now self transform v pos).1 = true ->
  getPassingTimestamp (checkVehiclePassing distanceTo now self transform v pos).2 v
  = (if Qeq_bool now 0 then None else Some now)
  /\ getPassingTimestamp self v = None.
Proof.
  unfold checkVehiclePassing, getPassingTimestamp.
  destruct transform as [tr|]; [|discriminate].
  destruct (Qle_bool _ (radius self)).
  - destruct (passedTimestamps self !! v) eqn:E; [discriminate|].
    intros _. cbn. rewrite lookup_insert_eq. auto.
  - destruct (negb _); discriminate.
Qed.

Lemma getPassingTimestamp_after_pass_witness :
  (checkVehiclePassing axisDistance 0 (new 0 true) (Some TransformComponent.new)
     "car-a" (mkVector3 3 0 0)).1 = true
  /\ getPassingTimestamp
       (checkVehiclePassing axisDistance 0 (new 0 true) (Some TransformComponent.new)
          "car-a" (mkVector3 3 0 0)).2 "car-a"
     = None.
Proof.
  split; [reflexivity|].
  apply (getPassingTimestamp_after_pass axisDistance 0 (new 0 true)
           (Some TransformComponent.new) "car-a" (mkVector3 3 0 0)).
  reflexivity.
Defined.

End CheckpointComponent.

(** *** components/LapCounterComponent.ts *)
Module LapCounterComponent.

Record LapData := mkLapData {
  lapNumber : Z;
  startTime : Q;
  endTime : Q;
  duration : Q;
  checkpointTimes : gmap Z Q;
  valid : bool
}.

Record t := mk {
  currentLap : Z;
  totalLaps : Z;
  lapStartTime : Q;
  isRacing : bool;
  currentCheckpoint : Z;
  totalCheckpoints : Z;
  checkpointPassing : gmap Z Q;
  lapHistory : list LapData;
  bestLapTime : option Q
}.

(** [new LapCounterComponent(totalLaps, totalCheckpoints)] *)
Definition new (totalLaps totalCheckpoints : Z) : t :=
  {| currentLap := 0; totalLaps := totalLaps; lapStartTime := 0; isRacing := false;
     currentCheckpoint := 0; totalCheckpoints := totalCheckpoints;
     checkpointPassing := ∅; lapHistory := []; bestLapTime := None |}.

(** [startRace()]; [now] is [performance.now()]. *)
Definition startRace (now : Q) (self : t) : t :=
  {| currentLap := 1; totalLaps := totalLaps self; lapStartTime := now;
     isRacing := true; currentCheckpoint := 0;
     totalCheckpoints := totalCheckpoints self;
     checkpointPassing := ∅; lapHistory := []; bestLapTime := None |}.

(** [finishRace()] *)
Definition finishRace (self : t) : t :=
  {| currentLap := currentLap self; totalLaps := totalLaps self;
     lapStartTime := lapStartTime self; isRacing := false;
     currentCheckpoint := currentCheckpoint self;
     totalCheckpoints := totalCheckpoints self;
     checkpointPassing := checkpointPassing self;
     lapHistory := lapHistory self; bestLapTime := bestLapTime self |}.

(** [validateLap()]: [for (let i = 0; i < this.totalCheckpoints; i++)
    if (!this.checkpointPassing.has(i)) return false; return true]. *)
Definition validateLap (self : t) : bool :=
  forallb (fun i => bool_decide (is_Some (checkpointPassing self !! i)))
          (seqZ 0 (totalCheckpoints self)).

(** [completeLap(timestamp)] *)
Definition completeLap (self : t) (timestamp : Q) : t :=
  let lapTime := timestamp - lapStartTime self in
  let lapData :=
    {| lapNumber := currentLap self; startTime := lapStartTime self;
       endTime := timestamp; duration := lapTime;
       checkpointTimes := checkpointPassing self;
       valid := validateLap self |} in
  let history := lapHistory self ++ [lapData] in
  let best :=
    if valid lapData &&
       match bestLapTime self with
       | None => true
       | Some b => negb (Qle_bool b lapTime)
       end
    then Some lapTime else bestLapTime self in
  let lap := (currentLap self + 1)%Z in
  if (totalLaps self <? lap)%Z then
    finishRace
      {| currentLap := lap; totalLaps := totalLaps self;
         lapStartTime := lapStartTime self; isRacing := isRacing self;
         currentCheckpoint := currentCheckpoint self;
         totalCheckpoints := totalCheckpoints self;
         checkpointPassing := checkpointPassing self;
         lapHistory := history; bestLapTime := best |}
  else
    {| currentLap := lap; totalLaps := totalLaps self;
       lapStartTime := timestamp; isRacing := isRacing self;
       currentCheckpoint := 0;
       totalCheckpoints := totalCheckpoints self;
       checkpointPassing := ∅;
       lapHistory := history; bestLapTime := best |}.

Definition withTotalCheckpoints (self : t) (n : Z) : t :=
  {| currentLap := currentLap self; totalLaps := totalLaps self;
     lapStartTime := lapStartTime self; isRacing := isRacing self;
     currentCheckpoint := currentCheckpoint self; totalCheckpoints := n;
     checkpointPassing := checkpointPassing self;
     lapHistory := lapHistory self; bestLapTime := bestLapTime self |}.

Definition withCheckpoint (self : t) (cp : Z) (passing : gmap Z Q) : t :=
  {| currentLap := currentLap self; totalLaps := totalLaps self;
     lapStartTime := lapStartTime self; isRacing := isRacing self;
     currentCheckpoint := cp; totalCheckpoints := totalCheckpoints self;
     checkpointPassing := passing;
     lapHistory := lapHistory self; bestLapTime := bestLapTime self |}.

(** [passCheckpoint(checkpointIndex, timestamp)]: the returned boolean and
    the component afterwards.  [%] is the remainder of JavaScript, with the
    sign of the dividend. *)
Definition passCheckpoint (self : t) (checkpointIndex : Z) (timestamp : Q) : bool * t :=
  if negb (isRacing self) then (false, self)
  else
    let self := if (totalCheckpoints self =? 0)%Z then withTotalCheckpoints self 5 else self in
    let expectedNext := Z.rem (currentCheckpoint self + 1) (totalCheckpoints self) in
    let isNextCheckpoint := (checkpointIndex =? expectedNext)%Z in
    let isStartFinish := (checkpointIndex =? 0)%Z in
    let self :=
      withCheckpoint self (currentCheckpoint self)
        (<[checkpointIndex := timestamp]> (checkpointPassing self)) in
    if isStartFinish && (currentCheckpoint self =? totalCheckpoints self - 1)%Z then
      (true, completeLap self timestamp)
    else if isNextCheckpoint then
      (true, withCheckpoint self checkpointIndex (checkpointPassing self))
    else if isStartFinish
            && (totalCheckpoints self - 1 <=? Z.of_nat (size (checkpointPassing self)))%Z then
      (true, completeLap self timestamp)
    else if (currentCheckpoint self <? checkpointIndex)%Z
            || ((currentCheckpoint self =? totalCheckpoints self - 1)%Z
                && (checkpointIndex =? 0)%Z) then
      (false, withCheckpoint self checkpointIndex (checkpointPassing self))
    else (false, self).

(** [getCurrentLapTime()] *)
Definition getCurrentLapTime (now : Q) (self : t) : Q :=
  if negb (isRacing self) then 0 else now - lapStartTime self.

(** A run of checkpoint passes: the results, oldest first, and the final
    component. *)
Fixpoint passCheckpoints (self : t) (passes : list (Z * Q)) : list bool * t :=
  match passes with
  | [] => ([], self)
  | (i, ts) :: rest =>
      let '(b, self1) := passCheckpoint self i ts in
      let '(bs, self2) := passCheckpoints self1 rest in
      (b :: bs, self2)
  end.

(** C2.  With totalLaps = 3 and totalCheckpoints = 5, after startRace() the
    passes 0, 1, 2, 3, 4, 0 leave currentLap = 2 and exactly one lap record:
    it is valid and its checkpointTimes hold a timestamp for each of 0..4
    (the start line carries the time of its second pass). *)
Theorem first_lap_after_six_passes (self : t) (now t0 t1 t2 t3 t4 t5 : Q) :
  totalLaps self = 3%Z ->
  totalCheckpoints self = 5%Z ->
  let r := passCheckpoints (startRace now self)
             [(0, t0); (1, t1); (2, t2); (3, t3); (4, t4); (0, t5)]%Z in
  currentLap r.2 = 2%Z
  /\ (exists lap : LapData,
        lapHistory r.2 = [lap]
        /\ valid lap = true
        /\ lapNumber lap = 1%Z
        /\ checkpointTimes lap
           = <[0%Z := t5]> (<[4%Z := t4]> (<[3%Z := t3]> (<[2%Z := t2]> (<[1%Z := t1]> ∅))))
        /\ forall i : Z, (0 <= i < 5)%Z -> is_Some (checkpointTimes lap !! i))
  /\ r.1 = [false; true; true; true; true; true].
Proof.
  intros Hlaps Hcps. destruct self. cbn in Hlaps, Hcps. subst.
  split; [reflexivity|]. split; [|reflexivity].
  eexists. split; [vm_compute; reflexivity|].
  split; [reflexivity|]. split; [reflexivity|]. split; [reflexivity|].
  intros i Hi. cbn [checkpointTimes].
  assert (Hcase : i = 0%Z \/ i = 1%Z \/ i = 2%Z \/ i = 3%Z \/ i = 4%Z) by lia.
  destruct Hcase as [->|[->|[->|[->| ->]]]]; vm_compute; eauto.
Qed.

Lemma first_lap_after_six_passes_witness :
  totalLaps (new 3 5) = 3%Z /\ totalCheckpoints (new 3 5) = 5%Z
  /\ currentLap (passCheckpoints (startRace 1000 (new 3 5))
                   [(0%Z, 1001); (1%Z, 2000); (2%Z, 3000);
                    (3%Z, 4000); (4%Z, 5000); (0%Z, 6000)]).2
     = 2%Z.
Proof.
  split; [reflexivity|]. split; [reflexivity|].
  apply (first_lap_after_six_passes (new 3 5) 1000 1001 2000 3000 4000 5000 6000);
    reflexivity.
Defined.

(** *** Further properties of the lap counter *)


(** Every checkpoint index below [n] has a time in the map. *)
Definition complete (n : Z) (m : gmap Z Q) : Prop :=
  forall i : Z, (0 <= i < n)%Z -> is_Some (m !! i).

Lemma validateLap_complete (self : t) :
  validateLap self = true <-> complete (totalCheckpoints self) (checkpointPassing self).
Proof.
  unfold validateLap, complete. rewrite forallb_forall. split.
  - intros H i Hi. specialize (H i). rewrite bool_decide_eq_true in H.
    apply H. apply list_elem_of_In, elem_of_seqZ. lia.
  - intros H i Hi. apply bool_decide_eq_true. apply H.
    apply list_elem_of_In, elem_of_seqZ in Hi. lia.
Qed.

(** The component once [passCheckpoint] has repaired a zero checkpoint count
    and recorded the pass, before it decides what the pass means. *)
Definition recorded (self : t) (checkpointIndex : Z) (timestamp : Q) : t :=
  let healed :=
    if (totalCheckpoints self =? 0)%Z then withTotalCheckpoints self 5 else self in
  withCheckpoint healed (currentCheckpoint healed)
    (<[checkpointIndex := timestamp]> (checkpointPassing healed)).

(** While racing, a pass either completes the lap or only moves
    [currentCheckpoint]. *)
Lemma passCheckpoint_cases (self : t) (checkpointIndex : Z) (timestamp : Q) :
  isRacing self = true ->
  passCheckpoint self checkpointIndex timestamp
    = (true, completeLap (recorded self checkpointIndex timestamp) timestamp)
  \/ exists (b : bool) (cp : Z),
       passCheckpoint self checkpointIndex timestamp
       = (b, withCheckpoint (recorded self checkpointIndex timestamp) cp
               (checkpointPassing (recorded self checkpointIndex timestamp))).
Proof.
  intros Hr. unfold passCheckpoint, recorded. rewrite Hr. cbn [negb].
  cbv zeta.
  repeat match goal with
         | |- context [if ?c then (_, _) else _] => destruct c
         end;
    first [left; reflexivity | right; eexists _, _; reflexivity].
Qed.

Lemma passCheckpoint_idle (self : t) (checkpointIndex : Z) (timestamp : Q) :
  isRacing self = false -> passCheckpoint self checkpointIndex timestamp = (false, self).
Proof. intros Hr. unfold passCheckpoint. rewrite Hr. reflexivity. Qed.

(** The laps of a history follow one another in time from [start] to [stop]. *)
Fixpoint chained (start : Q) (history : list LapData) (stop : Q) : Prop :=
  match history with
  | [] => start = stop
  | lap :: rest => startTime lap = start /\ chained (endTime lap) rest stop
  end.

(** What [bestLapTime] is with respect to a history. *)
Definition bestOf (best : option Q) (history : list LapData) : Prop :=
  match best with
  | None => Forall (fun lap => valid lap = false) history
  | Some b =>
      Exists (fun lap => valid lap = true /\ duration lap = b) history
      /\ Forall (fun lap => valid lap = true -> b <= duration lap) history
  end.

(** What holds of a counter after [startRace] at time [raceStart] and any
    passes since. *)
Record Inv (raceStart : Q) (self : t) : Prop := mkInv {
  inv_numbers :
    map lapNumber (lapHistory self) = seqZ 1 (Z.of_nat (length (lapHistory self)));
  inv_lap : currentLap self = (Z.of_nat (length (lapHistory self)) + 1)%Z;
  inv_over : isRacing self = false -> (totalLaps self < currentLap self)%Z;
  inv_on :
    isRacing self = true -> lapHistory self <> [] -> (currentLap self <= totalLaps self)%Z;
  inv_records :
    Forall (fun lap =>
              duration lap = endTime lap - startTime lap
              /\ (valid lap = true
                  <-> complete (totalCheckpoints self) (checkpointTimes lap)))
           (lapHistory self);
  inv_count : lapHistory self <> [] -> totalCheckpoints self <> 0%Z;
  inv_chain :
    exists stop : Q,
      chained raceStart (lapHistory self) stop
      /\ (isRacing self = true -> lapStartTime self = stop);
  inv_best : bestOf (bestLapTime self) (lapHistory self)
}.

Lemma Inv_startRace (now : Q) (self : t) : Inv now (startRace now self).
Proof.
  constructor; cbn; try reflexivity; try discriminate; try constructor;
    try congruence.
  exists now. split; reflexivity.
Qed.

Lemma chained_snoc (a b c : Q) (history : list LapData) (lap : LapData) :
  chained a history b -> startTime lap = b -> endTime lap = c ->
  chained a (history ++ [lap]) c.
Proof.
  revert a. induction history as [|l0 h IH]; intros a; cbn.
  - intros <- Hs He. auto.
  - intros [H0 H] Hs He. split; [exact H0|]. apply IH; assumption.
Qed.

Lemma bestOf_snoc (best : option Q) (history : list LapData) (lap : LapData) :
  bestOf best history ->
  bestOf (if valid lap
             && match best with
                | None => true
                | Some b => negb (Qle_bool b (duration lap))
                end
          then Some (duration lap) else best)
         (history ++ [lap]).
Proof.
  unfold bestOf. destruct (valid lap) eqn:Hv; cbn [andb].
  - destruct best as [b|].
    + intros [Hex Hall]. destruct (Qle_bool b (duration lap)) eqn:E; cbn [negb].
      * apply Qle_bool_iff in E. split.
        -- apply Exists_app. left. exact Hex.
        -- apply Forall_app. split; [exact Hall|]. constructor; [auto|constructor].
      * apply Qle_bool_false_lt in E. split.
        -- apply Exists_app. right. constructor. auto.
        -- apply Forall_app. split.
           ++ eapply Forall_impl; [exact Hall|]. cbn. intros l Hl Hvl.
              specialize (Hl Hvl). lra.
           ++ constructor; [intros _; lra|constructor].
    + intros Hall. split.
      * apply Exists_app. right. constructor. auto.
      * apply Forall_app. split.
        -- eapply Forall_impl; [exact Hall|]. cbn. intros l Hl Hvl. congruence.
        -- constructor; [intros _; lra|constructor].
  - destruct best as [b|].
    + intros [Hex Hall]. split.
      * apply Exists_app. left. exact Hex.
      * apply Forall_app. split; [exact Hall|]. constructor; [congruence|constructor].
    + intros Hall. apply Forall_app. split; [exact Hall|]. constructor; [exact Hv|constructor].
Qed.

Lemma Inv_recorded (raceStart : Q) (self : t) (i : Z) (ts : Q) :
  Inv raceStart self -> Inv raceStart (recorded self i ts)
  /\ totalCheckpoints (recorded self i ts) <> 0%Z.
Proof.
  intros [H1 H2 H3 H8 H4 H5 H6 H7]. unfold recorded.
  destruct (Z.eqb_spec (totalCheckpoints self) 0) as [Hz|Hz].
  - assert (Hh : lapHistory self = []).
    { destruct (lapHistory self); [reflexivity|]. exfalso. apply H5; [discriminate|exact Hz]. }
    split; [|cbn; discriminate].
    constructor; cbn; try assumption.
    + rewrite Hh. constructor.
    + discriminate.
  - split; [|exact Hz]. constructor; cbn; assumption.
Qed.

Lemma Inv_withCheckpoint (raceStart : Q) (self : t) (cp : Z) (m : gmap Z Q) :
  Inv raceStart self -> Inv raceStart (withCheckpoint self cp m).
Proof. intros [H1 H2 H3 H8 H4 H5 H6 H7]. constructor; cbn; assumption. Qed.

Lemma completeLap_history (self : t) (ts : Q) :
  lapHistory (completeLap self ts)
  = lapHistory self
    ++ [{| lapNumber := currentLap self; startTime := lapStartTime self;
           endTime := ts; duration := ts - lapStartTime self;
           checkpointTimes := checkpointPassing self;
           valid := validateLap self |}].
Proof. unfold completeLap. cbv zeta. destruct (_ <? _)%Z; reflexivity. Qed.

Lemma Inv_completeLap (raceStart : Q) (self : t) (ts : Q) :
  Inv raceStart self -> isRacing self = true -> totalCheckpoints self <> 0%Z ->
  Inv raceStart (completeLap self ts).
Proof.
  intros [H1 H2 H3 H8 H4 H5 H6 H7] Hr Hcount.
  pose proof (completeLap_history self ts) as Hh.
  set (lap := {| lapNumber := currentLap self; startTime := lapStartTime self;
                 endTime := ts; duration := ts - lapStartTime self;
                 checkpointTimes := checkpointPassing self;
                 valid := validateLap self |}) in *.
  assert (Hfields : currentLap (completeLap self ts) = (currentLap self + 1)%Z
                    /\ totalLaps (completeLap self ts) = totalLaps self
                    /\ totalCheckpoints (completeLap self ts) = totalCheckpoints self
                    /\ bestLapTime (completeLap self ts)
                       = (if valid lap
                             && match bestLapTime self with
                                | None => true
                                | Some b => negb (Qle_bool b (duration lap))
                                end
                          then Some (duration lap) else bestLapTime self)
                    /\ (isRacing (completeLap self ts) = false
                        -> (totalLaps self <? currentLap self + 1)%Z = true)
                    /\ (isRacing (completeLap self ts) = true
                        -> lapStartTime (completeLap self ts) = ts)
                    /\ (isRacing (completeLap self ts) = true
                        -> (totalLaps self <? currentLap self + 1)%Z = false)).
  { unfold completeLap. cbv zeta. destruct (_ <? _)%Z eqn:E; cbn;
      repeat split; try reflexivity; try congruence. }
  destruct Hfields as (F1 & F2 & F3 & F4 & F5 & F6 & F7).
  constructor; rewrite ?Hh, ?F1, ?F2, ?F3, ?F4.
  - rewrite map_app, H1, length_app. cbn [map length lapNumber lap].
    rewrite Nat2Z.inj_add.
    rewrite (seqZ_app 1 (Z.of_nat (length (lapHistory self))) (Z.of_nat 1)) by lia.
    f_equal. rewrite seqZ_cons by lia. rewrite seqZ_nil by lia. f_equal. lia.
  - rewrite length_app, Nat2Z.inj_add. cbn. lia.
  - intros Hf. apply F5 in Hf. lia.
  - intros Hon _. apply F7 in Hon. lia.
  - apply Forall_app. split; [exact H4|]. constructor; [|constructor].
    split; [reflexivity|]. cbn. apply validateLap_complete.
  - intros _. exact Hcount.
  - destruct H6 as (stop & Hc & Hs). exists ts. split.
    + eapply chained_snoc; [exact Hc|cbn; exact (Hs Hr)|reflexivity].
    + exact F6.
  - apply bestOf_snoc. exact H7.
Qed.

Lemma Inv_passCheckpoint (raceStart : Q) (self : t) (i : Z) (ts : Q) :
  Inv raceStart self -> Inv raceStart (passCheckpoint self i ts).2.
Proof.
  intros HI. destruct (isRacing self) eqn:Hr.
  - destruct (Inv_recorded raceStart self i ts HI) as [HI' Hcount].
    assert (Hr' : isRacing (recorded self i ts) = true).
    { unfold recorded. destruct (_ =? _)%Z; exact Hr. }
    destruct (passCheckpoint_cases self i ts Hr) as [-> | (b & cp & ->)]; cbn [snd].
    + apply Inv_completeLap; assumption.
    + apply Inv_withCheckpoint. exact HI'.
  - rewrite (passCheckpoint_idle self i ts Hr). exact HI.
Qed.

Lemma Inv_passCheckpoints (raceStart : Q) (passes : list (Z * Q)) :
  forall self : t, Inv raceStart self -> Inv raceStart (passCheckpoints self passes).2.
Proof.
  induction passes as [|[i ts] rest IH]; intros self HI; [exact HI|].
  cbn [passCheckpoints].
  pose proof (Inv_passCheckpoint raceStart self i ts HI) as H1.
  destruct (passCheckpoint self i ts) as [b self1]. cbn [snd] in H1.
  specialize (IH self1 H1). destruct (passCheckpoints self1 rest) as [bs self2].
  exact IH.
Qed.

Lemma passCheckpoints_totalLaps (passes : list (Z * Q)) :
  forall self : t, totalLaps (passCheckpoints self passes).2 = totalLaps self.
Proof.
  induction passes as [|[i ts] rest IH]; intros self; [reflexivity|].
  cbn [passCheckpoints].
  assert (H1 : totalLaps (passCheckpoint self i ts).2 = totalLaps self).
  { destruct (isRacing self) eqn:Hr.
    - destruct (passCheckpoint_cases self i ts Hr) as [-> | (b & cp & ->)]; cbn [snd].
      + unfold completeLap, recorded. cbv zeta.
        destruct (_ <? _)%Z; cbn; destruct (_ =? _)%Z; reflexivity.
      + unfold recorded. cbn. destruct (_ =? _)%Z; reflexivity.
    - rewrite (passCheckpoint_idle self i ts Hr). reflexivity. }
  destruct (passCheckpoint self i ts) as [b self1]. cbn [snd] in H1.
  specialize (IH self1). destruct (passCheckpoints self1 rest) as [bs self2].
  cbn [snd] in *. congruence.
Qed.

(** After [startRace] and any passes whatever: the history holds the laps
    1, 2, ... in order, currentLap is one more than their number, and with
    totalLaps >= 1 the race is over exactly when currentLap exceeds
    totalLaps. *)
Theorem lap_bookkeeping (self : t) (now : Q) (passes : list (Z * Q)) :
  let lc := (passCheckpoints (startRace now self) passes).2 in
  map lapNumber (lapHistory lc) = seqZ 1 (Z.of_nat (length (lapHistory lc)))
  /\ currentLap lc = (Z.of_nat (length (lapHistory lc)) + 1)%Z
  /\ totalLaps lc = totalLaps self
  /\ (isRacing lc = false -> (totalLaps self < currentLap lc)%Z)
  /\ ((1 <= totalLaps self)%Z -> (totalLaps self < currentLap lc)%Z -> isRacing lc = false).
Proof.
  intros lc.
  pose proof (Inv_passCheckpoints now passes _ (Inv_startRace now self)) as HI.
  pose proof (passCheckpoints_totalLaps passes (startRace now self)) as Ht.
  fold lc in HI, Ht. cbn in Ht. destruct HI as [H1 H2 H3 H8 H4 H5 H6 H7].
  split; [exact H1|]. split; [exact H2|]. split; [exact Ht|].
  split; [intros Hf; rewrite <- Ht; exact (H3 Hf)|].
  intros Hlaps Hover. destruct (isRacing lc) eqn:Hr; [|reflexivity].
  exfalso. destruct (lapHistory lc) as [|l h] eqn:Hh.
  - cbn in H2. lia.
  - assert (Hle : (currentLap lc <= totalLaps lc)%Z) by (apply H8; [reflexivity|discriminate]).
    lia.
Qed.

(** Lap validity: every record in the history has duration = endTime -
    startTime, and its valid flag is true exactly when its checkpointTimes
    hold every index below totalCheckpoints. *)
Theorem lap_records (self : t) (now : Q) (passes : list (Z * Q)) :
  let lc := (passCheckpoints (startRace now self) passes).2 in
  Forall (fun lap =>
            duration lap = endTime lap - startTime lap
            /\ (valid lap = true
                <-> forall i : Z, (0 <= i < totalCheckpoints lc)%Z ->
                                  is_Some (checkpointTimes lap !! i)))
         (lapHistory lc).
Proof.
  intros lc.
  pose proof (Inv_passCheckpoints now passes _ (Inv_startRace now self)) as HI.
  exact (inv_records _ _ HI).
Qed.

(** [bestLapTime] is null exactly when no recorded lap is valid; otherwise it
    is the duration of a valid lap and no valid lap was faster. *)
Theorem best_lap (self : t) (now : Q) (passes : list (Z * Q)) :
  let lc := (passCheckpoints (startRace now self) passes).2 in
  match bestLapTime lc with
  | None => Forall (fun lap => valid lap = false) (lapHistory lc)
  | Some b =>
      Exists (fun lap => valid lap = true /\ duration lap = b) (lapHistory lc)
      /\ Forall (fun lap => valid lap = true -> b <= duration lap) (lapHistory lc)
  end.
Proof.
  intros lc.
  pose proof (Inv_passCheckpoints now passes _ (Inv_startRace now self)) as HI.
  exact (inv_best _ _ HI).
Qed.



(** Three checkpoints, one lap. *)
Definition oneLap : list (Z * Q) := [(1%Z, 10); (2%Z, 20); (0%Z, 30)].


(** A counter that is not racing (before [startRace], or after the last lap)
    ignores every pass: each returns false and nothing is recorded or
    repaired. *)
Theorem idle_ignores_passes (self : t) (passes : list (Z * Q)) :
  isRacing self = false ->
  passCheckpoints self passes = (repeat false (length passes), self).
Proof.
  intros Hr. induction passes as [|[i ts] rest IH]; [reflexivity|].
  cbn [passCheckpoints]. rewrite (passCheckpoint_idle self i ts Hr), IH. reflexivity.
Qed.

Lemma idle_ignores_passes_witness :
  isRacing (new 3 0) = false
  /\ passCheckpoints (new 3 0) oneLap = (repeat false (length oneLap), new 3 0).
Proof.
  split; [reflexivity|]. apply (idle_ignores_passes (new 3 0) oneLap). reflexivity.
Defined.

(** The expected next checkpoint, when it is not the start line, is accepted. *)
Lemma passCheckpoint_next (self : t) (i : Z) (ts : Q) :
  isRacing self = true ->
  totalCheckpoints self <> 0%Z ->
  i <> 0%Z ->
  i = Z.rem (currentCheckpoint self + 1) (totalCheckpoints self) ->
  passCheckpoint self i ts
  = (true, withCheckpoint self i (<[i := ts]> (checkpointPassing self))).
Proof.
  intros Hr Hn Hi Hnext. unfold passCheckpoint. rewrite Hr. cbn [negb].
  rewrite (proj2 (Z.eqb_neq _ _) Hn). cbv zeta. cbn [currentCheckpoint totalCheckpoints
    withCheckpoint checkpointPassing].
  rewrite (proj2 (Z.eqb_neq _ _) Hi). cbn [andb].
  rewrite (proj2 (Z.eqb_eq _ _) Hnext). reflexivity.
Qed.

(** The start line after the last checkpoint completes the lap. *)
Lemma passCheckpoint_finish_line (self : t) (ts : Q) :
  isRacing self = true ->
  totalCheckpoints self <> 0%Z ->
  currentCheckpoint self = (totalCheckpoints self - 1)%Z ->
  passCheckpoint self 0 ts
  = (true, completeLap (withCheckpoint self (currentCheckpoint self)
                          (<[0%Z := ts]> (checkpointPassing self))) ts).
Proof.
  intros Hr Hn Hlast. unfold passCheckpoint. rewrite Hr. cbn [negb].
  rewrite (proj2 (Z.eqb_neq _ _) Hn). cbv zeta. cbn [currentCheckpoint totalCheckpoints
    withCheckpoint checkpointPassing].
  rewrite (proj2 (Z.eqb_eq _ _) Hlast). reflexivity.
Qed.

(** The checkpoints [c+1 .. c+k] passed in order, short of the start line. *)
Lemma passCheckpoints_in_order (times : Z -> Q) (k : nat) :
  forall (self : t) (c : Z),
    isRacing self = true ->
    currentCheckpoint self = c -> (0 <= c)%Z ->
    (c + Z.of_nat k < totalCheckpoints self)%Z ->
    exists m : gmap Z Q,
      passCheckpoints self (map (fun i => (i, times i)) (seqZ (c + 1) (Z.of_nat k)))
      = (repeat true k, withCheckpoint self (c + Z.of_nat k) m)
      /\ (forall i, is_Some (checkpointPassing self !! i) \/ (c < i <= c + Z.of_nat k)%Z ->
                    is_Some (m !! i)).
Proof.
  induction k as [|k IH]; intros self c Hr Hc H0 Hlt.
  - exists (checkpointPassing self). cbn. split.
    + rewrite Z.add_0_r, <- Hc. destruct self; reflexivity.
    + intros i [Hi|Hi]; [exact Hi|lia].
  - rewrite Nat2Z.inj_succ, seqZ_cons by lia. cbn [map passCheckpoints].
    rewrite passCheckpoint_next; [|exact Hr|lia|lia|].
    2:{ rewrite Hc, Z.rem_small by lia. reflexivity. }
    destruct (IH (withCheckpoint self (c + 1) (<[(c + 1)%Z := times (c + 1)%Z]>
                                                 (checkpointPassing self))) (c + 1)%Z)
      as (m & Hrun & Hm); cbn; [exact Hr|reflexivity|lia|lia|].
    replace (Z.pred (Z.succ (Z.of_nat k))) with (Z.of_nat k) by lia.
    replace (Z.succ (c + 1)) with (c + 1 + 1)%Z by lia.
    rewrite Hrun. exists m. split.
    + cbn. do 2 f_equal. lia.
    + intros i Hi. apply Hm. cbn.
      destruct (decide (i = (c + 1)%Z)) as [->|Hne].
      * left. rewrite lookup_insert_eq. eauto.
      * rewrite lookup_insert_ne by congruence. destruct Hi as [Hi|Hi]; [auto|right; lia].
Qed.

(** A lap driven in order, for any number n >= 1 of checkpoints: from a
    counter at checkpoint 0, the passes 1, ..., n-1 and then 0 are all
    accepted and add one lap record, which is valid, carries the current lap
    number and lasts from lapStartTime to the pass of the start line. *)
Theorem lap_in_order (self : t) (times : Z -> Q) :
  isRacing self = true ->
  currentCheckpoint self = 0%Z ->
  (1 <= totalCheckpoints self)%Z ->
  let n := totalCheckpoints self in
  let r := passCheckpoints self
             (map (fun i => (i, times i)) (seqZ 1 (n - 1)) ++ [(0%Z, times 0%Z)]) in
  r.1 = repeat true (Z.to_nat n)
  /\ currentLap r.2 = (currentLap self + 1)%Z
  /\ exists lap : LapData,
       lapHistory r.2 = lapHistory self ++ [lap]
       /\ valid lap = true
       /\ lapNumber lap = currentLap self
       /\ duration lap = times 0%Z - lapStartTime self.
Proof.
  intros Hr Hc Hn n r. subst r.
  assert (Hrun : forall s l1 l2,
             passCheckpoints s (l1 ++ l2)
             = ((passCheckpoints s l1).1 ++ (passCheckpoints (passCheckpoints s l1).2 l2).1,
                (passCheckpoints (passCheckpoints s l1).2 l2).2)).
  { intros s l1. revert s. induction l1 as [|[i ts] l1 IH]; intros s l2; cbn [passCheckpoints app].
    - cbn. destruct (passCheckpoints s l2); reflexivity.
    - destruct (passCheckpoint s i ts) as [b s1]. rewrite IH.
      destruct (passCheckpoints s1 l1) as [bs s2]. cbn [fst snd].
      destruct (passCheckpoints s2 l2); reflexivity. }
  rewrite Hrun. clear Hrun.
  destruct (passCheckpoints_in_order times (Z.to_nat (n - 1)) self 0 Hr Hc)
    as (m & Hpre & Hm); [lia|subst n; lia|].
  rewrite Z2Nat.id in Hpre, Hm by (subst n; lia).
  change (0 + 1)%Z with 1%Z in Hpre. rewrite Hpre. cbn [fst snd passCheckpoints].
  rewrite passCheckpoint_finish_line; cbn; [|exact Hr|subst n; lia|subst n; lia].
  set (last := withCheckpoint _ _ _).
  assert (Hvalid : validateLap last = true).
  { apply validateLap_complete. intros i Hi. subst last. cbn in Hi |- *.
    destruct (decide (i = 0%Z)) as [->|Hne]; [rewrite lookup_insert_eq; eauto|].
    rewrite lookup_insert_ne by congruence. apply Hm. right. subst n. lia. }
  split.
  { replace (Z.to_nat n) with (S (Z.to_nat (n - 1))) by (subst n; lia).
    cbn [repeat]. symmetry. apply repeat_cons. }
  rewrite completeLap_history. unfold completeLap. cbv zeta.
  split; [destruct (_ <? _)%Z; reflexivity|].
  eexists. split; [reflexivity|]. cbn. auto.
Qed.

Lemma lap_in_order_witness :
  isRacing (startRace 0 (new 3 4)) = true
  /\ (passCheckpoints (startRace 0 (new 3 4))
        (map (fun i => (i, inject_Z i)) (seqZ 1 (4 - 1)) ++ [(0%Z, inject_Z 0)])).1
     = repeat true (Z.to_nat 4).
Proof.
  split; [reflexivity|].
  apply (lap_in_order (startRace 0 (new 3 4)) inject_Z); [reflexivity|reflexivity|].
  vm_compute. discriminate.
Defined.

(** While racing every pass is put on record with its time, accepted or
    not: in the map of the lap in progress, or in the record of the lap it
    has just completed.  A checkpoint count of 0 has become 5. *)
Theorem pass_always_recorded (self : t) (i : Z) (ts : Q) :
  isRacing self = true ->
  let r := passCheckpoint self i ts in
  totalCheckpoints r.2 = (if (totalCheckpoints self =? 0)%Z then 5%Z else totalCheckpoints self)
  /\ ((lapHistory r.2 = lapHistory self /\ checkpointPassing r.2 !! i = Some ts)
      \/ (exists lap, lapHistory r.2 = lapHistory self ++ [lap]
                      /\ checkpointTimes lap !! i = Some ts)).
Proof.
  intros Hr r. subst r.
  assert (Hrec : checkpointPassing (recorded self i ts) !! i = Some ts
                 /\ lapHistory (recorded self i ts) = lapHistory self
                 /\ totalCheckpoints (recorded self i ts)
                    = (if (totalCheckpoints self =? 0)%Z then 5%Z else totalCheckpoints self)).
  { unfold recorded. cbn. rewrite lookup_insert_eq.
    destruct (_ =? _)%Z; cbn; auto. }
  destruct Hrec as (Hi & Hh & Ht).
  destruct (passCheckpoint_cases self i ts Hr) as [-> | (b & cp & ->)]; cbn [snd].
  - split.
    + rewrite <- Ht. unfold completeLap. cbv zeta. destruct (_ <? _)%Z; reflexivity.
    + right. eexists. rewrite completeLap_history, Hh. split; [reflexivity|]. cbn. exact Hi.
  - split; [exact Ht|]. left. split; [exact Hh|exact Hi].
Qed.

Lemma pass_always_recorded_witness :
  isRacing (startRace 0 (new 3 0)) = true
  /\ totalCheckpoints (passCheckpoint (startRace 0 (new 3 0)) 7 12).2 = 5%Z.
Proof.
  split; [reflexivity|].
  apply (pass_always_recorded (startRace 0 (new 3 0)) 7 12). reflexivity.
Defined.

End LapCounterComponent.

(** *** components/NetworkIdentityComponent.ts *)
Module NetworkIdentityComponent.

Record t := mk {
  networkId : string;
  ownerId : string;
  isOwner : bool;
  isLocalPlayer : bool;
  syncPosition : bool;
  syncRotation : bool;
  syncScale : bool;
  syncVelocity : bool;
  syncInterval : Q;
  lastSyncTime : Q;
  isDirty : bool
}.

(** [new NetworkIdentityComponent(networkId, ownerId)] *)
Definition new (networkId ownerId : string) : t :=
  {| networkId := networkId; ownerId := ownerId;
     isOwner := false; isLocalPlayer := false;
     syncPosition := true; syncRotation := true; syncScale := false;
     syncVelocity := true; syncInterval := 100; lastSyncTime := 0;
     isDirty := false |}.

Definition setAsLocalPlayer (self : t) : t :=
  {| networkId := networkId self; ownerId := ownerId self;
     isOwner := true; isLocalPlayer := true;
     syncPosition := syncPosition self; syncRotation := syncRotation self;
     syncScale := syncScale self; syncVelocity := syncVelocity self;
     syncInterval := syncInterval self; lastSyncTime := lastSyncTime self;
     isDirty := isDirty self |}.

Definition setSyncInterval (self : t) (intervalMs : Q) : t :=
  {| networkId := networkId self; ownerId := ownerId self;
     isOwner := isOwner self; isLocalPlayer := isLocalPlayer self;
     syncPosition := syncPosition self; syncRotation := syncRotation self;
     syncScale := syncScale self; syncVelocity := syncVelocity self;
     syncInterval := intervalMs; lastSyncTime := lastSyncTime self;
     isDirty := isDirty self |}.

(** The two fields [needsSync] writes. *)
Definition withSync (self : t) (dirty : bool) (last : Q) : t :=
  {| networkId := networkId self; ownerId := ownerId self;
     isOwner := isOwner self; isLocalPlayer := isLocalPlayer self;
     syncPosition := syncPosition self; syncRotation := syncRotation self;
     syncScale := syncScale self; syncVelocity := syncVelocity self;
     syncInterval := syncInterval self; lastSyncTime := last;
     isDirty := dirty |}.

(** [markDirty()] *)
Definition markDirty (self : t) : t := withSync self true (lastSyncTime self).

(** [needsSync(currentTime)]: the returned boolean and the component afterwards. *)
Definition needsSync (self : t) (currentTime : Q) : bool * t :=
  if negb (isOwner self) then (false, self)
  else if isDirty self && Qle_bool (syncInterval self) (currentTime - lastSyncTime self)
  then (true, withSync self false currentTime)
  else (false, self).

(** C8.  On an owned component [needsSync(now)] is true exactly when the
    dirty flag is set and now - lastSyncTime >= syncInterval; a true result
    clears the dirty flag and stores now as lastSyncTime, a false result
    changes nothing, and on a component that is not owned the result is
    false. *)
Theorem needsSync_spec (self : t) (now : Q) :
  (isOwner self = true ->
     ((needsSync self now).1 = true
      <-> isDirty self = true /\ syncInterval self <= now - lastSyncTime self))
  /\ ((needsSync self now).1 = true ->
        (needsSync self now).2 = withSync self false now
        /\ isDirty (needsSync self now).2 = false
        /\ lastSyncTime (needsSync self now).2 = now)
  /\ ((needsSync self now).1 = false -> (needsSync self now).2 = self)
  /\ (isOwner self = false -> needsSync self now = (false, self)).
Proof.
  unfold needsSync.
  destruct (isOwner self); cbn [negb].
  - destruct (isDirty self); cbn [andb].
    + destruct (Qle_bool (syncInterval self) (now - lastSyncTime self)) eqn:E; cbn [fst snd].
      * apply Qle_bool_iff in E.
        split; [intros _; split; auto|]. split; [auto|]. split; [discriminate|discriminate].
      * apply Qle_bool_false_lt in E.
        split; [intros _; split; [discriminate|intros [_ Hx]; exfalso; lra]|].
        split; [discriminate|]. split; [reflexivity|discriminate].
    + cbn [fst snd].
      split; [intros _; split; [discriminate|intros [[=] _]]|].
      split; [discriminate|]. split; [reflexivity|discriminate].
  - cbn [fst snd]. split; [discriminate|]. split; [discriminate|]. split; reflexivity.
Qed.

Lemma needsSync_spec_witness :
  isOwner (markDirty (setAsLocalPlayer (new "car-1" "alice"))) = true
  /\ ((needsSync (markDirty (setAsLocalPlayer (new "car-1" "alice"))) 250).1 = true
      <-> isDirty (markDirty (setAsLocalPlayer (new "car-1" "alice"))) = true
          /\ syncInterval (markDirty (setAsLocalPlayer (new "car-1" "alice")))
             <= 250 - lastSyncTime (markDirty (setAsLocalPlayer (new "car-1" "alice")))).
Proof.
  split; [reflexivity|].
  apply (needsSync_spec (markDirty (setAsLocalPlayer (new "car-1" "alice"))) 250).
  reflexivity.
Defined.

Example needsSync_twice :
  let c := markDirty (setAsLocalPlayer (new "car-1" "alice")) in
  (needsSync c 250).1 = true
  /\ (needsSync (needsSync c 250).2 400).1 = false
  /\ (needsSync (markDirty (needsSync c 250).2) 300).1 = false
  /\ (needsSync (markDirty (needsSync c 250).2) 350).1 = true.
Proof. vm_compute. auto. Qed.

(** *** A run of [markDirty] and [needsSync] calls *)

Inductive Op :=
| MarkDirty
| NeedsSync (currentTime : Q).

Definition apply (self : t) (op : Op) : t :=
  match op with
  | MarkDirty => markDirty self
  | NeedsSync currentTime => (needsSync self currentTime).2
  end.

(** The times at which [needsSync] answered true, oldest first. *)
Fixpoint syncTimes (self : t) (ops : list Op) : list Q :=
  match ops with
  | [] => []
  | op :: rest =>
      match op with
      | NeedsSync currentTime =>
          if (needsSync self currentTime).1
          then currentTime :: syncTimes (apply self op) rest
          else syncTimes (apply self op) rest
      | MarkDirty => syncTimes (apply self op) rest
      end
  end.

Fixpoint marks (ops : list Op) : nat :=
  match ops with
  | [] => O
  | MarkDirty :: rest => S (marks rest)
  | NeedsSync _ :: rest => marks rest
  end.

Lemma needsSync_cases (self : t) (now : Q) :
  (needsSync self now = (true, withSync self false now)
   /\ isOwner self = true /\ isDirty self = true
   /\ lastSyncTime self + syncInterval self <= now)
  \/ needsSync self now = (false, self).
Proof.
  unfold needsSync. destruct (isOwner self); cbn [negb]; [|auto].
  destruct (isDirty self); cbn [andb]; [|auto].
  destruct (Qle_bool _ _) eqn:E; [|auto].
  apply Qle_bool_iff in E. left. repeat split. lra.
Qed.

Lemma syncTimes_spaced (interval : Q) (ops : list Op) :
  0 <= interval ->
  forall self : t,
    syncInterval self = interval ->
    StronglySorted (fun a b => a + interval <= b) (syncTimes self ops)
    /\ Forall (fun t => lastSyncTime self + interval <= t) (syncTimes self ops)
    /\ (length (syncTimes self ops) <= marks ops + (if isDirty self then 1 else 0))%nat
    /\ (isOwner self = false -> syncTimes self ops = []).
Proof.
  intros Hi. induction ops as [|op rest IH]; intros self Hs.
  { cbn. repeat split; try constructor. lia. }
  destruct op as [|now]; cbn [syncTimes apply marks].
  - destruct (IH (markDirty self) Hs) as (H1 & H2 & H3 & H4).
    cbn in H2, H3. split; [exact H1|]. split; [exact H2|].
    split; [destruct (isDirty self); lia|exact H4].
  - destruct (needsSync_cases self now) as [(-> & Ho & Hd & Hle) | ->]; cbn [fst snd].
    + destruct (IH (withSync self false now) Hs) as (H1 & H2 & H3 & H4).
      cbn in H2, H3. rewrite Hs in Hle. rewrite Hd.
      split; [constructor; assumption|].
      split.
      { constructor; [exact Hle|]. eapply Forall_impl; [exact H2|]. cbn. intros t Ht. lra. }
      split; [cbn; lia|congruence].
    + apply IH. exact Hs.
Qed.

(** Over any run of [markDirty] and [needsSync] calls with a non-negative
    syncInterval: two true answers are at least syncInterval apart, there
    are no more true answers than [markDirty] calls (plus one if the run
    starts dirty), and a component that is not owned never answers true. *)
Theorem needsSync_run (self : t) (ops : list Op) :
  0 <= syncInterval self ->
  StronglySorted (fun a b => a + syncInterval self <= b) (syncTimes self ops)
  /\ (length (syncTimes self ops) <= marks ops + (if isDirty self then 1 else 0))%nat
  /\ (isOwner self = false -> syncTimes self ops = []).
Proof.
  intros Hi.
  destruct (syncTimes_spaced (syncInterval self) ops Hi self eq_refl) as (H1 & _ & H3 & H4).
  auto.
Qed.

Lemma needsSync_run_witness :
  0 <= syncInterval (setAsLocalPlayer (new "car-1" "alice"))
  /\ StronglySorted
       (fun a b => a + syncInterval (setAsLocalPlayer (new "car-1" "alice")) <= b)
       (syncTimes (setAsLocalPlayer (new "car-1" "alice"))
          [MarkDirty; NeedsSync 50; NeedsSync 120; MarkDirty; NeedsSync 200; NeedsSync 220]).
Proof.
  assert (Hi : 0 <= syncInterval (setAsLocalPlayer (new "car-1" "alice")))
    by (vm_compute; discriminate).
  split; [exact Hi|].
  apply (needsSync_run (setAsLocalPlayer (new "car-1" "alice"))
           [MarkDirty; NeedsSync 50; NeedsSync 120; MarkDirty; NeedsSync 200; NeedsSync 220] Hi).
Defined.

Example syncTimes_of_run :
  syncTimes (setAsLocalPlayer (new "car-1" "alice"))
    [MarkDirty; NeedsSync 50; NeedsSync 120; MarkDirty; NeedsSync 200; NeedsSync 220]
  = [120; 220].
Proof. reflexivity. Qed.

End NetworkIdentityComponent.

(** ** Entities as the systems see them *)

(** core/ComponentTypes.ts *)
Module ComponentTypes.
Definition TRANSFORM : string := "transform".
Definition VEHICLE : string := "vehicle".
Definition CHECKPOINT : string := "checkpoint".
Definition LAP_COUNTER : string := "lapCounter".
Definition NETWORK_IDENTITY : string := "networkIdentity".
End ComponentTypes.

(** The component classes.  [Other] stands for the classes whose state no
    system below reads (mesh, input controller, ...). *)
Inductive Component :=
| Transform (c : TransformComponent.t)
| Vehicle (c : VehicleComponent.t)
| Checkpoint (c : CheckpointComponent.t)
| LapCounter (c : LapCounterComponent.t)
| NetworkIdentity (c : NetworkIdentityComponent.t)
| Other (type : string).

(** The [type] field each class fixes. *)
Definition typeOf (c : Component) : string :=
  match c with
  | Transform _ => ComponentTypes.TRANSFORM
  | Vehicle _ => ComponentTypes.VEHICLE
  | Checkpoint _ => ComponentTypes.CHECKPOINT
  | LapCounter _ => ComponentTypes.LAP_COUNTER
  | NetworkIdentity _ => ComponentTypes.NETWORK_IDENTITY
  | Other ty => ty
  end.

Module Entity.

Record t := mk {
  id : string;
  components : gmap string Component
}.

(** [addComponent(component)], without the back-reference. *)
Definition addComponent (self : t) (c : Component) : t :=
  {| id := id self; components := <[typeOf c := c]> (components self) |}.

Definition getComponent (self : t) (componentType : string) : option Component :=
  components self !! componentType.

Definition hasComponent (self : t) (componentType : string) : bool :=
  bool_decide (is_Some (components self !! componentType)).

(** [getComponent<T>(tag)]: the type argument of the source is a cast, here
    a test of the class. *)
Definition getTransform (self : t) : option TransformComponent.t :=
  match getComponent self ComponentTypes.TRANSFORM with
  | Some (Transform c) => Some c
  | _ => None
  end.

Definition getVehicle (self : t) : option VehicleComponent.t :=
  match getComponent self ComponentTypes.VEHICLE with
  | Some (Vehicle c) => Some c
  | _ => None
  end.

Definition getCheckpoint (self : t) : option CheckpointComponent.t :=
  match getComponent self ComponentTypes.CHECKPOINT with
  | Some (Checkpoint c) => Some c
  | _ => None
  end.

Definition getLapCounter (self : t) : option LapCounterComponent.t :=
  match getComponent self ComponentTypes.LAP_COUNTER with
  | Some (LapCounter c) => Some c
  | _ => None
  end.

Definition getNetworkIdentity (self : t) : option NetworkIdentityComponent.t :=
  match getComponent self ComponentTypes.NETWORK_IDENTITY with
  | Some (NetworkIdentity c) => Some c
  | _ => None
  end.

End Entity.

(** The entity objects, by id, and the ids the world holds, in the order of
    [World.entities].  A system keeps references to entities (ids) and reads
    or writes the object behind them here. *)
Record Env := mkEnv {
  entityObjs : gmap string Entity.t;
  worldEntities : list string
}.

Definition getEntity (env : Env) (entityId : string) : option Entity.t :=
  entityObjs env !! entityId.

(** A write to a component of the entity with this id. *)
Definition setComponent (env : Env) (entityId : string) (c : Component) : Env :=
  {| entityObjs := alter (fun e => Entity.addComponent e c) entityId (entityObjs env);
     worldEntities := worldEntities env |}.

(** [World.getAllEntities()] and [World.getEntitiesWithComponents(types)] *)
Definition getAllEntities (env : Env) : list Entity.t :=
  omap (fun i => entityObjs env !! i) (worldEntities env).

Definition getEntitiesWithComponents (env : Env) (componentTypes : list string)
  : list Entity.t :=
  filter (fun e => forallb (Entity.hasComponent e) componentTypes = true)
         (getAllEntities env).

(** ** core/System.ts *)

(** The world a system is attached to; there is one. *)
Inductive WorldRef := theWorld.

Module System.
(** [init(world) { this.world = world }]: the new value of [this.world]. *)
Definition init (world : WorldRef) : option WorldRef := Some world.
End System.

(** [Array.prototype.sort(compare)]: stable, an element goes after those it
    does not compare below. *)
Section Sort.
Context {A : Type}.
Variable compare : A -> A -> Z.

Fixpoint insertSorted (a : A) (l : list A) : list A :=
  match l with
  | [] => [a]
  | b :: l' => if (0 <? compare a b)%Z then b :: insertSorted a l' else a :: l
  end.

Fixpoint sort (l : list A) : list A :=
  match l with
  | [] => []
  | a :: l' => insertSorted a (sort l')
  end.

Lemma insertSorted_perm (a : A) (l : list A) : Permutation (a :: l) (insertSorted a l).
Proof.
  induction l as [|b l IH]; cbn; [reflexivity|].
  destruct (0 <? compare a b)%Z; [|reflexivity].
  rewrite perm_swap. apply perm_skip. exact IH.
Qed.

Lemma sort_perm (l : list A) : Permutation l (sort l).
Proof.
  induction l as [|a l IH]; cbn; [reflexivity|].
  rewrite <- insertSorted_perm. apply perm_skip. exact IH.
Qed.

(** A comparator that is consistent on the elements satisfying [P]: total,
    and transitive on "not after". *)
Variable P : A -> Prop.
Hypothesis compare_total :
  forall a b, P a -> P b -> (compare a b <= 0)%Z \/ (compare b a <= 0)%Z.
Hypothesis compare_trans :
  forall a b c, P a -> P b -> P c ->
    (compare a b <= 0)%Z -> (compare b c <= 0)%Z -> (compare a c <= 0)%Z.

Lemma insertSorted_sorted (a : A) (l : list A) :
  P a -> Forall P l ->
  StronglySorted (fun u v => (compare u v <= 0)%Z) l ->
  StronglySorted (fun u v => (compare u v <= 0)%Z) (insertSorted a l).
Proof.
  intros Pa. induction l as [|b l IH]; intros HP Hs; cbn.
  - repeat constructor.
  - apply Forall_cons in HP as [Pb HP].
    apply StronglySorted_inv in Hs as [Hs Hb].
    destruct (0 <? compare a b)%Z eqn:E.
    + constructor; [apply IH; assumption|].
      rewrite <- insertSorted_perm. constructor; [|exact Hb].
      destruct (compare_total b a Pb Pa); [assumption|lia].
    + constructor; [constructor; assumption|].
      assert (Hab : (compare a b <= 0)%Z) by lia.
      constructor; [exact Hab|].
      rewrite Forall_forall in Hb, HP |- *. intros c Hc.
      exact (compare_trans a b c Pa Pb (HP c Hc) Hab (Hb c Hc)).
Qed.

Lemma sort_sorted (l : list A) :
  Forall P l -> StronglySorted (fun u v => (compare u v <= 0)%Z) (sort l).
Proof.
  induction l as [|a l IH]; intros HP; cbn; [constructor|].
  apply Forall_cons in HP as [Pa HP].
  apply insertSorted_sorted; [exact Pa| |apply IH; exact HP].
  rewrite <- sort_perm. exact HP.
Qed.

End Sort.

(** ** systems/RaceSystem.ts *)
Module RaceSystem.

(** What the system tells its listeners. *)
Inductive Notification :=
| RaceStart
| RaceEnd
| CountdownTick (secondsRemaining : Z)
| CheckpointPassed (entityId : string) (checkpointIndex : Z)
| LapCompleted (entityId : string) (lapNumber : Z) (lapTime : Q).

(** Of a callback only whether it is set. *)
Record Callbacks := mkCallbacks {
  onRaceStart : bool;
  onRaceEnd : bool;
  onCountdownTick : bool;
  onCheckpointPassed : bool;
  onLapCompleted : bool
}.

Record t := mk {
  isRaceActive : bool;
  countdownActive : bool;
  countdownTime : Q;
  countdownTimer : Q;
  lastCountdownTick : Z;
  playerRankings : list string;
  finishedPlayers : list string;
  totalLaps : Z;
  checkpoints : list string;
  world : option WorldRef;
  callbacks : Callbacks
}.

(** [new RaceSystem()] *)
Definition new : t :=
  {| isRaceActive := false; countdownActive := false; countdownTime := 3;
     countdownTimer := 0; lastCountdownTick := -1;
     playerRankings := []; finishedPlayers := [];
     totalLaps := 3; checkpoints := []; world := None;
     callbacks := mkCallbacks false false false false false |}.

(** Assignments to single fields. *)
Definition set_isRaceActive (v : bool) (self : t) : t :=
  mk v (countdownActive self) (countdownTime self) (countdownTimer self)
    (lastCountdownTick self) (playerRankings self) (finishedPlayers self)
    (totalLaps self) (checkpoints self) (world self) (callbacks self).

Definition set_countdownActive (v : bool) (self : t) : t :=
  mk (isRaceActive self) v (countdownTime self) (countdownTimer self)
    (lastCountdownTick self) (playerRankings self) (finishedPlayers self)
    (totalLaps self) (checkpoints self) (world self) (callbacks self).

Definition set_countdownTimer (v : Q) (self : t) : t :=
  mk (isRaceActive self) (countdownActive self) (countdownTime self) v
    (lastCountdownTick self) (playerRankings self) (finishedPlayers self)
    (totalLaps self) (checkpoints self) (world self) (callbacks self).

Definition set_lastCountdownTick (v : Z) (self : t) : t :=
  mk (isRaceActive self) (countdownActive self) (countdownTime self)
    (countdownTimer self) v (playerRankings self) (finishedPlayers self)
    (totalLaps self) (checkpoints self) (world self) (callbacks self).

Definition set_playerRankings (v : list string) (self : t) : t :=
  mk (isRaceActive self) (countdownActive self) (countdownTime self)
    (countdownTimer self) (lastCountdownTick self) v (finishedPlayers self)
    (totalLaps self) (checkpoints self) (world self) (callbacks self).

Definition set_finishedPlayers (v : list string) (self : t) : t :=
  mk (isRaceActive self) (countdownActive self) (countdownTime self)
    (countdownTimer self) (lastCountdownTick self) (playerRankings self) v
    (totalLaps self) (checkpoints self) (world self) (callbacks self).

Definition set_totalLaps (v : Z) (self : t) : t :=
  mk (isRaceActive self) (countdownActive self) (countdownTime self)
    (countdownTimer self) (lastCountdownTick self) (playerRankings self)
    (finishedPlayers self) v (checkpoints self) (world self) (callbacks self).

Definition set_checkpoints (v : list string) (self : t) : t :=
  mk (isRaceActive self) (countdownActive self) (countdownTime self)
    (countdownTimer self) (lastCountdownTick self) (playerRankings self)
    (finishedPlayers self) (totalLaps self) v (world self) (callbacks self).

Definition set_callbacks (v : Callbacks) (self : t) : t :=
  mk (isRaceActive self) (countdownActive self) (countdownTime self)
    (countdownTimer self) (lastCountdownTick self) (playerRankings self)
    (finishedPlayers self) (totalLaps self) (checkpoints self) (world self) v.


(** The system, the entity objects it reaches, and what it has emitted so
    far (newest first). *)
Record St := mkSt {
  self : t;
  env : Env;
  emitted : list Notification
}.

Definition onSelf (f : t -> t) (s : St) : St :=
  {| self := f (self s); env := env s; emitted := emitted s |}.

Definition onEnv (f : Env -> Env) (s : St) : St :=
  {| self := self s; env := f (env s); emitted := emitted s |}.

(** [if (this.onX) this.onX(...)] *)
Definition emit (isSet : Callbacks -> bool) (n : Notification) (s : St) : St :=
  if isSet (callbacks (self s))
  then {| self := self s; env := env s; emitted := n :: emitted s |}
  else s.

(** [override init(): void { }].  The base [System.init(world)], which
    stores the world, is not called. *)
Definition init (self : t) (world : WorldRef) : t := self.

(** What [World.addSystem(system)] does to the system: [system.init(this)]. *)
Definition addedToWorld (self : t) : t := init self theWorld.

(** [configure(totalLaps)] *)
Definition configure (totalLaps : Z) (s : St) : St := onSelf (set_totalLaps totalLaps) s.

(** [startCountdown()] *)
Definition startCountdown (s : St) : St :=
  if isRaceActive (self s) || countdownActive (self s) then s
  else
    let s := onSelf (fun r => set_lastCountdownTick (-1)
                                (set_countdownTimer (countdownTime r)
                                   (set_countdownActive true r))) s in
    let initialSeconds := Qceiling (countdownTimer (self s)) in
    if onCountdownTick (callbacks (self s)) && (0 <? initialSeconds)%Z
    then onSelf (set_lastCountdownTick initialSeconds)
           (emit onCountdownTick (CountdownTick initialSeconds) s)
    else s.

(** The write [lapCounter.f()] on the lap counter of an entity. *)
Definition onLapCounter (f : LapCounterComponent.t -> LapCounterComponent.t)
    (entityId : string) (e : Env) : Env :=
  match getEntity e entityId ≫= Entity.getLapCounter with
  | Some lc => setComponent e entityId (LapCounter (f lc))
  | None => e
  end.

(** [startRace()]; [now] is the clock read by [lapCounter.startRace()]. *)
Definition startRace (now : Q) (s : St) : St :=
  if isRaceActive (self s) then s
  else
    let s := onSelf (fun r => set_finishedPlayers []
                                (set_playerRankings []
                                   (set_countdownActive false
                                      (set_isRaceActive true r)))) s in
    let s :=
      fold_left
        (fun s checkpoint =>
           match getEntity (env s) checkpoint ≫= Entity.getCheckpoint with
           | Some cc =>
               onEnv (fun e => setComponent e checkpoint
                                 (Checkpoint (CheckpointComponent.resetAll cc))) s
           | None => s
           end)
        (checkpoints (self s)) s in
    let s :=
      match world (self s) with
      | Some _ =>
          fold_left
            (fun s racer =>
               match getEntity (env s) (Entity.id racer) ≫= Entity.getLapCounter with
               | Some _ =>
                   onSelf (fun r => set_playerRankings (playerRankings r ++ [Entity.id racer]) r)
                     (onEnv (onLapCounter (LapCounterComponent.startRace now) (Entity.id racer)) s)
               | None => s
               end)
            (getEntitiesWithComponents (env s)
               [ComponentTypes.LAP_COUNTER; ComponentTypes.VEHICLE]) s
      | None => s
      end in
    emit onRaceStart RaceStart s.

(** [endRace()] *)
Definition endRace (s : St) : St :=
  if negb (isRaceActive (self s)) then s
  else
    let s := onSelf (set_isRaceActive false) s in
    let s :=
      match world (self s) with
      | Some _ =>
          fold_left
            (fun s racer =>
               onEnv (onLapCounter LapCounterComponent.finishRace (Entity.id racer)) s)
            (getEntitiesWithComponents (env s) [ComponentTypes.LAP_COUNTER]) s
      | None => s
      end in
    emit onRaceEnd RaceEnd s.

(** [updateCountdown(deltaTime)] *)
Definition updateCountdown (now deltaTime : Q) (s : St) : St :=
  if negb (countdownActive (self s)) then s
  else
    let s := onSelf (fun r => set_countdownTimer (countdownTimer r - deltaTime) r) s in
    let secondsRemaining := Qceiling (countdownTimer (self s)) in
    if (secondsRemaining <=? 0)%Z then
      if countdownActive (self s)
      then startRace now (onSelf (set_countdownActive false) s)
      else s
    else if negb (secondsRemaining =? lastCountdownTick (self s))%Z then
      onSelf (set_lastCountdownTick secondsRemaining)
        (emit onCountdownTick (CountdownTick secondsRemaining) s)
    else s.

(** The comparator of [updateRankings]: more laps first, then the higher
    checkpoint. *)
Definition compareProgress (a b : Entity.t) : Z :=
  match Entity.getLapCounter a, Entity.getLapCounter b with
  | Some lapCounterA, Some lapCounterB =>
      if negb (LapCounterComponent.currentLap lapCounterA
               =? LapCounterComponent.currentLap lapCounterB)%Z
      then (LapCounterComponent.currentLap lapCounterB
            - LapCounterComponent.currentLap lapCounterA)%Z
      else if negb (LapCounterComponent.currentCheckpoint lapCounterA
                    =? LapCounterComponent.currentCheckpoint lapCounterB)%Z
      then (LapCounterComponent.currentCheckpoint lapCounterB
            - LapCounterComponent.currentCheckpoint lapCounterA)%Z
      else 0%Z
  | _, _ => 0%Z
  end.

(** [this.finishedPlayers.includes(id)] *)
Definition includes (l : list string) (entityId : string) : bool :=
  bool_decide (entityId ∈ l).

(** The racers [updateRankings] sorts: those not finished. *)
Definition activeRacers (s : St) : list Entity.t :=
  filter (fun racer => includes (finishedPlayers (self s)) (Entity.id racer) = false)
    (getEntitiesWithComponents (env s)
       [ComponentTypes.LAP_COUNTER; ComponentTypes.TRANSFORM]).

(** [updateRankings()] *)
Definition updateRankings (s : St) : St :=
  if negb (isRaceActive (self s)) || negb (bool_decide (is_Some (world (self s)))) then s
  else
    onSelf (set_playerRankings
              (finishedPlayers (self s)
               ++ map Entity.id (sort compareProgress (activeRacers s)))) s.

(** [playerFinish(entityId)] *)
Definition playerFinish (entityId : string) (s : St) : St :=
  if includes (finishedPlayers (self s)) entityId then s
  else
    let s := onSelf (fun r => set_finishedPlayers (finishedPlayers r ++ [entityId]) r) s in
    let s := updateRankings s in
    match world (self s) with
    | Some _ =>
        if (length (getEntitiesWithComponents (env s) [ComponentTypes.LAP_COUNTER])
            =? length (finishedPlayers (self s)))%nat
        then endRace s else s
    | None => s
    end.

(** [this.playerRankings.indexOf(entityId)], -1 when absent. *)
Fixpoint indexOf (l : list string) (entityId : string) : Z :=
  match l with
  | [] => (-1)%Z
  | a :: l' =>
      if bool_decide (a = entityId) then 0%Z
      else let p := indexOf l' entityId in if (p =? -1)%Z then (-1)%Z else (p + 1)%Z
  end.

(** [getPlayerPosition(entityId)] *)
Definition getPlayerPosition (self : t) (entityId : string) : Z :=
  let position := indexOf (playerRankings self) entityId in
  if (position =? -1)%Z then (Z.of_nat (length (playerRankings self)) + 1)%Z
  else (position + 1)%Z.

(** The comparator of [registerCheckpoints]: by index. *)
Definition compareIndex (a b : Entity.t) : Z :=
  match Entity.getCheckpoint a, Entity.getCheckpoint b with
  | Some checkpointA, Some checkpointB =>
      (CheckpointComponent.index checkpointA - CheckpointComponent.index checkpointB)%Z
  | _, _ => 0%Z
  end.

(** The correction of a lap counter's checkpoint count, made in
    [registerCheckpoints] and again in [checkCheckpoints]. *)
Definition correctCheckpointCount (n : nat) (lc : LapCounterComponent.t)
  : LapCounterComponent.t :=
  if negb (LapCounterComponent.totalCheckpoints lc =? Z.of_nat n)%Z && (0 <? n)%nat
  then LapCounterComponent.withTotalCheckpoints lc (Z.of_nat n)
  else lc.

(** [registerCheckpoints()] *)
Definition registerCheckpoints (s : St) : St :=
  match world (self s) with
  | None => s
  | Some _ =>
      let sorted :=
        sort compareIndex
          (getEntitiesWithComponents (env s)
             [ComponentTypes.CHECKPOINT; ComponentTypes.TRANSFORM]) in
      let s := onSelf (set_checkpoints (map Entity.id sorted)) s in
      fold_left
        (fun s racer =>
           onEnv (onLapCounter (correctCheckpointCount (length (checkpoints (self s))))
                    (Entity.id racer)) s)
        (getEntitiesWithComponents (env s) [ComponentTypes.LAP_COUNTER]) s
  end.

Section Checkpoints.

(** three.js [Vector3.distanceTo]. *)
Variable distanceTo : Vector3 -> Vector3 -> Q.

(** The body of the inner loop of [checkCheckpoints]: one racer against one
    checkpoint.  [now] stands for the clock readings of the call, and the
    entity of the checkpoint component is the entity that holds it. *)
Definition checkOne (now : Q) (racerId : string) (position : Vector3)
    (checkpoint : string) (s : St) : St :=
  match getEntity (env s) checkpoint with
  | None => s
  | Some checkpointEntity =>
      match Entity.getCheckpoint checkpointEntity with
      | None => s
      | Some checkpointComponent =>
          let '(passed, checkpointComponent) :=
            CheckpointComponent.checkVehiclePassing distanceTo now checkpointComponent
              (Entity.getTransform checkpointEntity) racerId position in
          let s := onEnv (fun e => setComponent e checkpoint (Checkpoint checkpointComponent)) s in
          if passed then
            match getEntity (env s) racerId ≫= Entity.getLapCounter with
            | None => s
            | Some lapCounter =>
                let checkpointIndex := CheckpointComponent.index checkpointComponent in
                let '(validCheckpoint, lapCounter) :=
                  LapCounterComponent.passCheckpoint lapCounter checkpointIndex now in
                let s := onEnv (fun e => setComponent e racerId (LapCounter lapCounter)) s in
                if validCheckpoint then
                  let s := emit onCheckpointPassed (CheckpointPassed racerId checkpointIndex) s in
                  if (checkpointIndex =? 0)%Z
                     && (1 <? LapCounterComponent.currentLap lapCounter)%Z then
                    let previousLap := (LapCounterComponent.currentLap lapCounter - 1)%Z in
                    let s :=
                      match find (fun lap => (LapCounterComponent.lapNumber lap =? previousLap)%Z)
                                 (LapCounterComponent.lapHistory lapCounter) with
                      | Some lapData =>
                          emit onLapCompleted
                            (LapCompleted racerId previousLap
                               (LapCounterComponent.duration lapData)) s
                      | None => s
                      end in
                    if (LapCounterComponent.totalLaps lapCounter
                        <? LapCounterComponent.currentLap lapCounter)%Z
                    then playerFinish racerId s else s
                  else s
                else s
            end
          else s
      end
  end.

(** The body of the outer loop: one racer against every checkpoint. *)
Definition checkRacer (now : Q) (racerId : string) (s : St) : St :=
  match getEntity (env s) racerId with
  | None => s
  | Some racer =>
      match Entity.getTransform racer, Entity.getLapCounter racer with
      | Some transform, Some _ =>
          let s :=
            onEnv (onLapCounter (correctCheckpointCount (length (checkpoints (self s))))
                     racerId) s in
          fold_left
            (fun s checkpoint =>
               checkOne now racerId (TransformComponent.position transform) checkpoint s)
            (checkpoints (self s)) s
      | _, _ => s
      end
  end.

(** [checkCheckpoints()] *)
Definition checkCheckpoints (now : Q) (s : St) : St :=
  if negb (isRaceActive (self s)) || negb (bool_decide (is_Some (world (self s)))) then s
  else
    fold_left (fun s racer => checkRacer now (Entity.id racer) s)
      (getEntitiesWithComponents (env s)
         [ComponentTypes.VEHICLE; ComponentTypes.TRANSFORM; ComponentTypes.LAP_COUNTER]) s.

(** [update(deltaTime)] *)
Definition update (now deltaTime : Q) (s : St) : St :=
  let s := updateCountdown now deltaTime s in
  let s := checkCheckpoints now s in
  if isRaceActive (self s) then updateRankings s else s.

End Checkpoints.

(** *** A system that was never given its world *)

(** The state [World.addSystem] leaves a new RaceSystem in, and keeps it in:
    no world, no ranking, nobody finished. *)
Definition inert (r : t) : Prop :=
  world r = None /\ playerRankings r = [] /\ finishedPlayers r = [].

Lemma addedToWorld_inert : inert (addedToWorld new).
Proof. repeat split. Qed.

Lemma emit_self (isSet : Callbacks -> bool) (n : Notification) (s : St) :
  self (emit isSet n s) = self s.
Proof. unfold emit. destruct (isSet _); reflexivity. Qed.

Lemma fold_onEnv_self {A : Type} (f : St -> A -> St) (l : list A) :
  (forall s a, self (f s a) = self s) ->
  forall s, self (fold_left f l s) = self s.
Proof.
  intros Hf. induction l as [|a l IH]; intros s; cbn; [reflexivity|].
  rewrite IH. apply Hf.
Qed.

Lemma startRace_inert (now : Q) (s : St) : inert (self s) -> inert (self (startRace now s)).
Proof.
  intros (Hw & Hr & Hf). unfold startRace.
  destruct (isRaceActive (self s)); [repeat split; assumption|].
  rewrite emit_self.
  match goal with |- inert (self (match ?w with Some _ => _ | None => ?s' end)) =>
    assert (Hs : self s' = set_finishedPlayers []
                             (set_playerRankings []
                                (set_countdownActive false (set_isRaceActive true (self s)))))
  end.
  { rewrite fold_onEnv_self; [reflexivity|].
    intros s0 a. destruct (getEntity (env s0) a ≫= Entity.getCheckpoint); reflexivity. }
  match goal with |- inert (self (match ?w with Some _ => _ | None => _ end)) =>
    assert (Hn : w = None) by (rewrite Hs; exact Hw); rewrite Hn
  end.
  rewrite Hs. repeat split; assumption.
Qed.

Lemma endRace_inert (s : St) : inert (self s) -> inert (self (endRace s)).
Proof.
  intros (Hw & Hr & Hf). unfold endRace.
  destruct (isRaceActive (self s)); cbn [negb]; [|repeat split; assumption].
  rewrite emit_self. cbn. rewrite Hw. cbn. repeat split; assumption.
Qed.

Lemma startCountdown_inert (s : St) : inert (self s) -> inert (self (startCountdown s)).
Proof.
  intros (Hw & Hr & Hf). unfold startCountdown.
  destruct (isRaceActive (self s) || countdownActive (self s)); [repeat split; assumption|].
  match goal with |- context [if ?c then _ else _] => destruct c end; cbn;
    try rewrite emit_self; cbn; repeat split; assumption.
Qed.

Lemma updateCountdown_inert (now deltaTime : Q) (s : St) :
  inert (self s) -> inert (self (updateCountdown now deltaTime s)).
Proof.
  intros H. pose proof H as (Hw & Hr & Hf). unfold updateCountdown.
  destruct (countdownActive (self s)) eqn:Hca; cbn [negb]; [|exact H].
  match goal with |- context [(?a <=? 0)%Z] => destruct (a <=? 0)%Z end.
  - cbn [self onSelf countdownActive set_countdownTimer]. rewrite Hca.
    apply startRace_inert. repeat split; assumption.
  - match goal with |- context [if negb ?c then _ else _] => destruct c end; cbn [negb].
    + repeat split; assumption.
    + cbn. rewrite emit_self. cbn. repeat split; assumption.
Qed.

Lemma update_inert (distanceTo : Vector3 -> Vector3 -> Q) (now deltaTime : Q) (s : St) :
  inert (self s) -> inert (self (update distanceTo now deltaTime s)).
Proof.
  intros H. apply (updateCountdown_inert now deltaTime) in H.
  unfold update. set (s1 := updateCountdown now deltaTime s) in *.
  destruct H as (Hw & Hr & Hf).
  assert (Hc : checkCheckpoints distanceTo now s1 = s1).
  { unfold checkCheckpoints. rewrite Hw. cbn. rewrite orb_true_r. reflexivity. }
  rewrite Hc.
  assert (Hu : updateRankings s1 = s1).
  { unfold updateRankings. rewrite Hw. cbn. rewrite orb_true_r. reflexivity. }
  rewrite Hu. destruct (isRaceActive (self s1)); repeat split; assumption.
Qed.

(** *** A system that has its world *)

Lemma compareProgress_le (a b : Entity.t) (la lb : LapCounterComponent.t) :
  Entity.getLapCounter a = Some la ->
  Entity.getLapCounter b = Some lb ->
  ((compareProgress a b <= 0)%Z
   <-> (LapCounterComponent.currentLap lb < LapCounterComponent.currentLap la)%Z
       \/ (LapCounterComponent.currentLap lb = LapCounterComponent.currentLap la
           /\ (LapCounterComponent.currentCheckpoint lb
               <= LapCounterComponent.currentCheckpoint la)%Z)).
Proof.
  intros Ha Hb. unfold compareProgress. rewrite Ha, Hb.
  destruct (Z.eqb_spec (LapCounterComponent.currentLap la) (LapCounterComponent.currentLap lb));
    cbn [negb]; [|lia].
  destruct (Z.eqb_spec (LapCounterComponent.currentCheckpoint la)
              (LapCounterComponent.currentCheckpoint lb)); cbn [negb]; lia.
Qed.

(** With the race active and a world attached, [updateRankings] puts the
    finished players first, in finish order, then the active racers by lap
    and checkpoint, descending. *)
Lemma updateRankings_attached (s : St) :
  isRaceActive (self s) = true ->
  is_Some (world (self s)) ->
  Forall (fun e => is_Some (Entity.getLapCounter e)) (activeRacers s) ->
  exists sorted : list Entity.t,
    playerRankings (self (updateRankings s)) = finishedPlayers (self s) ++ map Entity.id sorted
    /\ finishedPlayers (self (updateRankings s)) = finishedPlayers (self s)
    /\ Permutation (activeRacers s) sorted
    /\ StronglySorted (fun a b => (compareProgress a b <= 0)%Z) sorted.
Proof.
  intros Hact Hw Hlc. exists (sort compareProgress (activeRacers s)).
  unfold updateRankings. rewrite Hact. rewrite bool_decide_true by exact Hw. cbn.
  split; [reflexivity|]. split; [reflexivity|]. split; [apply sort_perm|].
  apply sort_sorted with (P := fun e => is_Some (Entity.getLapCounter e)); [| |exact Hlc].
  - intros a b [la Ha] [lb Hb].
    rewrite (compareProgress_le a b la lb Ha Hb), (compareProgress_le b a lb la Hb Ha). lia.
  - intros a b c [la Ha] [lb Hb] [lc Hc].
    rewrite (compareProgress_le a b la lb Ha Hb), (compareProgress_le b c lb lc Hb Hc),
      (compareProgress_le a c la lc Ha Hc). lia.
Qed.

Lemma endRace_finishedPlayers (s : St) :
  finishedPlayers (self (endRace s)) = finishedPlayers (self s).
Proof.
  unfold endRace. destruct (isRaceActive (self s)); cbn [negb]; [|reflexivity].
  rewrite emit_self. destruct (world _); [|reflexivity].
  rewrite fold_onEnv_self; [reflexivity|]. intros; reflexivity.
Qed.

Lemma updateRankings_finishedPlayers (s : St) :
  finishedPlayers (self (updateRankings s)) = finishedPlayers (self s).
Proof. unfold updateRankings. destruct (_ || _); reflexivity. Qed.

(** [playerFinish] appends a player at most once. *)
Lemma playerFinish_NoDup (entityId : string) (s : St) :
  NoDup (finishedPlayers (self s)) ->
  NoDup (finishedPlayers (self (playerFinish entityId s)))
  /\ entityId ∈ finishedPlayers (self (playerFinish entityId s)).
Proof.
  intros Hnd. unfold playerFinish, includes.
  case_bool_decide as Hin; [split; assumption|].
  match goal with |- context [updateRankings ?s0] => set (s1 := updateRankings s0) end.
  assert (Hf : finishedPlayers (self s1) = finishedPlayers (self s) ++ [entityId]).
  { subst s1. rewrite updateRankings_finishedPlayers. reflexivity. }
  assert (Hgoal : NoDup (finishedPlayers (self s) ++ [entityId])
                  /\ entityId ∈ finishedPlayers (self s) ++ [entityId]).
  { split; [|set_solver]. apply NoDup_app. split; [exact Hnd|].
    split; [|apply NoDup_singleton]. intros y Hy Hy'. apply list_elem_of_singleton in Hy'.
    subst y. exact (Hin Hy). }
  destruct (world (self s1)); [|rewrite Hf; exact Hgoal].
  match goal with |- context [if ?c then _ else _] => destruct c end;
    [rewrite endRace_finishedPlayers|]; rewrite Hf; exact Hgoal.
Qed.

(** *** A race of two cars on a track of two checkpoints *)

Definition at_ (px : Q) : Component :=
  Transform (TransformComponent.setPosition TransformComponent.new px 0 0).

Definition carEntity (entityId : string) (px : Q) : Entity.t :=
  Entity.addComponent
    (Entity.addComponent
       (Entity.addComponent (Entity.mk entityId ∅) (at_ px))
       (Vehicle VehicleComponent.new))
    (LapCounter (LapCounterComponent.new 3 0)).

Definition checkpointEntity (entityId : string) (index : Z) (px : Q) : Entity.t :=
  Entity.addComponent
    (Entity.addComponent (Entity.mk entityId ∅) (at_ px))
    (Checkpoint (CheckpointComponent.new index (index =? 0)%Z)).

(** Car a between the checkpoints, car b on the second one. *)
Definition track : Env :=
  {| entityObjs :=
       {[ "cp-0" := checkpointEntity "cp-0" 0 0;
          "cp-1" := checkpointEntity "cp-1" 1 100;
          "car-a" := carEntity "car-a" 50;
          "car-b" := carEntity "car-b" 100 ]};
     worldEntities := ["cp-0"; "cp-1"; "car-a"; "car-b"] |}.

(** Register the checkpoints, start the countdown, and let four frames of
    one second pass: the race starts in the third. *)
Definition raceFrom (r : t) : St :=
  let tick now s := update CheckpointComponent.axisDistance now 1 s in
  tick 4000 (tick 3000 (tick 2000 (tick 1000
    (startCountdown (registerCheckpoints {| self := r; env := track; emitted := [] |}))))).

(** C4 at the failing input: the system as [World.addSystem] leaves it.  The
    race is active and both cars are active racers, yet the ranking array is
    empty after the recomputation, and each car is told it is first. *)
Theorem rankings_empty_without_world :
  let s := raceFrom (addedToWorld new) in
  isRaceActive (self s) = true
  /\ map Entity.id (activeRacers s) = ["car-a"; "car-b"]
  /\ playerRankings (self s) = []
  /\ playerRankings (self (updateRankings s)) = []
  /\ getPlayerPosition (self s) "car-a" = 1%Z
  /\ getPlayerPosition (self s) "car-b" = 1%Z.
Proof. vm_compute. repeat split. Qed.

(** The same race by a system whose [world] was stored as the base
    [System.init] does: car b has passed a checkpoint and leads. *)
Example rankings_with_world :
  let s := raceFrom (mk false false 3 0 (-1) [] [] 3 [] (System.init theWorld)
                       (mkCallbacks false false false false false)) in
  isRaceActive (self s) = true
  /\ playerRankings (self s) = ["car-b"; "car-a"]
  /\ getPlayerPosition (self s) "car-a" = 2%Z.
Proof. vm_compute. repeat split. Qed.

(** *** Further properties of the race system *)

(** The race above, run by a system that holds its world. *)
Definition attachedRace : St :=
  raceFrom (mk false false 3 0 (-1) [] [] 3 [] (System.init theWorld)
              (mkCallbacks false false false false false)).

Lemma updateRankings_attached_witness :
  isRaceActive (self attachedRace) = true
  /\ is_Some (world (self attachedRace))
  /\ Forall (fun e => is_Some (Entity.getLapCounter e)) (activeRacers attachedRace)
  /\ exists sorted : list Entity.t,
       playerRankings (self (updateRankings attachedRace))
       = finishedPlayers (self attachedRace) ++ map Entity.id sorted
       /\ finishedPlayers (self (updateRankings attachedRace))
          = finishedPlayers (self attachedRace)
       /\ Permutation (activeRacers attachedRace) sorted
       /\ StronglySorted (fun a b => (compareProgress a b <= 0)%Z) sorted.
Proof.
  assert (Ha : isRaceActive (self attachedRace) = true) by (vm_compute; reflexivity).
  assert (Hw : is_Some (world (self attachedRace))) by (eexists; vm_compute; reflexivity).
  assert (Hl : Forall (fun e => is_Some (Entity.getLapCounter e)) (activeRacers attachedRace)).
  { apply Forall_forall. intros e He.
    assert (Hb : forallb (fun e => bool_decide (is_Some (Entity.getLapCounter e)))
                   (activeRacers attachedRace) = true) by (vm_compute; reflexivity).
    rewrite forallb_forall in Hb. apply list_elem_of_In in He.
    exact (bool_decide_eq_true_1 _ (Hb e He)). }
  split; [exact Ha|]. split; [exact Hw|]. split; [exact Hl|].
  apply (updateRankings_attached attachedRace Ha Hw Hl).
Defined.

Lemma indexOf_spec (l : list string) (entityId : string) :
  (entityId ∉ l -> indexOf l entityId = (-1)%Z)
  /\ (entityId ∈ l ->
      (0 <= indexOf l entityId < Z.of_nat (length l))%Z
      /\ l !! Z.to_nat (indexOf l entityId) = Some entityId
      /\ forall j : nat, (Z.of_nat j < indexOf l entityId)%Z -> l !! j <> Some entityId).
Proof.
  induction l as [|a l [IH1 IH2]]; cbn [indexOf].
  - split; [reflexivity|]. intros H. apply elem_of_nil in H. contradiction.
  - case_bool_decide as Ha.
    + subst a. split; [intros H; exfalso; apply H; left|].
      intros _. cbn. split; [lia|]. split; [reflexivity|]. intros j Hj. lia.
    + split.
      * intros Hn. apply not_elem_of_cons in Hn as [_ Hn]. rewrite (IH1 Hn). reflexivity.
      * intros Hin. apply elem_of_cons in Hin as [Heq|Hin]; [congruence|].
        destruct (IH2 Hin) as (Hr & Hl & Hfirst).
        destruct (Z.eqb_spec (indexOf l entityId) (-1)) as [E|E]; [lia|].
        cbn [length]. split; [lia|]. split.
        -- replace (Z.to_nat (indexOf l entityId + 1)) with (S (Z.to_nat (indexOf l entityId)))
             by lia. exact Hl.
        -- intros [|j] Hj; cbn; [congruence|]. apply Hfirst. lia.
Qed.

(** [getPlayerPosition]: an id that is not ranked gets the place after the
    last one; a ranked id gets its 1-based place in the ranking, the first
    if it occurs more than once. *)
Theorem getPlayerPosition_spec (self : t) (entityId : string) :
  (entityId ∉ playerRankings self ->
     getPlayerPosition self entityId = (Z.of_nat (length (playerRankings self)) + 1)%Z)
  /\ (entityId ∈ playerRankings self ->
      (1 <= getPlayerPosition self entityId <= Z.of_nat (length (playerRankings self)))%Z
      /\ playerRankings self !! Z.to_nat (getPlayerPosition self entityId - 1)
         = Some entityId
      /\ forall j : nat, (Z.of_nat j < getPlayerPosition self entityId - 1)%Z ->
                         playerRankings self !! j <> Some entityId).
Proof.
  unfold getPlayerPosition. destruct (indexOf_spec (playerRankings self) entityId) as [H1 H2].
  split.
  - intros Hn. rewrite (H1 Hn). reflexivity.
  - intros Hin. destruct (H2 Hin) as (Hr & Hl & Hfirst).
    destruct (Z.eqb_spec (indexOf (playerRankings self) entityId) (-1)) as [E|E]; [lia|].
    replace (indexOf (playerRankings self) entityId + 1 - 1)%Z
      with (indexOf (playerRankings self) entityId) by lia.
    split; [lia|]. split; [exact Hl|exact Hfirst].
Qed.

Lemma getPlayerPosition_spec_witness :
  "car-a" ∈ playerRankings (self attachedRace)
  /\ (1 <= getPlayerPosition (self attachedRace) "car-a"
       <= Z.of_nat (length (playerRankings (self attachedRace))))%Z.
Proof.
  assert (Hin : "car-a" ∈ playerRankings (self attachedRace)).
  { replace (playerRankings (self attachedRace)) with ["car-b"; "car-a"]
      by (vm_compute; reflexivity).
    repeat constructor. }
  split; [exact Hin|].
  destruct (getPlayerPosition_spec (self attachedRace) "car-a") as [_ H].
  exact (proj1 (H Hin)).
Defined.

(** The countdown ticks among notifications. *)
Fixpoint ticksOf (l : list Notification) : list Z :=
  match l with
  | [] => []
  | CountdownTick n :: l' => n :: ticksOf l'
  | _ :: l' => ticksOf l'
  end.

Lemma ticksOf_app (l1 l2 : list Notification) : ticksOf (l1 ++ l2) = ticksOf l1 ++ ticksOf l2.
Proof.
  induction l1 as [|n l1 IH]; [reflexivity|]. destruct n; cbn; rewrite IH; reflexivity.
Qed.

(** What a step adds to the notifications without touching the countdown. *)
Definition quiet (s s' : St) : Prop :=
  callbacks (self s') = callbacks (self s)
  /\ exists added, emitted s' = added ++ emitted s /\ ticksOf added = [].

Lemma quiet_refl (s : St) : quiet s s.
Proof. split; [reflexivity|]. exists []. split; reflexivity. Qed.

Lemma quiet_trans (s1 s2 s3 : St) : quiet s1 s2 -> quiet s2 s3 -> quiet s1 s3.
Proof.
  intros [Hc1 (a1 & He1 & Ht1)] [Hc2 (a2 & He2 & Ht2)]. split; [congruence|].
  exists (a2 ++ a1). rewrite He2, He1, app_assoc, ticksOf_app, Ht1, Ht2. split; reflexivity.
Qed.

Lemma quiet_fold {A : Type} (f : St -> A -> St) (l : list A) :
  (forall s a, quiet s (f s a)) -> forall s, quiet s (fold_left f l s).
Proof.
  intros Hf. induction l as [|a l IH]; intros s; cbn; [apply quiet_refl|].
  eapply quiet_trans; [apply Hf|apply IH].
Qed.

Lemma startRace_quiet (now : Q) (s : St) :
  quiet s (startRace now s)
  /\ (isRaceActive (self s) = false -> countdownActive (self (startRace now s)) = false).
Proof.
  unfold startRace. destruct (isRaceActive (self s)) eqn:Ha.
  { split; [apply quiet_refl|discriminate]. }
  set (s1 := onSelf _ s).
  set (s2 := fold_left _ (checkpoints (self s1)) s1).
  assert (H12 : quiet s1 s2 /\ countdownActive (self s2) = false).
  { subst s2. split.
    - apply quiet_fold. intros s0 a.
      destruct (getEntity (env s0) a ≫= Entity.getCheckpoint); [|apply quiet_refl].
      split; [reflexivity|]. exists []. split; reflexivity.
    - rewrite fold_onEnv_self; [reflexivity|].
      intros s0 a. destruct (getEntity (env s0) a ≫= Entity.getCheckpoint); reflexivity. }
  destruct H12 as [H12 Hc2].
  assert (H01 : quiet s s1).
  { subst s1. split; [reflexivity|]. exists []. split; reflexivity. }
  match goal with |- context [emit onRaceStart RaceStart ?x] => set (s3 := x) end.
  assert (H23 : quiet s2 s3 /\ countdownActive (self s3) = false).
  { subst s3. destruct (world (self s2)); [|split; [apply quiet_refl|exact Hc2]].
    match goal with |- context [fold_left ?f ?l s2] =>
      assert (Hf : forall l0 s0, quiet s0 (fold_left f l0 s0)
                                 /\ countdownActive (self (fold_left f l0 s0))
                                    = countdownActive (self s0))
    end.
    { induction l0 as [|a l0 IH]; intros s0; cbn [fold_left].
      - split; [apply quiet_refl|reflexivity].
      - destruct (IH (match getEntity (env s0) (Entity.id a) ≫= Entity.getLapCounter with
                      | Some _ =>
                          onSelf (fun r => set_playerRankings (playerRankings r ++ [Entity.id a]) r)
                            (onEnv (onLapCounter (LapCounterComponent.startRace now)
                                      (Entity.id a)) s0)
                      | None => s0
                      end)) as [IHq IHc].
        split.
        + eapply quiet_trans; [|exact IHq].
          destruct (getEntity (env s0) (Entity.id a) ≫= Entity.getLapCounter);
            [|apply quiet_refl].
          split; [reflexivity|]. exists []. split; reflexivity.
        + rewrite IHc.
          destruct (getEntity (env s0) (Entity.id a) ≫= Entity.getLapCounter); reflexivity. }
    destruct (Hf (getEntitiesWithComponents (env s2)
                    [ComponentTypes.LAP_COUNTER; ComponentTypes.VEHICLE]) s2) as [Hq Hc].
    split; [exact Hq|]. rewrite Hc. exact Hc2. }
  destruct H23 as [H23 Hc3].
  assert (H34 : quiet s3 (emit onRaceStart RaceStart s3)).
  { unfold emit. destruct (onRaceStart _); [|apply quiet_refl].
    split; [reflexivity|]. exists [RaceStart]. split; reflexivity. }
  split.
  - eapply quiet_trans; [exact H01|]. eapply quiet_trans; [exact H12|].
    eapply quiet_trans; [exact H23|exact H34].
  - intros _. rewrite emit_self. exact Hc3.
Qed.

(** The countdown over a run of frames, each a clock reading and a delta. *)
Definition countdownRun (frames : list (Q * Q)) (s : St) : St :=
  fold_left (fun s frame => updateCountdown frame.1 frame.2 s) frames s.

(** What holds during a countdown that began in a state with notifications
    [base] and callbacks [cb], with [c0] the ceiling of countdownTime. *)
Definition counting (c0 : Z) (base : list Notification) (cb : Callbacks) (s : St) : Prop :=
  exists new : list Notification,
    emitted s = new ++ base
    /\ callbacks (self s) = cb
    /\ StronglySorted Z.lt (ticksOf new)
    /\ Forall (fun t => (1 <= t <= c0)%Z) (ticksOf new)
    /\ (onCountdownTick cb = false -> ticksOf new = [])
    /\ (onCountdownTick cb = true -> (0 < c0)%Z -> last (ticksOf new) = Some c0)
    /\ (countdownActive (self s) = true ->
        (Qceiling (countdownTimer (self s)) <= c0)%Z
        /\ (onCountdownTick cb = true ->
            Forall (fun t => (lastCountdownTick (self s) <= t)%Z) (ticksOf new)
            /\ ((Qceiling (countdownTimer (self s)) <= lastCountdownTick (self s))%Z
                \/ (Qceiling (countdownTimer (self s)) <= 0)%Z))).

Lemma counting_startCountdown (s0 : St) :
  isRaceActive (self s0) = false ->
  countdownActive (self s0) = false ->
  counting (Qceiling (countdownTime (self s0))) (emitted s0) (callbacks (self s0))
    (startCountdown s0).
Proof.
  intros Ha Hc. unfold startCountdown. rewrite Ha, Hc. cbn [orb]. cbv zeta.
  cbn [self onSelf countdownTimer set_lastCountdownTick set_countdownTimer
       set_countdownActive callbacks].
  destruct (onCountdownTick (callbacks (self s0))) eqn:Hcb; cbn [andb].
  - destruct (Z.ltb_spec 0 (Qceiling (countdownTime (self s0)))) as [Hpos|Hneg].
    + unfold emit. cbn. rewrite Hcb. cbn.
      exists [CountdownTick (Qceiling (countdownTime (self s0)))]. cbn.
      split; [reflexivity|]. split; [reflexivity|].
      split; [repeat constructor|]. split; [repeat constructor; lia|].
      split; [congruence|]. split; [reflexivity|].
      intros _. split; [lia|]. intros _. split; [repeat constructor; lia|left; lia].
    + exists []. cbn. split; [reflexivity|]. split; [reflexivity|].
      split; [constructor|]. split; [constructor|]. split; [reflexivity|].
      split; [intros _ Hp; lia|].
      intros _. split; [lia|]. intros _. split; [constructor|right; exact Hneg].
  - exists []. cbn. split; [reflexivity|]. split; [reflexivity|].
    split; [constructor|]. split; [constructor|]. split; [reflexivity|].
    split; [congruence|]. intros _. split; [lia|congruence].
Qed.

Lemma counting_updateCountdown (c0 : Z) (base : list Notification) (cb : Callbacks)
    (now deltaTime : Q) (s : St) :
  0 <= deltaTime -> counting c0 base cb s -> counting c0 base cb (updateCountdown now deltaTime s).
Proof.
  intros Hdt HJ. unfold updateCountdown.
  destruct (countdownActive (self s)) eqn:Hca; cbn [negb]; [|exact HJ].
  destruct HJ as (new & He & Hcb & Hs & Hb & Hoff & Hfirst & Hact).
  destruct (Hact Hca) as [Hc0 Hon]. clear Hact.
  cbv zeta. cbn [self onSelf countdownTimer set_countdownTimer lastCountdownTick
                 countdownActive].
  assert (Hmono : (Qceiling (countdownTimer (self s) - deltaTime)
                   <= Qceiling (countdownTimer (self s)))%Z)
    by (apply Qceiling_resp_le; lra).
  set (sec := Qceiling (countdownTimer (self s) - deltaTime)) in *.
  destruct (Z.leb_spec sec 0) as [Hend|Hgo].
  - rewrite Hca.
    match goal with |- counting _ _ _ (startRace now ?x) => set (s1 := x) end.
    destruct (startRace_quiet now s1) as [[Hq1 (added & Hq2 & Hq3)] Hq4].
    assert (Hoffnow : countdownActive (self (startRace now s1)) = false).
    { destruct (isRaceActive (self s1)) eqn:Ha1; [|exact (Hq4 eq_refl)].
      unfold startRace. rewrite Ha1. reflexivity. }
    exists (added ++ new). rewrite Hq2. cbn [emitted s1 onSelf]. rewrite He, app_assoc.
    rewrite ticksOf_app, Hq3. cbn [app].
    split; [reflexivity|]. split; [rewrite Hq1; exact Hcb|].
    split; [exact Hs|]. split; [exact Hb|]. split; [exact Hoff|]. split; [exact Hfirst|].
    rewrite Hoffnow. discriminate.
  - destruct (Z.eqb_spec sec (lastCountdownTick (self s))) as [Hsame|Hnew]; cbn [negb].
    + exists new. cbn. split; [exact He|]. split; [exact Hcb|].
      split; [exact Hs|]. split; [exact Hb|]. split; [exact Hoff|]. split; [exact Hfirst|].
      intros _. fold sec. split; [lia|]. intros Hset.
      destruct (Hon Hset) as [HA HB]. split; [exact HA|left; lia].
    + unfold emit. cbn [self onSelf callbacks set_countdownTimer]. rewrite Hcb.
      destruct (onCountdownTick cb) eqn:Hset.
      * destruct (Hon eq_refl) as [HA HB].
        assert (Hlt : (sec < lastCountdownTick (self s))%Z) by lia.
        exists (CountdownTick sec :: new). cbn. rewrite He.
        split; [reflexivity|]. split; [exact Hcb|].
        split.
        { constructor; [exact Hs|]. eapply Forall_impl; [exact HA|]. cbn. intros t Ht. lia. }
        split; [constructor; [lia|exact Hb]|]. split; [intros Hf; congruence|].
        split.
        { intros _ Hp. specialize (Hfirst eq_refl Hp).
          destruct (ticksOf new) as [|t0 l0]; [discriminate|].
          rewrite last_cons_cons. exact Hfirst. }
        intros _. fold sec. split; [lia|]. intros _.
        split; [|left; lia].
        constructor; [lia|]. eapply Forall_impl; [exact HA|]. cbn. intros t Ht. lia.
      * exists new. cbn. split; [exact He|]. split; [exact Hcb|].
        split; [exact Hs|]. split; [exact Hb|].
        split; [intros _; apply Hoff; reflexivity|]. split; [intros Hf; congruence|].
        intros _. fold sec. split; [lia|intros Hf; congruence].
Qed.

(** The countdown, from [startCountdown] over any frames with non-negative
    deltas: the ticks it emits are strictly decreasing whole seconds between
    1 and the ceiling of countdownTime, none is repeated, and when the
    callback is set and countdownTime is positive the first one is that
    ceiling, emitted by [startCountdown] itself. *)
Theorem countdown_ticks (s0 : St) (frames : list (Q * Q)) :
  isRaceActive (self s0) = false ->
  countdownActive (self s0) = false ->
  Forall (fun frame => 0 <= frame.2) frames ->
  exists new : list Notification,
    emitted (countdownRun frames (startCountdown s0)) = new ++ emitted s0
    /\ StronglySorted Z.lt (ticksOf new)
    /\ Forall (fun t => (1 <= t <= Qceiling (countdownTime (self s0)))%Z) (ticksOf new)
    /\ (onCountdownTick (callbacks (self s0)) = true ->
        (0 < Qceiling (countdownTime (self s0)))%Z ->
        last (ticksOf new) = Some (Qceiling (countdownTime (self s0)))).
Proof.
  intros Ha Hc Hframes.
  pose proof (counting_startCountdown s0 Ha Hc) as HJ.
  assert (Hrun : forall fs s,
             Forall (fun frame : Q * Q => 0 <= frame.2) fs ->
             counting (Qceiling (countdownTime (self s0))) (emitted s0) (callbacks (self s0)) s ->
             counting (Qceiling (countdownTime (self s0))) (emitted s0) (callbacks (self s0))
               (countdownRun fs s)).
  { induction fs as [|[now dt] fs IH]; intros s Hfs Hs; [exact Hs|].
    apply Forall_cons in Hfs as [Hdt Hfs]. cbn. apply IH; [exact Hfs|].
    apply counting_updateCountdown; assumption. }
  destruct (Hrun frames _ Hframes HJ) as (new & He & _ & Hs & Hb & _ & Hfirst & _).
  exists new. auto.
Qed.

(** A system whose countdown callback is set, on the track above. *)
Definition listening : St :=
  {| self := set_callbacks (mkCallbacks true false true false false) new;
     env := track; emitted := [] |}.

Lemma countdown_ticks_witness :
  exists added : list Notification,
    emitted (countdownRun [(1000, 1); (2000, 1); (3000, 1); (4000, 1)]
               (startCountdown listening))
    = added ++ emitted listening
    /\ StronglySorted Z.lt (ticksOf added)
    /\ Forall (fun t => (1 <= t <= Qceiling (countdownTime (self listening)))%Z)
         (ticksOf added)
    /\ (onCountdownTick (callbacks (self listening)) = true ->
        (0 < Qceiling (countdownTime (self listening)))%Z ->
        last (ticksOf added) = Some (Qceiling (countdownTime (self listening)))).
Proof.
  apply (countdown_ticks listening [(1000, 1); (2000, 1); (3000, 1); (4000, 1)]).
  - reflexivity.
  - reflexivity.
  - repeat constructor; vm_compute; discriminate.
Defined.

(** Countdown from 3 in frames of one second: ticks 3, 2, 1, then the race
    starts and no further tick follows. *)
Example countdown_from_three :
  emitted (countdownRun [(1000, 1); (2000, 1); (3000, 1); (4000, 1)]
             (startCountdown listening))
  = [RaceStart; CountdownTick 1; CountdownTick 2; CountdownTick 3].
Proof. vm_compute. reflexivity. Qed.

End RaceSystem.

(** ** systems/NetworkSystem.ts *)
Module NetworkSystem.

Inductive NetworkMessageType :=
| TRANSFORM_UPDATE
| VEHICLE_UPDATE
| PLAYER_JOIN
| PLAYER_LEAVE
| RACE_START
| RACE_END
| CHECKPOINT_PASSED
| LAP_COMPLETED.

Record TransformData := mkTransformData {
  position : Vector3;
  rotation : Quaternion;
  scale : option Vector3
}.

Record VehicleData := mkVehicleData {
  velocity : Vector3;
  steeringAngle : Q;
  engineForce : Q;
  brakingForce : Q
}.

(** [data: any]: the two shapes the handlers cast it to, and [OtherData]
    for data with none of the fields a handler reads (the payload of a
    join, say).  Data with some of these fields and not the others is not
    represented. *)
Inductive Data :=
| TransformUpdate (d : TransformData)
| VehicleUpdate (d : VehicleData)
| OtherData.

Record NetworkMessage := mkMessage {
  type : NetworkMessageType;
  senderId : string;
  entityId : string;
  timestamp : Q;
  data : Data
}.

(** What the system does to the outside: [socket.emit(event, message)] and
    the two callbacks. *)
Inductive Effect :=
| Emit (event : string) (message : NetworkMessage)
| PlayerJoin (playerId : string)
| PlayerLeave (playerId : string).

(** The fields of the class; [socket] is whether it is non-null,
    [networkEntities] maps a network id to the entity registered under it,
    and of a callback only whether it is set. *)
Record t := mk {
  priority : Z;
  socket : bool;
  clientId : string;
  isConnected : bool;
  syncInterval : Q;
  lastSyncTime : Q;
  networkEntities : gmap string string;
  world : option WorldRef;
  onPlayerJoin : bool;
  onPlayerLeave : bool
}.

(** [new NetworkSystem()] *)
Definition new : t :=
  {| priority := -10; socket := false; clientId := ""; isConnected := false;
     syncInterval := 100; lastSyncTime := 0; networkEntities := ∅; world := None;
     onPlayerJoin := false; onPlayerLeave := false |}.

(** Assignments to single fields. *)
Definition set_socket (v : bool) (self : t) : t :=
  mk (priority self) v (clientId self) (isConnected self) (syncInterval self)
    (lastSyncTime self) (networkEntities self) (world self) (onPlayerJoin self)
    (onPlayerLeave self).

Definition set_clientId (v : string) (self : t) : t :=
  mk (priority self) (socket self) v (isConnected self) (syncInterval self)
    (lastSyncTime self) (networkEntities self) (world self) (onPlayerJoin self)
    (onPlayerLeave self).

Definition set_isConnected (v : bool) (self : t) : t :=
  mk (priority self) (socket self) (clientId self) v (syncInterval self)
    (lastSyncTime self) (networkEntities self) (world self) (onPlayerJoin self)
    (onPlayerLeave self).

Definition set_lastSyncTime (v : Q) (self : t) : t :=
  mk (priority self) (socket self) (clientId self) (isConnected self)
    (syncInterval self) v (networkEntities self) (world self) (onPlayerJoin self)
    (onPlayerLeave self).

Definition set_networkEntities (v : gmap string string) (self : t) : t :=
  mk (priority self) (socket self) (clientId self) (isConnected self)
    (syncInterval self) (lastSyncTime self) v (world self) (onPlayerJoin self)
    (onPlayerLeave self).

Definition set_world (v : option WorldRef) (self : t) : t :=
  mk (priority self) (socket self) (clientId self) (isConnected self)
    (syncInterval self) (lastSyncTime self) (networkEntities self) v (onPlayerJoin self)
    (onPlayerLeave self).

(** The system, the entity objects it reaches, its effects so far (newest
    first), and [clock]: what the calls of [performance.now()] made while a
    message is built will return, the next one first. *)
Record St := mkSt {
  self : t;
  env : Env;
  effects : list Effect;
  clock : nat -> Q
}.

Definition onSelf (f : t -> t) (s : St) : St :=
  {| self := f (self s); env := env s; effects := effects s; clock := clock s |}.

Definition onEnv (f : Env -> Env) (s : St) : St :=
  {| self := self s; env := f (env s); effects := effects s; clock := clock s |}.

Definition effect (e : Effect) (s : St) : St :=
  {| self := self s; env := env s; effects := e :: effects s; clock := clock s |}.

(** One reading of the clock is used up. *)
Definition tick (s : St) : St :=
  {| self := self s; env := env s; effects := effects s;
     clock := fun n => clock s (S n) |}.

(** [init(world)], inherited from [System]. *)
Definition init (world : WorldRef) (s : St) : St := onSelf (set_world (System.init world)) s.

(** [connect(serverUrl, clientId)]: the socket is created in place and the
    promise resolves. *)
Definition connect (serverUrl clientId : string) (s : St) : St :=
  if isConnected (self s) then s
  else onSelf (fun r => set_isConnected true (set_socket true (set_clientId clientId r))) s.

(** [disconnect()] *)
Definition disconnect (s : St) : St :=
  if negb (isConnected (self s)) || negb (socket (self s)) then s
  else onSelf (fun r => set_isConnected false (set_socket false r)) s.

(** [registerNetworkEntity(entity)] and [unregisterNetworkEntity(networkId)] *)
Definition registerNetworkEntity (entity : Entity.t) (s : St) : St :=
  match Entity.getNetworkIdentity entity with
  | Some networkIdentity =>
      onSelf (fun r => set_networkEntities
                         (<[NetworkIdentityComponent.networkId networkIdentity := Entity.id entity]>
                            (networkEntities r)) r) s
  | None => s
  end.

Definition unregisterNetworkEntity (networkId : string) (s : St) : St :=
  onSelf (fun r => set_networkEntities (delete networkId (networkEntities r)) r) s.

(** [handleTransformUpdate(message)].  The checks of lines 161-170 come
    before any access to the data.  Past them, data without a [position]
    makes the source throw at its first read, before the first write; the
    objects are then as before. *)
Definition handleTransformUpdate (message : NetworkMessage) (s : St) : St :=
  if bool_decide (senderId message = clientId (self s)) then s
  else
    match networkEntities (self s) !! entityId message with
    | None => s
    | Some entity =>
        match getEntity (env s) entity with
        | None => s
        | Some e =>
            match Entity.getNetworkIdentity e, Entity.getTransform e with
            | Some networkIdentity, Some transform =>
                if negb (NetworkIdentityComponent.isOwner networkIdentity) then
                  match data message with
                  | TransformUpdate transformData =>
                      let p := position transformData in
                      let r := rotation transformData in
                      let transform :=
                        {| TransformComponent.position :=
                             Vector3_set (TransformComponent.position transform) (x p) (y p) (z p);
                           TransformComponent.quaternion :=
                             Quaternion_set (TransformComponent.quaternion transform)
                               (qx r) (qy r) (qz r) (qw r);
                           TransformComponent.scale :=
                             match scale transformData with
                             | Some sc =>
                                 Vector3_set (TransformComponent.scale transform) (x sc) (y sc) (z sc)
                             | None => TransformComponent.scale transform
                             end |} in
                      onEnv (fun env => setComponent env entity (Transform transform)) s
                  | _ => s
                  end
                else s
            | _, _ => s
            end
        end
    end.

(** The four writes of [handleVehicleUpdate] on the vehicle. *)
Definition applyVehicleData (vehicle : VehicleComponent.t) (vehicleData : VehicleData)
  : VehicleComponent.t :=
  let v := velocity vehicleData in
  {| VehicleComponent.mass := VehicleComponent.mass vehicle;
     VehicleComponent.maxEngineForce := VehicleComponent.maxEngineForce vehicle;
     VehicleComponent.maxBrakingForce := VehicleComponent.maxBrakingForce vehicle;
     VehicleComponent.maxSteeringAngle := VehicleComponent.maxSteeringAngle vehicle;
     VehicleComponent.velocity :=
       Vector3_set (VehicleComponent.velocity vehicle) (x v) (y v) (z v);
     VehicleComponent.acceleration := VehicleComponent.acceleration vehicle;
     VehicleComponent.steeringAngle := steeringAngle vehicleData;
     VehicleComponent.engineForce := engineForce vehicleData;
     VehicleComponent.brakingForce := brakingForce vehicleData;
     VehicleComponent.wheelBase := VehicleComponent.wheelBase vehicle;
     VehicleComponent.trackWidth := VehicleComponent.trackWidth vehicle;
     VehicleComponent.drag := VehicleComponent.drag vehicle;
     VehicleComponent.rollingResistance := VehicleComponent.rollingResistance vehicle;
     VehicleComponent.throttleInput := VehicleComponent.throttleInput vehicle;
     VehicleComponent.brakeInput := VehicleComponent.brakeInput vehicle;
     VehicleComponent.steeringInput := VehicleComponent.steeringInput vehicle |}.

(** [handleVehicleUpdate(message)]; data without a [velocity] makes the
    source throw at its first read, before the first write. *)
Definition handleVehicleUpdate (message : NetworkMessage) (s : St) : St :=
  if bool_decide (senderId message = clientId (self s)) then s
  else
    match networkEntities (self s) !! entityId message with
    | None => s
    | Some entity =>
        match getEntity (env s) entity with
        | None => s
        | Some e =>
            match Entity.getNetworkIdentity e, Entity.getVehicle e with
            | Some networkIdentity, Some vehicle =>
                if negb (NetworkIdentityComponent.isOwner networkIdentity) then
                  match data message with
                  | VehicleUpdate vehicleData =>
                      onEnv (fun env => setComponent env entity
                                          (Vehicle (applyVehicleData vehicle vehicleData))) s
                  | _ => s
                  end
                else s
            | _, _ => s
            end
        end
    end.

(** [handlePlayerJoin(message)] and [handlePlayerLeave(message)] *)
Definition handlePlayerJoin (message : NetworkMessage) (s : St) : St :=
  if onPlayerJoin (self s) then effect (PlayerJoin (senderId message)) s else s.

Definition handlePlayerLeave (message : NetworkMessage) (s : St) : St :=
  if onPlayerLeave (self s) then effect (PlayerLeave (senderId message)) s else s.

(** [sendTransformUpdate(entity, networkIdentity)]; [now] is what the
    [performance.now()] of line 289 returns, a reading that is then used
    up. *)
Definition sendTransformUpdate (now : Q) (entity : Entity.t)
    (networkIdentity : NetworkIdentityComponent.t) (s : St) : St :=
  if negb (isConnected (self s)) || negb (socket (self s)) then s
  else
    match Entity.getTransform entity with
    | None => s
    | Some transform =>
        let transformData :=
          {| position := TransformComponent.position transform;
             rotation := TransformComponent.quaternion transform;
             scale := if NetworkIdentityComponent.syncScale networkIdentity
                      then Some (TransformComponent.scale transform) else None |} in
        effect (Emit "transform"
                  {| type := TRANSFORM_UPDATE;
                     senderId := clientId (self s);
                     entityId := NetworkIdentityComponent.networkId networkIdentity;
                     timestamp := now;
                     data := TransformUpdate transformData |}) (tick s)
    end.

(** [sendVehicleUpdate(entity, networkIdentity)]; [now] is the reading of
    line 323. *)
Definition sendVehicleUpdate (now : Q) (entity : Entity.t)
    (networkIdentity : NetworkIdentityComponent.t) (s : St) : St :=
  if negb (isConnected (self s)) || negb (socket (self s)) then s
  else
    match Entity.getVehicle entity with
    | None => s
    | Some vehicle =>
        let vehicleData :=
          {| velocity := VehicleComponent.velocity vehicle;
             steeringAngle := VehicleComponent.steeringAngle vehicle;
             engineForce := VehicleComponent.engineForce vehicle;
             brakingForce := VehicleComponent.brakingForce vehicle |} in
        effect (Emit "vehicle"
                  {| type := VEHICLE_UPDATE;
                     senderId := clientId (self s);
                     entityId := NetworkIdentityComponent.networkId networkIdentity;
                     timestamp := now;
                     data := VehicleUpdate vehicleData |}) (tick s)
    end.

(** The body of the loop of [update]: one entity with a network identity.
    [currentTime] is the reading [update] took at line 337; each send takes
    its own, the next of the clock. *)
Definition syncEntity (currentTime : Q) (entityId : string) (s : St) : St :=
  match getEntity (env s) entityId with
  | None => s
  | Some entity =>
      match Entity.getNetworkIdentity entity with
      | None => s
      | Some networkIdentity =>
          if NetworkIdentityComponent.isOwner networkIdentity then
            let '(due, networkIdentity) :=
              NetworkIdentityComponent.needsSync networkIdentity currentTime in
            let s := onEnv (fun env => setComponent env entityId
                                         (NetworkIdentity networkIdentity)) s in
            if due then
              let s :=
                if NetworkIdentityComponent.syncPosition networkIdentity
                   || NetworkIdentityComponent.syncRotation networkIdentity
                   || NetworkIdentityComponent.syncScale networkIdentity
                then sendTransformUpdate (clock s 0%nat) entity networkIdentity s else s in
              if NetworkIdentityComponent.syncVelocity networkIdentity
                 && Entity.hasComponent entity ComponentTypes.VEHICLE
              then sendVehicleUpdate (clock s 0%nat) entity networkIdentity s else s
            else s
          else s
      end
  end.

(** One sync pass: the loop over the world's network entities, then
    [this.lastSyncTime = currentTime]. *)
Definition syncPass (currentTime : Q) (s : St) : St :=
  let s :=
    fold_left (fun s entity => syncEntity currentTime (Entity.id entity) s)
      (getEntitiesWithComponents (env s) [ComponentTypes.NETWORK_IDENTITY]) s in
  onSelf (set_lastSyncTime currentTime) s.

(** The two early returns of [update] are not taken. *)
Definition passDue (r : t) (currentTime : Q) : bool :=
  isConnected r && bool_decide (is_Some (world r))
  && Qle_bool (syncInterval r) (currentTime - lastSyncTime r).

(** [update(deltaTime)]; [currentTime] is [performance.now()]. *)
Definition update (currentTime deltaTime : Q) (s : St) : St :=
  if negb (isConnected (self s)) || negb (bool_decide (is_Some (world (self s)))) then s
  else if negb (Qle_bool (syncInterval (self s)) (currentTime - lastSyncTime (self s))) then s
  else syncPass currentTime s.

(** What can happen to the system between and at frames.  [Outside] is any
    change the rest of the program makes to the entity objects. *)
Inductive Action :=
| Update (currentTime deltaTime : Q)
| Connect (serverUrl clientId : string)
| Disconnect
| Register (entity : Entity.t)
| Unregister (networkId : string)
| Receive (event : string) (message : NetworkMessage)
| Outside (change : Env -> Env).

Definition step (s : St) (a : Action) : St :=
  match a with
  | Update currentTime deltaTime => update currentTime deltaTime s
  | Connect serverUrl clientId => connect serverUrl clientId s
  | Disconnect => disconnect s
  | Register entity => registerNetworkEntity entity s
  | Unregister networkId => unregisterNetworkEntity networkId s
  | Receive event message =>
      if bool_decide (event = "transform") then handleTransformUpdate message s
      else if bool_decide (event = "vehicle") then handleVehicleUpdate message s
      else if bool_decide (event = "playerJoin") then handlePlayerJoin message s
      else if bool_decide (event = "playerLeave") then handlePlayerLeave message s
      else s
  | Outside change => onEnv change s
  end.

(** The times of the sync passes made over a run of actions, oldest first. *)
Fixpoint passTimes (s : St) (actions : list Action) : list Q :=
  match actions with
  | [] => []
  | a :: rest =>
      match a with
      | Update currentTime _ =>
          if passDue (self s) currentTime
          then currentTime :: passTimes (step s a) rest
          else passTimes (step s a) rest
      | _ => passTimes (step s a) rest
      end
  end.

(** *** Echo suppression *)

(** C9.  A transform or vehicle update whose senderId is the local client
    id leaves everything as it was: the system, its effects, and every
    entity object with all its components. *)
Theorem own_messages_discarded (message : NetworkMessage) (s : St) :
  senderId message = clientId (self s) ->
  handleTransformUpdate message s = s
  /\ handleVehicleUpdate message s = s
  /\ (forall entityId : string,
        getEntity (env (handleTransformUpdate message s)) entityId = getEntity (env s) entityId
        /\ getEntity (env (handleVehicleUpdate message s)) entityId = getEntity (env s) entityId).
Proof.
  intros Hself. unfold handleTransformUpdate, handleVehicleUpdate.
  rewrite !bool_decide_true by exact Hself. auto.
Qed.

(** A remote car, registered under its network id on the client of alice. *)
Definition remoteCar : Entity.t :=
  Entity.addComponent
    (Entity.addComponent
       (Entity.addComponent (Entity.mk "car-b" ∅) (Transform TransformComponent.new))
       (Vehicle VehicleComponent.new))
    (NetworkIdentity (NetworkIdentityComponent.new "net-b" "bob")).

(** The client of alice; the sends of its next pass would read 250.25,
    250.5, ... on the clock. *)
Definition client : St :=
  registerNetworkEntity remoteCar
    (connect "wss://race" "alice"
       (init theWorld
          {| self := new;
             env := {| entityObjs := {[ "car-b" := remoteCar ]};
                       worldEntities := ["car-b"] |};
             effects := [];
             clock := fun n => 250 + inject_Z (Z.of_nat (S n)) / 4 |})).

Definition moveTo (sender : string) : NetworkMessage :=
  {| type := TRANSFORM_UPDATE; senderId := sender; entityId := "net-b"; timestamp := 42;
     data := TransformUpdate
               {| position := mkVector3 7 0 9; rotation := mkQuaternion 0 0 0 1;
                  scale := None |} |}.

Lemma own_messages_discarded_witness :
  senderId (moveTo "alice") = clientId (self client)
  /\ handleTransformUpdate (moveTo "alice") client = client.
Proof.
  split; [reflexivity|].
  apply (own_messages_discarded (moveTo "alice") client). reflexivity.
Defined.

(** The same update from another sender is applied. *)
Example other_sender_applied :
  (getEntity (env (handleTransformUpdate (moveTo "bob") client)) "car-b"
     ≫= Entity.getTransform)
  = Some {| TransformComponent.position := mkVector3 7 0 9;
            TransformComponent.quaternion := mkQuaternion 0 0 0 1;
            TransformComponent.scale := mkVector3 1 1 1 |}.
Proof. vm_compute. reflexivity. Qed.

(** *** The spacing of sync passes *)

Lemma sendTransformUpdate_self (now : Q) (e : Entity.t) (n : NetworkIdentityComponent.t)
    (s : St) : self (sendTransformUpdate now e n s) = self s.
Proof. unfold sendTransformUpdate. repeat case_match; reflexivity. Qed.

Lemma sendVehicleUpdate_self (now : Q) (e : Entity.t) (n : NetworkIdentityComponent.t)
    (s : St) : self (sendVehicleUpdate now e n s) = self s.
Proof. unfold sendVehicleUpdate. repeat case_match; reflexivity. Qed.

Lemma syncEntity_self (now : Q) (entityId : string) (s : St) :
  self (syncEntity now entityId s) = self s.
Proof.
  unfold syncEntity.
  repeat case_match;
    rewrite ?sendVehicleUpdate_self, ?sendTransformUpdate_self; reflexivity.
Qed.

Lemma syncPass_self (now : Q) (s : St) :
  self (syncPass now s) = set_lastSyncTime now (self s).
Proof.
  unfold syncPass. cbn. f_equal.
  generalize (getEntitiesWithComponents (env s) [ComponentTypes.NETWORK_IDENTITY]).
  intros l. revert s. induction l as [|e l IH]; intros s; cbn; [reflexivity|].
  rewrite IH. apply syncEntity_self.
Qed.

Lemma update_due (now deltaTime : Q) (s : St) :
  passDue (self s) now = true -> update now deltaTime s = syncPass now s.
Proof.
  unfold passDue, update. intros H.
  apply andb_prop in H as [H H3]. apply andb_prop in H as [H1 H2].
  rewrite H1, H2, H3. reflexivity.
Qed.

Lemma update_not_due (now deltaTime : Q) (s : St) :
  passDue (self s) now = false -> update now deltaTime s = s.
Proof.
  unfold passDue, update. intros H.
  destruct (isConnected (self s)); cbn in *; [|reflexivity].
  destruct (bool_decide (is_Some (world (self s)))); cbn in *; [|reflexivity].
  rewrite H. reflexivity.
Qed.

(** No action changes the interval, and only a pass moves [lastSyncTime]. *)
Lemma step_syncInterval (s : St) (a : Action) :
  syncInterval (self (step s a)) = syncInterval (self s).
Proof.
  destruct a; cbn; try reflexivity.
  - destruct (passDue (self s) currentTime) eqn:E.
    + rewrite (update_due _ _ _ E), syncPass_self. reflexivity.
    + rewrite (update_not_due _ _ _ E). reflexivity.
  - unfold connect. case_match; reflexivity.
  - unfold disconnect. case_match; reflexivity.
  - unfold registerNetworkEntity. case_match; reflexivity.
  - unfold handleTransformUpdate, handleVehicleUpdate, handlePlayerJoin, handlePlayerLeave.
    repeat case_match; reflexivity.
Qed.

Lemma step_lastSyncTime (s : St) (a : Action) :
  lastSyncTime (self (step s a))
  = match a with
    | Update currentTime _ =>
        if passDue (self s) currentTime then currentTime else lastSyncTime (self s)
    | _ => lastSyncTime (self s)
    end.
Proof.
  destruct a; cbn; try reflexivity.
  - destruct (passDue (self s) currentTime) eqn:E.
    + rewrite (update_due _ _ _ E), syncPass_self. reflexivity.
    + rewrite (update_not_due _ _ _ E). reflexivity.
  - unfold connect. case_match; reflexivity.
  - unfold disconnect. case_match; reflexivity.
  - unfold registerNetworkEntity. case_match; reflexivity.
  - unfold handleTransformUpdate, handleVehicleUpdate, handlePlayerJoin, handlePlayerLeave.
    repeat case_match; reflexivity.
Qed.

Lemma passDue_elapsed (r : t) (now : Q) :
  passDue r now = true -> lastSyncTime r + syncInterval r <= now.
Proof.
  unfold passDue. intros H. apply andb_prop in H as [_ H].
  apply Qle_bool_iff in H. lra.
Qed.

Lemma passTimes_spaced (interval : Q) (actions : list Action) :
  0 <= interval ->
  forall s : St,
    syncInterval (self s) = interval ->
    StronglySorted (fun a b => a + interval <= b) (passTimes s actions)
    /\ Forall (fun t => lastSyncTime (self s) + interval <= t) (passTimes s actions).
Proof.
  intros Hi. induction actions as [|a rest IH]; intros s Hs; cbn [passTimes].
  { split; constructor. }
  destruct (IH (step s a)) as [Hsorted Hall].
  { rewrite step_syncInterval. exact Hs. }
  rewrite step_lastSyncTime in Hall.
  destruct a; try (split; assumption).
  destruct (passDue (self s) currentTime) eqn:E; [|split; assumption].
  apply passDue_elapsed in E. rewrite Hs in E.
  split.
  - constructor; assumption.
  - constructor; [exact E|].
    eapply Forall_impl; [exact Hall|]. intros t Ht. cbn in Ht. lra.
Qed.

(** C10.  On a connected system with a world and a non-negative
    syncInterval: [update] makes a sync pass exactly when currentTime -
    lastSyncTime >= syncInterval and otherwise changes nothing; a pass ends
    with lastSyncTime = currentTime whatever it sent, so that an update
    less than syncInterval later does nothing at all; and over any run of
    actions any two passes are at least syncInterval apart. *)
Theorem sync_passes_spaced (s : St) (now deltaTime : Q) (actions : list Action) :
  isConnected (self s) = true ->
  is_Some (world (self s)) ->
  0 <= syncInterval (self s) ->
  (passDue (self s) now = true <-> syncInterval (self s) <= now - lastSyncTime (self s))
  /\ (passDue (self s) now = false -> update now deltaTime s = s)
  /\ (passDue (self s) now = true ->
        update now deltaTime s = syncPass now s
        /\ lastSyncTime (self (update now deltaTime s)) = now
        /\ forall now' deltaTime' : Q,
             now' - now < syncInterval (self s) ->
             update now' deltaTime' (update now deltaTime s) = update now deltaTime s)
  /\ StronglySorted (fun a b => a + syncInterval (self s) <= b) (passTimes s actions).
Proof.
  intros Hc Hw Hi.
  split.
  { unfold passDue. rewrite Hc, (bool_decide_true _ Hw). cbn. apply Qle_bool_iff. }
  split; [apply update_not_due|].
  split; [|apply (passTimes_spaced (syncInterval (self s)) actions Hi s eq_refl)].
  intros Hdue. rewrite (update_due _ _ _ Hdue), syncPass_self.
  split; [reflexivity|]. split; [reflexivity|].
  intros now' deltaTime' Hsoon. apply update_not_due.
  rewrite syncPass_self. unfold passDue. cbn.
  destruct (Qle_bool (syncInterval (self s)) (now' - now)) eqn:E.
  - apply Qle_bool_iff in E. exfalso. lra.
  - rewrite !andb_false_r. reflexivity.
Qed.

(** The car of alice on her own client, next to the remote one. *)
Definition localCar : Entity.t :=
  Entity.addComponent
    (Entity.addComponent
       (Entity.addComponent (Entity.mk "car-a" ∅) (Transform TransformComponent.new))
       (Vehicle VehicleComponent.new))
    (NetworkIdentity
       (NetworkIdentityComponent.setAsLocalPlayer (NetworkIdentityComponent.new "net-a" "alice"))).

Definition session : St :=
  connect "wss://race" "alice"
    (init theWorld
       {| self := new;
          env := {| entityObjs := {[ "car-a" := localCar; "car-b" := remoteCar ]};
                    worldEntities := ["car-a"; "car-b"] |};
          effects := [];
          clock := fun n => 250 + inject_Z (Z.of_nat (S n)) / 4 |}).

(** The car moved: its owner marks the identity dirty. *)
Definition carMoved (e : Env) : Env :=
  match getEntity e "car-a" ≫= Entity.getNetworkIdentity with
  | Some n => setComponent e "car-a" (NetworkIdentity (NetworkIdentityComponent.markDirty n))
  | None => e
  end.

Lemma sync_passes_spaced_witness :
  isConnected (self session) = true
  /\ is_Some (world (self session))
  /\ 0 <= syncInterval (self session)
  /\ StronglySorted (fun a b => a + syncInterval (self session) <= b)
       (passTimes session
          [Update 50 (1 # 60); Update 150 (1 # 60); Outside carMoved;
           Update 200 (1 # 60); Update 249 (1 # 60); Update 250 (1 # 60)]).
Proof.
  assert (Hw : is_Some (world (self session))) by (eexists; reflexivity).
  assert (Hi : 0 <= syncInterval (self session)) by (vm_compute; discriminate).
  split; [reflexivity|]. split; [exact Hw|]. split; [exact Hi|].
  apply (sync_passes_spaced session 0 0 _ eq_refl Hw Hi).
Defined.

(** A pass at 150 finds nothing dirty and sends nothing; the car moves right
    after, and its update has to wait for the pass at 250. *)
Example empty_pass_delays_next_send :
  let run := fold_left step in
  let frame t := Update t (1 # 60) in
  passTimes session [frame 50; frame 150; Outside carMoved; frame 200; frame 249; frame 250]
  = [150; 250]
  /\ effects (run [frame 50; frame 150; Outside carMoved; frame 200; frame 249] session) = []
  /\ length (effects (run [frame 50; frame 150; Outside carMoved; frame 200; frame 249;
                           frame 250] session)) = 2%nat.
Proof. vm_compute. repeat split. Qed.

(** *** What a pass sends *)

(** An effect is a transform or vehicle update carrying the client id of
    [r], on the event of its kind. *)
Definition sentBy (r : t) (e : Effect) : Prop :=
  match e with
  | Emit event message =>
      senderId message = clientId r
      /\ match data message with
         | TransformUpdate _ => event = "transform" /\ type message = TRANSFORM_UPDATE
         | VehicleUpdate _ => event = "vehicle" /\ type message = VEHICLE_UPDATE
         | OtherData => False
         end
  | _ => False
  end.

(** The timestamp of an emitted message. *)
Definition stamp (e : Effect) : Q :=
  match e with
  | Emit _ message => timestamp message
  | _ => 0
  end.

(** [s'] is [s] with the same system and some such effects added, stamped
    in the order sent with the next readings of the clock, which are then
    used up. *)
Definition sends (s s' : St) : Prop :=
  self s' = self s
  /\ exists added : list Effect,
       effects s' = added ++ effects s
       /\ Forall (sentBy (self s)) added
       /\ map stamp (rev added) = map (clock s) (seq 0 (length added))
       /\ forall n : nat, clock s' n = clock s (length added + n)%nat.

Lemma map_seq_shift {A : Type} (f g : nat -> A) (k m : nat) :
  (forall n : nat, g n = f (k + n)%nat) ->
  forall j : nat, map g (seq j m) = map f (seq (k + j) m).
Proof.
  intros H. induction m as [|m IH]; intros j; [reflexivity|].
  cbn [seq map]. rewrite H. f_equal.
  rewrite IH, Nat.add_succ_r. reflexivity.
Qed.

Lemma sends_refl (s : St) : sends s s.
Proof.
  split; [reflexivity|]. exists []. split; [reflexivity|]. split; [constructor|].
  split; reflexivity.
Qed.

Lemma sends_trans (s1 s2 s3 : St) : sends s1 s2 -> sends s2 s3 -> sends s1 s3.
Proof.
  intros [H1 (a & Ha & Fa & Ta & Ca)] [H2 (b & Hb & Fb & Tb & Cb)]. split; [congruence|].
  exists (b ++ a). rewrite Hb, Ha, app_assoc. split; [reflexivity|].
  split; [apply Forall_app; split; [rewrite <- H1; exact Fb|exact Fa]|].
  split.
  - rewrite rev_app_distr, map_app, Ta, Tb, length_app, (Nat.add_comm (length b)), seq_app.
    rewrite map_app. f_equal. cbn [Nat.add].
    exact (eq_trans (map_seq_shift (clock s1) (clock s2) (length a) (length b) Ca 0%nat)
             (f_equal (fun k => map (clock s1) (seq k (length b))) (Nat.add_0_r (length a)))).
  - intros n. rewrite Cb, Ca, length_app. f_equal. lia.
Qed.

Lemma sendTransformUpdate_sends (e : Entity.t) (n : NetworkIdentityComponent.t) (s : St) :
  sends s (sendTransformUpdate (clock s 0%nat) e n s).
Proof.
  unfold sendTransformUpdate.
  destruct (_ || _); [apply sends_refl|].
  destruct (Entity.getTransform e) as [transform|]; [|apply sends_refl].
  split; [reflexivity|]. eexists [_]. split; [reflexivity|].
  split; [constructor; [|constructor]; cbn; repeat split|].
  split; reflexivity.
Qed.

Lemma sendVehicleUpdate_sends (e : Entity.t) (n : NetworkIdentityComponent.t) (s : St) :
  sends s (sendVehicleUpdate (clock s 0%nat) e n s).
Proof.
  unfold sendVehicleUpdate.
  destruct (_ || _); [apply sends_refl|].
  destruct (Entity.getVehicle e) as [vehicle|]; [|apply sends_refl].
  split; [reflexivity|]. eexists [_]. split; [reflexivity|].
  split; [constructor; [|constructor]; cbn; repeat split|].
  split; reflexivity.
Qed.

Lemma syncEntity_sends (now : Q) (entityId : string) (s : St) :
  sends s (syncEntity now entityId s).
Proof.
  unfold syncEntity.
  destruct (getEntity (env s) entityId) as [entity|]; [|apply sends_refl].
  destruct (Entity.getNetworkIdentity entity) as [n|]; [|apply sends_refl].
  destruct (NetworkIdentityComponent.isOwner n); [|apply sends_refl].
  destruct (NetworkIdentityComponent.needsSync n now) as [due n'].
  set (s1 := onEnv (fun env => setComponent env entityId (NetworkIdentity n')) s).
  assert (H1 : sends s s1).
  { split; [reflexivity|]. exists []. split; [reflexivity|]. split; [constructor|].
    split; reflexivity. }
  destruct due; [|exact H1].
  cbv zeta. eapply sends_trans; [exact H1|].
  repeat case_match;
    first [ apply sends_refl
          | apply sendTransformUpdate_sends
          | apply sendVehicleUpdate_sends
          | (eapply sends_trans;
             [apply sendTransformUpdate_sends|apply sendVehicleUpdate_sends]) ].
Qed.

Lemma syncEntities_sends (now : Q) (entities : list Entity.t) (s : St) :
  sends s (fold_left (fun s entity => syncEntity now (Entity.id entity) s) entities s).
Proof.
  revert s. induction entities as [|e l IH]; intros s; cbn [fold_left]; [apply sends_refl|].
  eapply sends_trans; [apply syncEntity_sends|apply IH].
Qed.

(** Whatever [update] sends is a transform or vehicle update on the event
    of its kind, carrying the client's own id as senderId and, as
    timestamp, a reading of [performance.now()] of its own: the k-th
    message of the pass has the k-th reading, and the pass uses up as many
    readings as it sends messages.  Nothing else is emitted and no earlier
    effect is lost.  Were such a message delivered back to this client,
    its handlers would drop it. *)
Theorem update_sends_as_self (now deltaTime : Q) (s : St) :
  exists added : list Effect,
    effects (update now deltaTime s) = added ++ effects s
    /\ Forall (sentBy (self s)) added
    /\ map stamp (rev added) = map (clock s) (seq 0 (length added))
    /\ (forall n : nat, clock (update now deltaTime s) n = clock s (length added + n)%nat)
    /\ forall (event : string) (message : NetworkMessage),
         Emit event message ∈ added ->
         step (update now deltaTime s) (Receive event message) = update now deltaTime s.
Proof.
  assert (H : clientId (self (update now deltaTime s)) = clientId (self s)
              /\ exists added : list Effect,
                   effects (update now deltaTime s) = added ++ effects s
                   /\ Forall (sentBy (self s)) added
                   /\ map stamp (rev added) = map (clock s) (seq 0 (length added))
                   /\ forall n : nat,
                        clock (update now deltaTime s) n = clock s (length added + n)%nat).
  { destruct (passDue (self s) now) eqn:E.
    - rewrite (update_due _ _ _ E), syncPass_self. split; [reflexivity|].
      unfold syncPass. cbn [effects clock onSelf].
      destruct (syncEntities_sends now
                  (getEntitiesWithComponents (env s) [ComponentTypes.NETWORK_IDENTITY]) s)
        as [_ Hs]. exact Hs.
    - rewrite (update_not_due _ _ _ E). split; [reflexivity|].
      exists []. split; [reflexivity|]. split; [constructor|]. split; reflexivity. }
  destruct H as [Hid (added & He & Hall & Hst & Hcl)].
  exists added. split; [exact He|]. split; [exact Hall|].
  split; [exact Hst|]. split; [exact Hcl|].
  intros event message Hin.
  pose proof (proj1 (Forall_forall _ _) Hall _ Hin) as Hm. cbn in Hm.
  destruct Hm as (Hsender & Hkind).
  cbn [step]. unfold handleTransformUpdate, handleVehicleUpdate.
  rewrite !(bool_decide_true (senderId message = _)) by congruence.
  destruct (data message); [| |contradiction]; destruct Hkind as [-> _];
    repeat case_bool_decide; first [reflexivity|discriminate|congruence].
Qed.

(** The car of alice moved and a pass is due at 150: a transform and a
    vehicle update go out, stamped with the two readings that follow. *)
Definition moved : St :=
  {| self := self session; env := carMoved (env session); effects := [];
     clock := fun n => 150 + inject_Z (Z.of_nat (S n)) / 4 |}.

Lemma update_sends_as_self_witness :
  map stamp (rev (effects (update 150 (1 # 60) moved))) = [clock moved 0%nat; clock moved 1%nat]
  /\ exists added : list Effect,
       effects (update 150 (1 # 60) moved) = added ++ effects moved
       /\ Forall (sentBy (self moved)) added
       /\ map stamp (rev added) = map (clock moved) (seq 0 (length added))
       /\ (forall n : nat,
             clock (update 150 (1 # 60) moved) n = clock moved (length added + n)%nat)
       /\ forall (event : string) (message : NetworkMessage),
            Emit event message ∈ added ->
            step (update 150 (1 # 60) moved) (Receive event message)
            = update 150 (1 # 60) moved.
Proof.
  split; [vm_compute; reflexivity|].
  apply (update_sends_as_self 150 (1 # 60) moved).
Defined.

(** *** The socket and the connected flag *)

Lemma step_socket (s : St) (a : Action) :
  isConnected (self s) = socket (self s) ->
  isConnected (self (step s a)) = socket (self (step s a)).
Proof.
  intros H. destruct a; cbn [step].
  - destruct (passDue (self s) currentTime) eqn:E.
    + rewrite (update_due _ _ _ E), syncPass_self. exact H.
    + rewrite (update_not_due _ _ _ E). exact H.
  - unfold connect. case_match; [congruence|reflexivity].
  - unfold disconnect. case_match; [congruence|reflexivity].
  - unfold registerNetworkEntity. case_match; exact H.
  - exact H.
  - unfold handleTransformUpdate, handleVehicleUpdate, handlePlayerJoin, handlePlayerLeave.
    repeat case_match; exact H.
  - exact H.
Qed.

(** The socket is non-null exactly while the system is connected, whatever
    is done to the system: the [!this.socket] half of the guards of
    [disconnect] and of the two sends never decides anything.  So on a
    connected system an owned entity with a transform always has its update
    emitted by [sendTransformUpdate], and [disconnect] always disconnects. *)
Theorem socket_iff_connected (s : St) (actions : list Action) :
  isConnected (self s) = socket (self s) ->
  let s' := fold_left step actions s in
  isConnected (self s') = socket (self s')
  /\ isConnected (self (disconnect s')) = false
  /\ forall (now : Q) (entity : Entity.t) (n : NetworkIdentityComponent.t),
       isConnected (self s') = true ->
       is_Some (Entity.getTransform entity) ->
       exists message : NetworkMessage,
         effects (sendTransformUpdate now entity n s') = Emit "transform" message :: effects s'
         /\ entityId message = NetworkIdentityComponent.networkId n.
Proof.
  intros H s'.
  assert (Hs' : isConnected (self s') = socket (self s')).
  { subst s'. revert s H. induction actions as [|a l IH]; intros s H; [exact H|].
    cbn [fold_left]. apply IH, step_socket, H. }
  split; [exact Hs'|]. split.
  - unfold disconnect. rewrite <- Hs'.
    destruct (isConnected (self s')) eqn:E; cbn; [reflexivity|exact E].
  - intros now entity n Hc [tr Htr]. unfold sendTransformUpdate.
    rewrite <- Hs', Hc, Htr. cbn. eexists. split; reflexivity.
Qed.

Lemma socket_iff_connected_witness :
  isConnected (self session) = socket (self session)
  /\ isConnected
       (self (fold_left step
                [Update 150 (1 # 60); Disconnect; Connect "wss://race" "alice";
                 Receive "transform" (moveTo "bob")] session))
     = socket
         (self (fold_left step
                  [Update 150 (1 # 60); Disconnect; Connect "wss://race" "alice";
                   Receive "transform" (moveTo "bob")] session)).
Proof.
  split; [reflexivity|].
  apply (socket_iff_connected session
           [Update 150 (1 # 60); Disconnect; Connect "wss://race" "alice";
            Receive "transform" (moveTo "bob")]).
  reflexivity.
Defined.

(** *** What a received update may change *)






(** *** The registry of network entities *)

(** An entity with a network identity is registered under the identity's
    networkId, replacing whatever was registered under it, and leaving the
    other ids alone; once the id is unregistered, updates addressed to it
    are dropped. *)
Theorem registry_lifecycle (entity : Entity.t) (n : NetworkIdentityComponent.t)
    (message : NetworkMessage) (s : St) :
  Entity.getNetworkIdentity entity = Some n ->
  entityId message = NetworkIdentityComponent.networkId n ->
  let registered := registerNetworkEntity entity s in
  let removed := unregisterNetworkEntity (NetworkIdentityComponent.networkId n) registered in
  networkEntities (self registered) !! NetworkIdentityComponent.networkId n
  = Some (Entity.id entity)
  /\ (forall other : string,
        other <> NetworkIdentityComponent.networkId n ->
        networkEntities (self registered) !! other = networkEntities (self s) !! other
        /\ networkEntities (self removed) !! other = networkEntities (self s) !! other)
  /\ networkEntities (self removed) !! NetworkIdentityComponent.networkId n = None
  /\ handleTransformUpdate message removed = removed
  /\ handleVehicleUpdate message removed = removed.
Proof.
  intros Hn Hm registered removed.
  assert (Hreg : networkEntities (self registered)
                 = <[NetworkIdentityComponent.networkId n := Entity.id entity]>
                     (networkEntities (self s))).
  { subst registered. unfold registerNetworkEntity. rewrite Hn. reflexivity. }
  assert (Hrem : networkEntities (self removed)
                 = delete (NetworkIdentityComponent.networkId n)
                     (networkEntities (self registered))) by reflexivity.
  assert (Hnone : networkEntities (self removed) !! NetworkIdentityComponent.networkId n
                  = None) by (rewrite Hrem; apply lookup_delete_eq).
  split; [rewrite Hreg; apply lookup_insert_eq|].
  split.
  { intros other Hne. rewrite Hrem, lookup_delete_ne by congruence.
    rewrite Hreg, lookup_insert_ne by congruence. auto. }
  split; [exact Hnone|].
  unfold handleTransformUpdate, handleVehicleUpdate. rewrite Hm, Hnone.
  split; case_bool_decide; reflexivity.
Qed.

Lemma registry_lifecycle_witness :
  Entity.getNetworkIdentity remoteCar = Some (NetworkIdentityComponent.new "net-b" "bob")
  /\ entityId (moveTo "bob") = "net-b"
  /\ handleTransformUpdate (moveTo "bob")
       (unregisterNetworkEntity "net-b" (registerNetworkEntity remoteCar client))
     = unregisterNetworkEntity "net-b" (registerNetworkEntity remoteCar client).
Proof.
  split; [reflexivity|]. split; [reflexivity|].
  destruct (registry_lifecycle remoteCar (NetworkIdentityComponent.new "net-b" "bob")
              (moveTo "bob") client eq_refl eq_refl) as (_ & _ & _ & H & _).
  exact H.
Defined.

End NetworkSystem.

(** ** core/World.ts: the entity registry and the systems

    [entities] is the [Map<string, Entity>] in insertion order,
    [entitiesToRemove] the [Set<string>] in insertion order. *)

Module WorldRegistry.

(** [Map.prototype.set]: an existing key keeps its place. *)
Fixpoint mapSet (k : string) (v : Entity.t) (m : list (string * Entity.t))
  : list (string * Entity.t) :=
  match m with
  | [] => [(k, v)]
  | (k', v') :: m' => if decide (k' = k) then (k, v) :: m' else (k', v') :: mapSet k v m'
  end.

Fixpoint mapGet (k : string) (m : list (string * Entity.t)) : option Entity.t :=
  match m with
  | [] => None
  | (k', v') :: m' => if decide (k' = k) then Some v' else mapGet k m'
  end.

Fixpoint mapDelete (k : string) (m : list (string * Entity.t)) : list (string * Entity.t) :=
  match m with
  | [] => []
  | (k', v') :: m' => if decide (k' = k) then m' else (k', v') :: mapDelete k m'
  end.

(** [Set.prototype.add] *)
Definition setAdd (k : string) (l : list string) : list string :=
  if decide (k ∈ l) then l else l ++ [k].

Section Systems.

(** A system object: its [priority], and what its own [init] makes of it. *)
Context {SystemT : Type}.
Variable priority : SystemT -> Z.
Variable init : SystemT -> WorldRef -> SystemT.

Record t := mk {
  entities : list (string * Entity.t);
  systems : list SystemT;
  entitiesToAdd : list Entity.t;
  entitiesToRemove : list string
}.

(** [new World()] *)
Definition new : t :=
  {| entities := []; systems := []; entitiesToAdd := []; entitiesToRemove := [] |}.

(** [addEntity(entity)], [removeEntity(entityId)], [getEntity(entityId)] *)
Definition addEntity (w : t) (entity : Entity.t) : t :=
  {| entities := entities w; systems := systems w;
     entitiesToAdd := entitiesToAdd w ++ [entity];
     entitiesToRemove := entitiesToRemove w |}.

Definition removeEntity (w : t) (entityId : string) : t :=
  {| entities := entities w; systems := systems w;
     entitiesToAdd := entitiesToAdd w;
     entitiesToRemove := setAdd entityId (entitiesToRemove w) |}.

Definition getEntity (w : t) (entityId : string) : option Entity.t :=
  mapGet entityId (entities w).

(** [addSystem(system)]:
    [system.init(this); this.systems.push(system);
     this.systems.sort((a, b) => a.priority - b.priority)] *)
Definition addSystem (w : t) (system : SystemT) : t :=
  {| entities := entities w;
     systems := sort (fun a b => (priority a - priority b)%Z)
                     (systems w ++ [init system theWorld]);
     entitiesToAdd := entitiesToAdd w;
     entitiesToRemove := entitiesToRemove w |}.

(** The two loops of [processEntityQueue]. *)
Definition addAll (toAdd : list Entity.t) (m : list (string * Entity.t))
  : list (string * Entity.t) :=
  fold_left (fun m entity => mapSet (Entity.id entity) entity m) toAdd m.

(** The entities the second loop finds and deletes, in the order it meets
    them.  Each of their components gets [onRemove()]. *)
Fixpoint removeAll (toRemove : list string) (m : list (string * Entity.t))
  : list (string * Entity.t) * list Entity.t :=
  match toRemove with
  | [] => (m, [])
  | entityId :: rest =>
      match mapGet entityId m with
      | Some entity =>
          let '(m', removed) := removeAll rest (mapDelete entityId m) in
          (m', entity :: removed)
      | None => removeAll rest m
      end
  end.

(** [processEntityQueue()]: the world afterwards and the entities whose
    components were notified. *)
Definition processEntityQueue (w : t) : t * list Entity.t :=
  let '(m, removed) := removeAll (entitiesToRemove w) (addAll (entitiesToAdd w) (entities w)) in
  ({| entities := m; systems := systems w; entitiesToAdd := []; entitiesToRemove := [] |},
   removed).

(** [getAllEntities()] and [getEntitiesWithComponents(componentTypes)] *)
Definition getAllEntities (w : t) : list Entity.t := map snd (entities w).

Definition getEntitiesWithComponents (w : t) (componentTypes : list string)
  : list Entity.t :=
  filter (fun e => forallb (Entity.hasComponent e) componentTypes = true)
         (getAllEntities w).

End Systems.

Arguments t : clear implicits.

(** *** The map operations *)

Lemma mapGet_mapSet (k k' : string) (v : Entity.t) (m : list (string * Entity.t)) :
  mapGet k' (mapSet k v m) = if decide (k = k') then Some v else mapGet k' m.
Proof.
  induction m as [|[k0 v0] m IH]; cbn.
  - repeat case_decide; congruence.
  - destruct (decide (k0 = k)) as [->|Hne]; cbn.
    + repeat case_decide; congruence.
    + rewrite IH. repeat case_decide; congruence.
Qed.

Lemma mapGet_None (k : string) (m : list (string * Entity.t)) :
  mapGet k m = None <-> k ∉ map fst m.
Proof.
  induction m as [|[k0 v0] m IH]; cbn.
  - split; [intros _; apply not_elem_of_nil|reflexivity].
  - rewrite not_elem_of_cons. case_decide as Hk.
    + split; [discriminate|intros [Hne _]; congruence].
    + rewrite IH. split; [intros H; split; [congruence|exact H]|intros [_ H]; exact H].
Qed.

Lemma mapDelete_fst (k : string) (m : list (string * Entity.t)) :
  NoDup (map fst m) ->
  NoDup (map fst (mapDelete k m))
  /\ forall k', k' ∈ map fst (mapDelete k m) <-> k' ≠ k /\ k' ∈ map fst m.
Proof.
  induction m as [|[k0 v0] m IH]; cbn; intros Hnd.
  - split; [constructor|]. intros k'. rewrite elem_of_nil. tauto.
  - apply NoDup_cons in Hnd as [Hk0 Hnd]. destruct (decide (k0 = k)) as [->|Hne].
    + split; [exact Hnd|]. intros k'. rewrite elem_of_cons.
      split; [intros H; split; [intros ->; contradiction|auto]|intros [H1 [H2|H2]]; congruence].
    + destruct (IH Hnd) as [IH1 IH2]. cbn. split.
      * apply NoDup_cons. split; [|exact IH1]. rewrite IH2. tauto.
      * intros k'. rewrite !elem_of_cons, IH2.
        split; [intros [->|[H1 H2]]; auto|intros [H1 [H2|H2]]; auto].
Qed.

Lemma mapGet_mapDelete (k k' : string) (m : list (string * Entity.t)) :
  NoDup (map fst m) ->
  mapGet k' (mapDelete k m) = if decide (k = k') then None else mapGet k' m.
Proof.
  induction m as [|[k0 v0] m IH]; cbn; intros Hnd.
  - case_decide; reflexivity.
  - apply NoDup_cons in Hnd as [Hk0 Hnd].
    destruct (decide (k0 = k)) as [->|Hne]; cbn.
    + destruct (decide (k = k')) as [<-|Hne']; [|reflexivity].
      apply mapGet_None. exact Hk0.
    + rewrite (IH Hnd). repeat case_decide; congruence.
Qed.

Lemma mapSet_fst (k : string) (v : Entity.t) (m : list (string * Entity.t)) :
  NoDup (map fst m) -> NoDup (map fst (mapSet k v m)).
Proof.
  induction m as [|[k0 v0] m IH]; cbn; intros Hnd.
  - apply NoDup_singleton.
  - apply NoDup_cons in Hnd as [Hk0 Hnd]. destruct (decide (k0 = k)) as [->|Hne]; cbn.
    + apply NoDup_cons. auto.
    + apply NoDup_cons. split; [|apply IH; exact Hnd].
      apply mapGet_None. rewrite mapGet_mapSet.
      rewrite decide_False by congruence. apply mapGet_None. exact Hk0.
Qed.

Lemma addAll_fst (toAdd : list Entity.t) :
  forall m, NoDup (map fst m) -> NoDup (map fst (addAll toAdd m)).
Proof.
  induction toAdd as [|e toAdd IH]; intros m Hnd; cbn; [exact Hnd|].
  apply IH. apply mapSet_fst. exact Hnd.
Qed.

(** After the first loop a key holds the last entity queued under it, or
    what it held before. *)
Lemma mapGet_addAll (k : string) (toAdd : list Entity.t) :
  forall m,
    mapGet k (addAll toAdd m)
    = match last (filter (fun e => Entity.id e = k) toAdd) with
      | Some e => Some e
      | None => mapGet k m
      end.
Proof.
  unfold addAll. induction toAdd as [|e toAdd IH]; intros m; [reflexivity|].
  cbn [fold_left]. rewrite IH, mapGet_mapSet. rewrite filter_cons.
  destruct (decide (Entity.id e = k)) as [Hk|Hk]; [|reflexivity].
  destruct (filter _ toAdd) as [|e' l]; [reflexivity|].
  rewrite last_cons_cons. destruct (last (e' :: l)) eqn:El; [reflexivity|].
  apply last_None in El. discriminate.
Qed.

Lemma removeAll_spec (toRemove : list string) :
  forall m, NoDup (map fst m) ->
    NoDup (map fst (removeAll toRemove m).1)
    /\ forall k, mapGet k (removeAll toRemove m).1
                 = if decide (k ∈ toRemove) then None else mapGet k m.
Proof.
  induction toRemove as [|r rest IH]; intros m Hnd; cbn.
  - split; [exact Hnd|]. intros k. rewrite decide_False by apply not_elem_of_nil. reflexivity.
  - destruct (mapGet r m) as [e|] eqn:Er.
    + destruct (mapDelete_fst r m Hnd) as [Hnd' _].
      destruct (IH (mapDelete r m) Hnd') as [IH1 IH2].
      destruct (removeAll rest (mapDelete r m)) as [m' removed]. cbn in *.
      split; [exact IH1|]. intros k. rewrite IH2, (mapGet_mapDelete r k m Hnd).
      destruct (decide (k ∈ rest)) as [Hin|Hnin].
      * rewrite decide_True by (apply elem_of_cons; auto). reflexivity.
      * destruct (decide (r = k)) as [->|Hne].
        -- rewrite decide_True by (apply elem_of_cons; auto). reflexivity.
        -- rewrite decide_False; [reflexivity|].
           rewrite elem_of_cons. intros [->|Hin]; [apply Hne; reflexivity|exact (Hnin Hin)].
    + destruct (IH m Hnd) as [IH1 IH2]. split; [exact IH1|].
      intros k. rewrite IH2.
      destruct (decide (k ∈ rest)) as [Hin|Hnin].
      * rewrite decide_True by (apply elem_of_cons; auto). reflexivity.
      * destruct (decide (k = r)) as [->|Hne].
        -- rewrite decide_True by (apply elem_of_cons; auto). exact Er.
        -- rewrite decide_False; [reflexivity|].
           rewrite elem_of_cons. intros [->|Hin]; [apply Hne; reflexivity|exact (Hnin Hin)].
Qed.

(** *** What the registry guarantees *)

(** What a [Map] and a [Set] give for free: keys and queued ids are unique. *)
Definition wellFormed {SystemT : Type} (w : t SystemT) : Prop :=
  NoDup (map fst (entities w)) /\ NoDup (entitiesToRemove w).

Lemma setAdd_NoDup (k : string) (l : list string) : NoDup l -> NoDup (setAdd k l).
Proof.
  intros Hnd. unfold setAdd. case_decide as Hin; [exact Hnd|].
  apply NoDup_app. split; [exact Hnd|]. split; [|apply NoDup_singleton].
  intros y Hy Hy'. apply list_elem_of_singleton in Hy'. subst. exact (Hin Hy).
Qed.

Lemma elem_of_setAdd (k k' : string) (l : list string) : k' ∈ setAdd k l <-> k' = k \/ k' ∈ l.
Proof.
  unfold setAdd. case_decide as Hin.
  - split; [auto|intros [->|H]; assumption].
  - rewrite elem_of_app, list_elem_of_singleton. tauto.
Qed.

(** The invariant holds at the start and every operation keeps it. *)
Lemma wellFormed_kept {SystemT : Type} (priority : SystemT -> Z)
    (init : SystemT -> WorldRef -> SystemT) (w : t SystemT) :
  wellFormed (@new SystemT)
  /\ (wellFormed w ->
      (forall e, wellFormed (addEntity w e))
      /\ (forall k, wellFormed (removeEntity w k))
      /\ (forall sys, wellFormed (addSystem priority init w sys))
      /\ wellFormed (processEntityQueue w).1).
Proof.
  split; [split; constructor|]. intros [Hk Hr].
  split; [intros e; split; assumption|].
  split; [intros k; split; [assumption|apply setAdd_NoDup; exact Hr]|].
  split; [intros sys; split; assumption|].
  unfold processEntityQueue.
  pose proof (removeAll_spec (entitiesToRemove w) _ (addAll_fst (entitiesToAdd w) _ Hk)) as [H _].
  destruct (removeAll _ _) as [m removed]. split; [exact H|constructor].
Qed.

Lemma getEntity_processEntityQueue {SystemT : Type} (w : t SystemT) (k : string) :
  wellFormed w ->
  getEntity (processEntityQueue w).1 k
  = if decide (k ∈ entitiesToRemove w) then None
    else match last (filter (fun e => Entity.id e = k) (entitiesToAdd w)) with
         | Some e => Some e
         | None => getEntity w k
         end.
Proof.
  intros [Hk Hr]. unfold processEntityQueue, getEntity.
  pose proof (removeAll_spec (entitiesToRemove w) _ (addAll_fst (entitiesToAdd w) _ Hk)) as [_ H].
  destruct (removeAll _ _) as [m removed]. cbn in *.
  rewrite H, mapGet_addAll. reflexivity.
Qed.

(** The state of every key after the drain: gone if its removal was queued,
    else the last entity queued under it, else what it held. *)
Theorem processEntityQueue_lookup {SystemT : Type} (w : t SystemT) (k : string) :
  wellFormed w ->
  getEntity (processEntityQueue w).1 k
  = if decide (k ∈ entitiesToRemove w) then None
    else match last (filter (fun e => Entity.id e = k) (entitiesToAdd w)) with
         | Some e => Some e
         | None => getEntity w k
         end.
Proof. apply getEntity_processEntityQueue. Qed.

Lemma processEntityQueue_lookup_witness :
  getEntity (processEntityQueue
               (removeEntity (addEntity (@new unit) (Entity.mk "car" ∅)) "ghost")).1 "car"
  = Some (Entity.mk "car" ∅).
Proof.
  rewrite (processEntityQueue_lookup
             (removeEntity (addEntity (@new unit) (Entity.mk "car" ∅)) "ghost") "car").
  - reflexivity.
  - split; [apply NoDup_nil_2|apply NoDup_singleton].
Defined.

(** Adding is deferred: the entity cannot be looked up before the next
    drain, and can after it unless its removal is queued too. *)
Theorem addEntity_deferred {SystemT : Type} (w : t SystemT) (e : Entity.t) :
  wellFormed w ->
  getEntity (addEntity w e) (Entity.id e) = getEntity w (Entity.id e)
  /\ getEntity (processEntityQueue (addEntity w e)).1 (Entity.id e)
     = if decide (Entity.id e ∈ entitiesToRemove w) then None else Some e.
Proof.
  intros Hwf. split; [reflexivity|].
  rewrite getEntity_processEntityQueue by (destruct Hwf; split; assumption).
  cbn [entitiesToRemove entitiesToAdd addEntity].
  case_decide; [reflexivity|].
  rewrite filter_app, filter_cons, decide_True, filter_nil by reflexivity.
  rewrite last_snoc. reflexivity.
Qed.

Lemma addEntity_deferred_witness :
  getEntity (addEntity (@new unit) (Entity.mk "car" ∅)) "car" = getEntity (@new unit) "car"
  /\ getEntity (processEntityQueue (addEntity (@new unit) (Entity.mk "car" ∅))).1 "car"
     = if decide ("car" ∈ entitiesToRemove (@new unit)) then None
       else Some (Entity.mk "car" ∅).
Proof.
  apply (addEntity_deferred (@new unit) (Entity.mk "car" ∅)). split; constructor.
Defined.

(** Removal wins: once [removeEntity(id)] was called the entity is absent
    after the drain, whether it was in the world, was queued for adding
    before the call, or is queued after it. *)
Theorem removeEntity_wins {SystemT : Type} (w : t SystemT) (k : string)
    (later : list Entity.t) :
  wellFormed w ->
  getEntity (processEntityQueue (fold_left addEntity later (removeEntity w k))).1 k = None.
Proof.
  intros [Hk Hr].
  assert (Hq : forall l (w0 : t SystemT),
             entitiesToRemove (fold_left addEntity l w0) = entitiesToRemove w0
             /\ entities (fold_left addEntity l w0) = entities w0).
  { induction l as [|e l IH]; intros w0; cbn; [auto|]. destruct (IH (addEntity w0 e)); auto. }
  destruct (Hq later (removeEntity w k)) as [Hq1 Hq2].
  rewrite getEntity_processEntityQueue.
  - rewrite Hq1. cbn. rewrite decide_True; [reflexivity|]. apply elem_of_setAdd. auto.
  - split; [rewrite Hq2; exact Hk|rewrite Hq1; apply setAdd_NoDup; exact Hr].
Qed.

Lemma removeEntity_wins_witness :
  getEntity (processEntityQueue
               (fold_left addEntity [Entity.mk "car" ∅]
                  (removeEntity (addEntity (@new unit) (Entity.mk "car" ∅)) "car"))).1 "car"
  = None.
Proof.
  apply (removeEntity_wins (addEntity (@new unit) (Entity.mk "car" ∅)) "car"
           [Entity.mk "car" ∅]).
  split; constructor.
Defined.

(** The drain empties both queues, so a second drain right after changes
    nothing and notifies nobody. *)
Theorem processEntityQueue_idempotent {SystemT : Type} (w : t SystemT) :
  entitiesToAdd (processEntityQueue w).1 = []
  /\ entitiesToRemove (processEntityQueue w).1 = []
  /\ processEntityQueue (processEntityQueue w).1 = ((processEntityQueue w).1, []).
Proof.
  unfold processEntityQueue. destruct (removeAll _ _) as [m removed]. cbn. auto.
Qed.

Lemma omap_mapGet_mapDelete (r : string) (rest : list string) (m : list (string * Entity.t)) :
  NoDup (map fst m) -> r ∉ rest ->
  omap (fun k => mapGet k (mapDelete r m)) rest = omap (fun k => mapGet k m) rest.
Proof.
  intros Hnd. induction rest as [|k rest IH]; intros Hr; [reflexivity|].
  apply not_elem_of_cons in Hr as [Hne Hr]. cbn.
  rewrite (mapGet_mapDelete r k m Hnd), decide_False by exact Hne.
  rewrite (IH Hr). reflexivity.
Qed.

(** [onRemove] reaches exactly the entities found under the queued ids after
    the adds, once each and in queue order; an id that names no entity is
    skipped without a trace. *)
Theorem processEntityQueue_notifies {SystemT : Type} (w : t SystemT) :
  wellFormed w ->
  (processEntityQueue w).2
  = omap (fun k => mapGet k (addAll (entitiesToAdd w) (entities w))) (entitiesToRemove w).
Proof.
  intros [Hk Hr]. unfold processEntityQueue.
  pose proof (addAll_fst (entitiesToAdd w) _ Hk) as Hm.
  generalize dependent (addAll (entitiesToAdd w) (entities w)). clear Hk.
  induction (entitiesToRemove w) as [|r rest IH]; intros m Hm; [reflexivity|].
  apply NoDup_cons in Hr as [Hr Hrest].
  change (omap (fun k => mapGet k m) (r :: rest))
    with (match mapGet r m with
          | Some e => e :: omap (fun k => mapGet k m) rest
          | None => omap (fun k => mapGet k m) rest
          end).
  cbn [removeAll].
  destruct (mapGet r m) as [e|] eqn:Er.
  - destruct (mapDelete_fst r m Hm) as [Hm' _].
    specialize (IH Hrest (mapDelete r m) Hm').
    rewrite (omap_mapGet_mapDelete r rest m Hm Hr) in IH.
    destruct (removeAll rest (mapDelete r m)) as [m' removed].
    cbn [snd] in *. rewrite IH. reflexivity.
  - specialize (IH Hrest m Hm). destruct (removeAll rest m) as [m' removed].
    cbn [snd] in *. exact IH.
Qed.

Lemma processEntityQueue_notifies_witness :
  (processEntityQueue
     (removeEntity (removeEntity (addEntity (@new unit) (Entity.mk "car" ∅)) "ghost") "car")).2
  = [Entity.mk "car" ∅].
Proof.
  rewrite (processEntityQueue_notifies
             (removeEntity (removeEntity (addEntity (@new unit) (Entity.mk "car" ∅)) "ghost")
                "car")).
  - reflexivity.
  - split; [apply NoDup_nil_2|]. apply (setAdd_NoDup "car" ["ghost"]). apply NoDup_singleton.
Defined.

(** After [addSystem] the systems are in ascending priority, whatever order
    they were added in, and they are the old ones plus the new one after
    its [init]. *)
Theorem addSystem_sorted {SystemT : Type} (priority : SystemT -> Z)
    (init : SystemT -> WorldRef -> SystemT) (w : t SystemT) (system : SystemT) :
  StronglySorted (fun a b => (priority a <= priority b)%Z)
    (systems (addSystem priority init w system))
  /\ Permutation (systems w ++ [init system theWorld])
       (systems (addSystem priority init w system)).
Proof.
  cbn. split; [|apply sort_perm].
  assert (Hs : StronglySorted (fun a b => (priority a - priority b <= 0)%Z)
                 (sort (fun a b => (priority a - priority b)%Z)
                       (systems w ++ [init system theWorld]))).
  { apply (sort_sorted (fun a b => (priority a - priority b)%Z) (fun _ => True)).
    - intros a b _ _. lia.
    - intros a b c _ _ _. lia.
    - apply Forall_forall. auto. }
  induction Hs as [|a l Hs IH Hall]; constructor; [exact IH|].
  eapply Forall_impl; [exact Hall|]. cbn. intros b Hab. lia.
Qed.

End WorldRegistry.
